(** * cdpnetool: the interception engine, embedded and checked

    The development follows the Go sources of the engine:
    - [strings]   the functions of Go's package strings the engine calls;
    - [rulespec]  the rule and action records;
    - [jsonptr]   the JSON Pointer helpers ([splitPtr], [toIndex]);
    - [rules]     internal/rules: contexts, conditions, [Eval], [glob];
    - [cdp]       internal/cdp: the manager, JSON Patch, the worker pool, the
                  per-event handler and the pause coordinator;
    - [traffic]   pkg/traffic: the header map and the neutral request and
                  response;
    - [converter] internal/adapter/cdp: from the paused event to the neutral
                  model;
    - [handler]   internal/handler: the revised pipeline, which gathers the
                  mutations of all matched rules;
    - [targets]   the choice of the browser target; [pool] the statistics of
                  the worker pool.
    The properties follow the definitions, one module per subject.

    Go maps are [gmap]s, Go ints are [Z] with the 64-bit wrap-around written
    out where the source computes, byte strings are [string]s.  Go visits a
    map in no fixed order; where the source ranges over a map the model goes
    through [map_to_list] or [map_fold], which fix one.

    Two parts of the model are the code on a domain only.  The case and
    white-space functions of [strings] are the Go functions on ASCII strings
    ([props.ascii_only]).  The JSON Patch functions are written as functions
    on values, while the code writes into the maps and slices it is handed;
    the two agree on documents in which no map or slice is shared
    ([laws.stores_scalars]).  Statements that would otherwise say more than
    the code does carry these as hypotheses. *)

From Stdlib Require Import ZArith Ascii QArith.QArith_base.
From Stdlib Require String.
From stdpp Require Import gmap strings list fin_maps.

Local Open Scope Z_scope.
#[local] Set Warnings "-register-all".

(* ===================================================================== *)
(** * Package strings *)
(* ===================================================================== *)

Module strings.

(** [s[n:]] and [s[:n]] for [n <= len(s)]. *)
Fixpoint str_drop (n : nat) (s : string) : string :=
  match n, s with
  | O, _ => s
  | S _, EmptyString => EmptyString
  | S n', String _ s' => str_drop n' s'
  end.

Fixpoint str_take (n : nat) (s : string) : string :=
  match n, s with
  | O, _ => EmptyString
  | S _, EmptyString => EmptyString
  | S n', String c s' => String c (str_take n' s')
  end.

(** [len(s) >= len(prefix) && s[:len(prefix)] == prefix] *)
Definition HasPrefix (s prefix : string) : bool :=
  (String.length prefix <=? String.length s)%nat
  && String.eqb (str_take (String.length prefix) s) prefix.

(** [len(s) >= len(suffix) && s[len(s)-len(suffix):] == suffix] *)
Definition HasSuffix (s suffix : string) : bool :=
  (String.length suffix <=? String.length s)%nat
  && String.eqb (str_drop (String.length s - String.length suffix) s) suffix.

Definition TrimPrefix (s prefix : string) : string :=
  if HasPrefix s prefix then str_drop (String.length prefix) s else s.

Definition TrimSuffix (s suffix : string) : string :=
  if HasSuffix s suffix
  then str_take (String.length s - String.length suffix) s else s.

(** [ToLower] and [EqualFold] on ASCII strings: the letters [A-Z] are
    lowered byte by byte and every other byte is kept.  On a string with a
    byte of 128 or more the Go functions work on code points ([É] is lowered,
    the Kelvin sign folds to [k]) and these definitions are not theirs; a
    statement that depends on the difference carries the hypothesis that its
    strings are ASCII. *)
Definition lower_byte (c : ascii) : ascii :=
  let n := nat_of_ascii c in
  if ((65 <=? n) && (n <=? 90))%nat then ascii_of_nat (n + 32) else c.

Fixpoint ToLower (s : string) : string :=
  match s with
  | EmptyString => EmptyString
  | String c s' => String (lower_byte c) (ToLower s')
  end.

Definition EqualFold (s t : string) : bool :=
  String.eqb (ToLower s) (ToLower t).

(** First index of [sep] in [s], scanning from the left. *)
Fixpoint Index (s sep : string) : option nat :=
  if HasPrefix s sep then Some O
  else match s with
       | EmptyString => None
       | String _ s' => option_map S (Index s' sep)
       end.

Definition Contains (s substr : string) : bool :=
  match Index s substr with Some _ => true | None => false end.

(** [ReplaceAll] for a non-empty [old]: [skip] counts the bytes of a match
    that are still to be passed over. *)
Fixpoint replace_from (skip : nat) (s old new : string) : string :=
  match s with
  | EmptyString => EmptyString
  | String c s' =>
      match skip with
      | S k => replace_from k s' old new
      | O =>
          if HasPrefix s old
          then new +:+ replace_from (String.length old - 1) s' old new
          else String c (replace_from O s' old new)
      end
  end.

Definition ReplaceAll (s old new : string) : string :=
  replace_from O s old new.

(** [SplitN(s, sep, 2)]: at most two pieces. *)
Definition SplitN2 (s sep : string) : list string :=
  match Index s sep with
  | None => [s]
  | Some i => [str_take i s; str_drop (i + String.length sep) s]
  end.

(** [Split(s, sep)] for a non-empty [sep]; [fuel] bounds the pieces. *)
Fixpoint split_fuel (fuel : nat) (s sep : string) : list string :=
  match fuel with
  | O => [s]
  | S f =>
      match Index s sep with
      | None => [s]
      | Some i => str_take i s :: split_fuel f (str_drop (i + String.length sep) s) sep
      end
  end.

Definition Split (s sep : string) : list string :=
  split_fuel (String.length s) s sep.

(** [TrimSpace] on ASCII strings: the white space is the blank and the
    bytes 9 to 13.  The Go function also trims the white space of Unicode
    (U+0085, U+00A0, U+3000 and others); a statement that depends on the
    difference carries the hypothesis that its strings are ASCII. *)
Definition is_space (c : ascii) : bool :=
  let n := nat_of_ascii c in
  ((n =? 32) || ((9 <=? n) && (n <=? 13)))%nat.

Fixpoint trim_left (s : string) : string :=
  match s with
  | String c s' => if is_space c then trim_left s' else s
  | EmptyString => EmptyString
  end.

Fixpoint trim_right (s : string) : string :=
  match s with
  | EmptyString => EmptyString
  | String c s' =>
      match trim_right s' with
      | EmptyString => if is_space c then EmptyString else String c EmptyString
      | t => String c t
      end
  end.

Definition TrimSpace (s : string) : string := trim_right (trim_left s).

End strings.

(* ===================================================================== *)
(** * Decoded JSON values and the library boundary *)
(* ===================================================================== *)

(** What [encoding/json] decodes into [any]: [nil], [bool], [float64],
    [string], [[]any] and [map[string]any].  An object is kept as the list of
    its members (keys are unique after decoding). *)
Inductive json : Type :=
| JNull
| JBool (b : bool)
| JNum (q : Q)
| JStr (s : string)
| JArr (elems : list json)
| JObj (members : list (string * json)).

(** Go's [int] and [int64] arithmetic wraps around at 64 bits. *)
Definition wrap64 (z : Z) : Z := (z + 2 ^ 63) mod 2 ^ 64 - 2 ^ 63.

(** The calls into Go's standard library and into the regex cache, taken as
    given: the engine is checked for every behaviour of these functions.
    [None] stands for a returned error. *)
Record GoLib := {
  regexp_MatchString : string -> string -> option bool;   (* pattern, s *)
  regexp_ReplaceAllString : string -> string -> string -> option string;
  base64_DecodeString : string -> option string;
  json_Unmarshal : string -> option json;
  json_Marshal : json -> option string;
  strconv_formatFloat : Q -> string;
  url_Query : string -> option (list (string * string));  (* key, first value *)
  url_patchQuery : string -> gmap string (option string) -> option string
}.

(* ===================================================================== *)
(** * pkg/rulespec (pkg/model in the first revision) *)
(* ===================================================================== *)

Module rulespec.

(** Modelled from the spec: the declarations of this package are not among
    the sources; the records carry the fields the manager and the engine
    read.  A Go pointer or nil-able map is an [option]. *)
Record Condition := {
  c_Type : string;
  c_Mode : string;
  c_Pattern : string;
  c_Values : list string;
  c_Key : string;
  c_Op : string;
  c_Value : string;
  c_Pointer : string
}.

Record Match := {
  AllOf : list Condition;
  AnyOf : list Condition;
  NoneOf : list Condition
}.

Record JSONPatchOp := {
  op_Op : string;
  op_Path : string;
  op_Value : json;
  op_From : string
}.

Record TextRegex := { tr_Pattern : string; tr_Replace : string }.

Record BodyPatch := {
  bp_Base64 : option string;
  bp_TextRegex : option TextRegex;
  bp_JSONPatch : list JSONPatchOp
}.

Record Rewrite := {
  rw_URL : option string;
  rw_Method : option string;
  rw_Headers : option (gmap string (option string));
  rw_Query : option (gmap string (option string));
  rw_Cookies : option (gmap string (option string));
  rw_Body : option BodyPatch
}.

Record Respond := {
  rs_Status : Z;
  rs_Headers : gmap string string;
  rs_Body : string
}.

Record Fail := { f_Reason : string }.

Record DefaultAction := {
  da_Type : string;
  da_Status : Z;
  da_Reason : string
}.

Record Pause := {
  p_TimeoutMS : Z;
  p_DefaultAction : DefaultAction
}.

Record Action := {
  a_Rewrite : option Rewrite;
  a_Respond : option Respond;
  a_Fail : option Fail;
  a_DelayMS : Z;
  a_DropRate : Q;
  a_Pause : option Pause
}.

Record Rule := {
  r_ID : string;
  r_Priority : Z;
  r_Mode : string;
  r_Match : Match;
  r_Action : Action
}.

Record RuleSet := { Version : string; Rules : list Rule }.

(** Modelled from the spec: the constants of the pause default action and of
    the JSON Patch operations (sections 4.3 and 4.4 name them). *)
Definition PauseDefaultActionContinueOriginal : string := "continue_original".
Definition PauseDefaultActionContinueMutated : string := "continue_mutated".
Definition PauseDefaultActionFulfill : string := "fulfill".
Definition PauseDefaultActionFail : string := "fail".

Definition JSONPatchOpAdd : string := "add".
Definition JSONPatchOpRemove : string := "remove".
Definition JSONPatchOpReplace : string := "replace".
Definition JSONPatchOpCopy : string := "copy".
Definition JSONPatchOpMove : string := "move".
Definition JSONPatchOpTest : string := "test".

End rulespec.

(* ===================================================================== *)
(** * JSON Pointer helpers (shared by internal/rules and internal/cdp) *)
(* ===================================================================== *)

Module jsonptr.
Import strings.

(** One token per [/]-separated piece after the leading byte; [~1] is
    unescaped before [~0]. *)
Definition unescape (tok : string) : string :=
  ReplaceAll (ReplaceAll tok "~1" "/") "~0" "~".

(** [pieces cur open p] scans [p] byte by byte; [cur] is the piece read so
    far and [open] tells whether a byte of it was read.  The Go loop emits a
    token at each [/], and at the end of the input when at least one byte
    follows the last [/]. *)
Fixpoint pieces (cur : string) (open : bool) (p : string) : list string :=
  match p with
  | EmptyString => if open then [cur] else []
  | String c p' =>
      if Ascii.eqb c "/"%char
      then cur :: pieces EmptyString false p'
      else pieces (cur +:+ String c EmptyString) true p'
  end.

(** [splitPtr]: the scan starts at index 1 whatever the first byte is. *)
Definition splitPtr (p : string) : list string :=
  match p with
  | EmptyString => []
  | String _ rest => map unescape (pieces EmptyString false rest)
  end.

(** [c - '0'] for a decimal digit. *)
Definition digit_of (c : ascii) : option Z :=
  let n := nat_of_ascii c in
  if ((48 <=? n) && (n <=? 57))%nat then Some (Z.of_nat n - 48) else None.

(** [toIndex]: a non-empty run of decimal digits, read by [n = n*10 + d]. *)
Fixpoint toIndex_loop (n : Z) (s : string) : option Z :=
  match s with
  | EmptyString => Some n
  | String c s' =>
      match digit_of c with
      | None => None
      | Some d => toIndex_loop (wrap64 (wrap64 (n * 10) + d)) s'
      end
  end.

Definition toIndex (s : string) : option Z :=
  match s with
  | EmptyString => None
  | _ => toIndex_loop 0 s
  end.

Fixpoint obj_get (k : string) (ms : list (string * json)) : option json :=
  match ms with
  | [] => None
  | (k', v) :: ms' => if String.eqb k' k then Some v else obj_get k ms'
  end.

Fixpoint obj_set (k : string) (v : json) (ms : list (string * json))
  : list (string * json) :=
  match ms with
  | [] => [(k, v)]
  | (k', v') :: ms' =>
      if String.eqb k' k then (k', v) :: ms' else (k', v') :: obj_set k v ms'
  end.

Fixpoint obj_delete (k : string) (ms : list (string * json))
  : list (string * json) :=
  match ms with
  | [] => []
  | (k', v') :: ms' =>
      if String.eqb k' k then obj_delete k ms' else (k', v') :: obj_delete k ms'
  end.

(** [idx < 0 || idx >= len(c)] fails; otherwise the element. *)
Definition arr_get (idx : Z) (c : list json) : option json :=
  if (idx <? 0) || (Z.of_nat (length c) <=? idx) then None
  else c !! Z.to_nat idx.

(** The pointer walk shared by [getByPtr] and [jsonPointer]. *)
Fixpoint walk (x : json) (tokens : list string) : option json :=
  match tokens with
  | [] => Some x
  | t :: rest =>
      match x with
      | JObj c =>
          match obj_get t c with
          | None => None
          | Some v => walk v rest
          end
      | JArr c =>
          match toIndex t with
          | None => None
          | Some idx =>
              match arr_get idx c with
              | None => None
              | Some v => walk v rest
              end
          end
      | _ => None
      end
  end.

Definition well_rooted (ptr : string) : bool :=
  match ptr with
  | String c _ => Ascii.eqb c "/"%char
  | EmptyString => false
  end.

End jsonptr.

(* ===================================================================== *)
(** * internal/rules *)
(* ===================================================================== *)

Module rules.
Import strings rulespec.

Record Ctx := {
  URL : string;
  Method : string;
  Headers : gmap string string;
  Query : gmap string string;
  Cookies : gmap string string;
  Body : string;
  ContentType : string;
  Stage : string
}.

Record Result := { RuleID : string; ActionOf : Action }.

Section Engine.
Context (lib : GoLib).

Definition matchRegex (s pattern : string) : bool :=
  match regexp_MatchString lib pattern s with
  | Some b => b
  | None => false
  end.

(** [glob]: the pattern language of the default url mode. *)
Definition glob (s pattern : string) : bool :=
  if String.eqb pattern "*" then true
  else if HasPrefix pattern "*" && HasSuffix s (TrimPrefix pattern "*") then true
  else if HasSuffix pattern "*" && HasPrefix s (TrimSuffix pattern "*") then true
  else String.eqb s pattern.

(** The scalar a pointer resolves to, as text. *)
Definition jsonPointer (body ptr : string) : option string :=
  match json_Unmarshal lib body with
  | None => None
  | Some v =>
      if negb (jsonptr.well_rooted ptr) then None
      else
        match jsonptr.walk v (jsonptr.splitPtr ptr) with
        | None => None
        | Some (JStr x) => Some x
        | Some (JNum x) => Some (strconv_formatFloat lib x)
        | Some (JBool x) => Some (if x then "true" else "false")
        | Some x => json_Marshal lib x
        end
  end.

(** The comparison shared by the header, query, cookie, text and
    json_pointer conditions. *)
Definition by_op (op v value : string) : bool :=
  if String.eqb op "equals" then String.eqb v value
  else if String.eqb op "contains" then Contains v value
  else if String.eqb op "regex" then matchRegex v value
  else true.

Definition cond (ctx : Ctx) (c : Condition) : bool :=
  let ty := c_Type c in
  if String.eqb ty "url" then
    let mode := c_Mode c in
    if String.eqb mode "prefix" then HasPrefix (URL ctx) (c_Pattern c)
    else if String.eqb mode "regex" then matchRegex (URL ctx) (c_Pattern c)
    else if String.eqb mode "exact" then String.eqb (URL ctx) (c_Pattern c)
    else glob (URL ctx) (c_Pattern c)
  else if String.eqb ty "method" then
    existsb (fun v => EqualFold (Method ctx) v) (c_Values c)
  else if String.eqb ty "header" then
    match Headers ctx !! c_Key c with
    | None => false
    | Some v => by_op (c_Op c) v (c_Value c)
    end
  else if String.eqb ty "query" then
    match Query ctx !! c_Key c with
    | None => false
    | Some v => by_op (c_Op c) v (c_Value c)
    end
  else if String.eqb ty "cookie" then
    match Cookies ctx !! c_Key c with
    | None => false
    | Some v => by_op (c_Op c) v (c_Value c)
    end
  else if String.eqb ty "text" then
    if String.eqb (Body ctx) "" then false
    else by_op (c_Op c) (Body ctx) (c_Value c)
  else if String.eqb ty "json_pointer" then
    if String.eqb (Body ctx) "" then false
    else
      match jsonPointer (Body ctx) (c_Pointer c) with
      | None => false
      | Some s => by_op (c_Op c) s (c_Value c)
      end
  else false.

Definition allOf (ctx : Ctx) (cs : list Condition) : bool :=
  forallb (cond ctx) cs.

Definition anyOf (ctx : Ctx) (cs : list Condition) : bool :=
  existsb (cond ctx) cs.

Definition noneOf (ctx : Ctx) (cs : list Condition) : bool :=
  negb (anyOf ctx cs).

Definition nonempty {A} (l : list A) : bool :=
  match l with [] => false | _ => true end.

Definition matchRule (ctx : Ctx) (m : Match) : bool :=
  let ok := true in
  let ok := if nonempty (AllOf m) then ok && allOf ctx (AllOf m) else ok in
  let ok := if nonempty (AnyOf m) then ok && anyOf ctx (AnyOf m) else ok in
  let ok := if nonempty (NoneOf m) then ok && noneOf ctx (NoneOf m) else ok in
  ok.

(** The loop of [Eval]: [chosen] is the rule kept so far; a [break] ends
    the walk with the rule just chosen. *)
Fixpoint choose (ctx : Ctx) (chosen : option Rule) (rs : list Rule)
  : option Rule :=
  match rs with
  | [] => chosen
  | r :: rest =>
      if matchRule ctx (r_Match r) then
        if match chosen with
           | None => true
           | Some c => r_Priority c <? r_Priority r
           end
        then
          if String.eqb (r_Mode r) "short_circuit" then Some r
          else choose ctx (Some r) rest
        else choose ctx chosen rest
      else choose ctx chosen rest
  end.

Definition Eval (rs : RuleSet) (ctx : Ctx) : option Result :=
  match Rules rs with
  | [] => None
  | rules =>
      match choose ctx None rules with
      | None => None
      | Some chosen =>
          Some {| RuleID := r_ID chosen; ActionOf := r_Action chosen |}
      end
  end.

End Engine.

End rules.

(* ===================================================================== *)
(** * internal/cdp: data, adapter calls and the manager's state *)
(* ===================================================================== *)

Module cdp.
Import strings rulespec.

Record HeaderEntry := { Name : string; Value : string }.

(** [fetch.RequestPausedReply]; [req_Headers] is the decoded form of the
    JSON object [ev.Request.Headers]. *)
Record RequestPausedReply := {
  RequestID : string;
  req_URL : string;
  req_Method : string;
  req_Headers : gmap string string;
  req_PostData : option string;
  ResponseStatusCode : option Z;
  ResponseHeaders : list HeaderEntry
}.

Record ContinueRequestArgs := {
  cr_RequestID : string;
  cr_URL : option string;
  cr_Method : option string;
  cr_PostData : option string;
  cr_Headers : list HeaderEntry
}.

Record ContinueResponseArgs := {
  cp_RequestID : string;
  cp_ResponseCode : option Z;
  cp_ResponseHeaders : list HeaderEntry
}.

Record FulfillRequestArgs := {
  fr_RequestID : string;
  fr_ResponseCode : Z;
  fr_ResponseHeaders : list HeaderEntry;
  fr_Body : string
}.

Record FailRequestArgs := {
  fl_RequestID : string;
  fl_ErrorReason : string
}.

Record GetResponseBodyReply := { rb_Body : string; rb_Base64Encoded : bool }.

(** A call the manager issues on [m.client.Fetch]. *)
Inductive Call :=
| ContinueRequest (args : ContinueRequestArgs)
| ContinueResponse (args : ContinueResponseArgs)
| FulfillRequest (args : FulfillRequestArgs)
| FailRequest (args : FailRequestArgs)
| GetResponseBody (requestID : string).

(** The four calls that complete a paused transaction. *)
Definition terminating (c : Call) : bool :=
  match c with
  | GetResponseBody _ => false
  | _ => true
  end.

Definition call_id (c : Call) : string :=
  match c with
  | ContinueRequest a => cr_RequestID a
  | ContinueResponse a => cp_RequestID a
  | FulfillRequest a => fr_RequestID a
  | FailRequest a => fl_RequestID a
  | GetResponseBody id => id
  end.

Definition ErrorReasonFailed : string := "Failed".

Record Event := { ev_Type : string; ev_Rule : option string }.

Record PendingItem := {
  pi_ID : string;
  pi_Stage : string;
  pi_URL : string;
  pi_Method : string;
  pi_Target : string;
  pi_Rule : option string
}.

(** A Go channel seen from one sender while nobody receives: what it holds,
    how much it can hold, whether it was closed. *)
Record chan (A : Type) := {
  ch_closed : bool;
  ch_cap : nat;
  ch_buf : list A
}.
Arguments ch_closed {A} _.
Arguments ch_cap {A} _.
Arguments ch_buf {A} _.

Definition ch_push {A} (c : chan A) (x : A) : chan A :=
  {| ch_closed := ch_closed c; ch_cap := ch_cap c; ch_buf := ch_buf c ++ [x] |}.

Definition ch_full {A} (c : chan A) : bool :=
  (ch_cap c <=? length (ch_buf c))%nat.

Definition make_chan {A} (cap : nat) : chan A :=
  {| ch_closed := false; ch_cap := cap; ch_buf := [] |}.

Record Manager := {
  events : chan Event;
  pending : option (chan PendingItem);
  engine : option RuleSet;
  approvals : gmap string (chan Rewrite);
  bodySizeThreshold : Z;
  processTimeoutMS : Z;
  currentTarget : string;
  calls : list Call            (* what the browser received, oldest first *)
}.

Definition set_events (e : chan Event) (m : Manager) : Manager :=
  {| events := e; pending := pending m; engine := engine m;
     approvals := approvals m; bodySizeThreshold := bodySizeThreshold m;
     processTimeoutMS := processTimeoutMS m; currentTarget := currentTarget m;
     calls := calls m |}.

Definition set_pending (p : option (chan PendingItem)) (m : Manager) : Manager :=
  {| events := events m; pending := p; engine := engine m;
     approvals := approvals m; bodySizeThreshold := bodySizeThreshold m;
     processTimeoutMS := processTimeoutMS m; currentTarget := currentTarget m;
     calls := calls m |}.

Definition set_approvals (a : gmap string (chan Rewrite)) (m : Manager) : Manager :=
  {| events := events m; pending := pending m; engine := engine m;
     approvals := a; bodySizeThreshold := bodySizeThreshold m;
     processTimeoutMS := processTimeoutMS m; currentTarget := currentTarget m;
     calls := calls m |}.

Definition set_calls (c : list Call) (m : Manager) : Manager :=
  {| events := events m; pending := pending m; engine := engine m;
     approvals := approvals m; bodySizeThreshold := bodySizeThreshold m;
     processTimeoutMS := processTimeoutMS m; currentTarget := currentTarget m;
     calls := c |}.

(** What one run of the handler meets from outside: the browser's answer to
    [GetResponseBody], the random draw, the clock, the approval (if any)
    that reaches the approval channel before the pause timer fires, and
    whether the select of the worker finds the pool's context done and takes
    that case. *)
Record Env := {
  browser_body : string -> option GetResponseBodyReply;
  rand_Float64 : Q;
  elapsed_ns : Z;
  approval : option Rewrite;
  worker_done : bool
}.

(** ** Control: a goroutine returns, waits on a channel, or panics *)

Inductive outcome (A : Type) :=
| Returned (a : A)
| Blocked
| Panicked.
Arguments Returned {A} a.
Arguments Blocked {A}.
Arguments Panicked {A}.

Definition M (A : Type) : Type := Manager -> outcome A * Manager.

Definition ret {A} (a : A) : M A := fun m => (Returned a, m).

Definition bind {A B} (c : M A) (k : A -> M B) : M B :=
  fun m =>
    match c m with
    | (Returned a, m') => k a m'
    | (Blocked, m') => (Blocked, m')
    | (Panicked, m') => (Panicked, m')
    end.

Notation "x <- c ;; k" := (bind c (fun x => k))
  (at level 100, c at next level, right associativity).
Notation "c ;; k" := (bind c (fun _ => k))
  (at level 100, right associativity).

Definition get : M Manager := fun m => (Returned m, m).

(** An adapter call: recorded; its error result is never looked at. *)
Definition call (c : Call) : M unit :=
  fun m => (Returned tt, set_calls (calls m ++ [c]) m).

(** [ch <- x]: panics on a closed channel, waits while the buffer is full. *)
Definition send {A} (c : chan A) (x : A) : outcome (chan A) :=
  if ch_closed c then Panicked
  else if ch_full c then Blocked
  else Returned (ch_push c x).

(** [select { case ch <- x: ... default: ... }]: the flag tells whether the
    value was taken. *)
Definition try_send {A} (c : chan A) (x : A) : outcome (bool * chan A) :=
  if ch_closed c then Panicked
  else if ch_full c then Returned (false, c)
  else Returned (true, ch_push c x).

(** [m.events <- evt] *)
Definition emit (evt : Event) : M unit :=
  fun m =>
    match send (events m) evt with
    | Returned e => (Returned tt, set_events e m)
    | Blocked => (Blocked, m)
    | Panicked => (Panicked, m)
    end.

(** [sendEvent] of the revised manager: the select with a default branch. *)
Definition sendEvent (evt : Event) : M unit :=
  fun m =>
    match try_send (events m) evt with
    | Returned (_, e) => (Returned tt, set_events e m)
    | Blocked => (Blocked, m)
    | Panicked => (Panicked, m)
    end.

(** [Handler.sendMatchedEvent]: nothing on a nil channel, else the select
    with a default branch. *)
Definition sendMatchedEvent (events : option (chan Event)) (evt : Event)
  : outcome (option (chan Event)) :=
  match events with
  | None => Returned None
  | Some c =>
      match try_send c evt with
      | Returned (_, c') => Returned (Some c')
      | Blocked => Blocked
      | Panicked => Panicked
      end
  end.

(** ** Parsing helpers *)

(** [parseCookie]: the pairs of a Cookie header; a later pair wins. *)
Definition parseCookie (s : string) : gmap string string :=
  fold_left
    (fun out p =>
       match SplitN2 (TrimSpace p) "=" with
       | [k; v] => <[k := v]> out
       | _ => out
       end)
    (Split s ";") ∅.

(** [parseSetCookie]: the first pair of a Set-Cookie header. *)
Definition parseSetCookie (s : string) : string * string :=
  let first :=
    TrimSpace (match SplitN2 s ";" with p0 :: _ => p0 | [] => s end) in
  match SplitN2 first "=" with
  | [k; v] => (k, v)
  | _ => ("", "")
  end.

Fixpoint parseInt64_loop (n : Z) (s : string) : option Z :=
  match s with
  | EmptyString => Some n
  | String c s' =>
      match jsonptr.digit_of c with
      | None => None
      | Some d => parseInt64_loop (wrap64 (wrap64 (n * 10) + d)) s'
      end
  end.

(** [parseInt64]: [mul] is the constant 1. *)
Definition parseInt64 (s : string) : option Z :=
  match parseInt64_loop 0 s with
  | None => None
  | Some n => Some (wrap64 (n * 1))
  end.

(** [shouldGetBody] *)
Definition shouldGetBody (ctype : string) (clen thr : Z) : bool :=
  let thr := if thr <=? 0 then 4 * 1024 * 1024 else thr in
  if (0 <? clen) && (thr <? clen) then false
  else
    let lc := ToLower ctype in
    if HasPrefix lc "text/" then true
    else if HasPrefix lc "application/json" then true
    else false.

Definition lookup_or {A} (d : A) (o : option A) : A :=
  match o with Some x => x | None => d end.

(** ** The rule context *)

Section WithLib.
Context (lib : GoLib).

(** The response branch of [buildRuleContext] walks the header entries in
    order and keeps the headers, the cookies and the content type. *)
Definition response_scan (hs : list HeaderEntry)
  : gmap string string * gmap string string * string :=
  fold_left
    (fun '(h, ck, ctype) e =>
       let k := Name e in
       let v := Value e in
       let h := <[ToLower k := v]> h in
       let ck :=
         if EqualFold k "set-cookie" then
           let '(name, val) := parseSetCookie v in
           if String.eqb name "" then ck else <[ToLower name := val]> ck
         else ck in
       let ctype := if EqualFold k "content-type" then v else ctype in
       (h, ck, ctype))
    hs (∅, ∅, "").

(** [for k, v := range h { m2[strings.ToLower(k)] = v }] *)
Definition lower_keys (h : gmap string string) : gmap string string :=
  map_fold (fun k v acc => <[ToLower k := v]> acc) ∅ h.

Definition decode_body (rb : GetResponseBodyReply) : option string :=
  if rb_Base64Encoded rb then base64_DecodeString lib (rb_Body rb)
  else Some (rb_Body rb).

Definition buildRuleContext (env : Env) (ev : RequestPausedReply)
  (stage : string) : M rules.Ctx :=
  if String.eqb stage "response" then
    let '(h, ck, ctype) := response_scan (ResponseHeaders ev) in
    let clen :=
      match h !! "content-length" with
      | Some v => lookup_or 0 (parseInt64 v)
      | None => 0
      end in
    m <- get ;;
    bodyText <-
      (if shouldGetBody ctype clen (bodySizeThreshold m) then
         call (GetResponseBody (RequestID ev)) ;;
         ret (match browser_body env (RequestID ev) with
              | Some rb => lookup_or "" (decode_body rb)
              | None => ""
              end)
       else ret "") ;;
    ret {| rules.URL := req_URL ev; rules.Method := req_Method ev;
           rules.Headers := h; rules.Query := ∅; rules.Cookies := ck;
           rules.Body := bodyText; rules.ContentType := ctype;
           rules.Stage := stage |}
  else
    let h := lower_keys (req_Headers ev) in
    let q :=
      if String.eqb (req_URL ev) "" then ∅
      else
        match url_Query lib (req_URL ev) with
        | Some kvs =>
            fold_left (fun q '(k, v) => <[ToLower k := v]> q) kvs ∅
        | None => ∅
        end in
    let ck :=
      match h !! "cookie" with
      | Some v =>
          map_fold (fun name val acc => <[ToLower name := val]> acc)
            ∅ (parseCookie v)
      | None => ∅
      end in
    let ctype := lookup_or "" (h !! "content-type") in
    let bodyText := lookup_or "" (req_PostData ev) in
    ret {| rules.URL := req_URL ev; rules.Method := req_Method ev;
           rules.Headers := h; rules.Query := q; rules.Cookies := ck;
           rules.Body := bodyText; rules.ContentType := ctype;
           rules.Stage := stage |}.

(** [decide] *)
Definition decide (env : Env) (ev : RequestPausedReply) (stage : string)
  : M (option rules.Result) :=
  m <- get ;;
  match engine m with
  | None => ret None
  | Some rs =>
      ctx <- buildRuleContext env ev stage ;;
      ret (rules.Eval lib rs ctx)
  end.

  (** ** JSON Patch *)

(** [setRec], [removeRec] and the loop of [applyJSONPatch] as functions from
    document to document.  The Go code writes into the maps and slices of the
    document and stores the value it is handed, not a copy of it; the two
    agree as long as no map or slice is reachable by two paths, which is so
    for a document fresh from [json.Unmarshal] to which scalars only are
    added or copied.  A statement about a run of operations carries that
    hypothesis. *)
Fixpoint setRec (cur : json) (tokens : list string) (val : json)
  {struct tokens} : json :=
  match tokens with
  | [] => val
  | t :: rest =>
      match cur with
      | JObj c =>
          let child := lookup_or (JObj []) (jsonptr.obj_get t c) in
          JObj (jsonptr.obj_set t (setRec child rest val) c)
      | JArr c =>
          match jsonptr.toIndex t with
          | None => cur
          | Some idx =>
              match jsonptr.arr_get idx c with
              | None => cur
              | Some x => JArr (<[Z.to_nat idx := setRec x rest val]> c)
              end
          end
      | _ => match rest with [] => val | _ => cur end
      end
  end.

(** [setByPtr]; the flag [replace] is not read by the body. *)
Definition setByPtr (cur : json) (ptr : string) (val : json) (replace : bool)
  : json :=
  if negb (jsonptr.well_rooted ptr) then cur
  else setRec cur (jsonptr.splitPtr ptr) val.

Fixpoint removeRec (cur : json) (tokens : list string) : json :=
  match tokens with
  | [] => cur
  | t :: rest =>
      match cur with
      | JObj c =>
          match rest with
          | [] => JObj (jsonptr.obj_delete t c)
          | _ =>
              match jsonptr.obj_get t c with
              | None => cur
              | Some child => JObj (jsonptr.obj_set t (removeRec child rest) c)
              end
          end
      | JArr c =>
          match jsonptr.toIndex t with
          | None => cur
          | Some idx =>
              match jsonptr.arr_get idx c with
              | None => cur
              | Some x =>
                  match rest with
                  | [] => JArr (take (Z.to_nat idx) c ++ drop (S (Z.to_nat idx)) c)
                  | _ => JArr (<[Z.to_nat idx := removeRec x rest]> c)
                  end
              end
          end
      | _ => cur
      end
  end.

Definition removeByPtr (cur : json) (ptr : string) : json :=
  if negb (jsonptr.well_rooted ptr) then cur
  else removeRec cur (jsonptr.splitPtr ptr).

Definition getByPtr (cur : json) (ptr : string) : option json :=
  if negb (jsonptr.well_rooted ptr) then None
  else jsonptr.walk cur (jsonptr.splitPtr ptr).

(** [reflect.DeepEqual] on decoded values: arrays position by position,
    objects key by key. *)
Fixpoint deepEqual (a b : json) : bool :=
  match a, b with
  | JNull, JNull => true
  | JBool x, JBool y => Bool.eqb x y
  | JNum x, JNum y => Qeq_bool x y
  | JStr x, JStr y => String.eqb x y
  | JArr xs, JArr ys =>
      (fix all2 (xs ys : list json) : bool :=
         match xs, ys with
         | [], [] => true
         | x :: xs', y :: ys' => deepEqual x y && all2 xs' ys'
         | _, _ => false
         end) xs ys
  | JObj xs, JObj ys =>
      (length xs =? length ys)%nat
      && (fix each (xs : list (string * json)) : bool :=
            match xs with
            | [] => true
            | (k, v) :: xs' =>
                match jsonptr.obj_get k ys with
                | Some w => deepEqual v w
                | None => false
                end && each xs'
            end) xs
  | _, _ => false
  end.

(** One iteration of the loop of [applyJSONPatch]; [None] is the early
    [return "", false]. *)
Definition applyOp (v : json) (op : JSONPatchOp) : option json :=
  let typ := op_Op op in
  if String.eqb typ JSONPatchOpAdd || String.eqb typ JSONPatchOpReplace then
    Some (setByPtr v (op_Path op) (op_Value op) (String.eqb typ JSONPatchOpReplace))
  else if String.eqb typ JSONPatchOpRemove then
    Some (removeByPtr v (op_Path op))
  else if String.eqb typ JSONPatchOpCopy then
    match getByPtr v (op_From op) with
    | None => None
    | Some src => Some (setByPtr v (op_Path op) src true)
    end
  else if String.eqb typ JSONPatchOpMove then
    match getByPtr v (op_From op) with
    | None => None
    | Some src =>
        Some (setByPtr (removeByPtr v (op_From op)) (op_Path op) src true)
    end
  else if String.eqb typ JSONPatchOpTest then
    match getByPtr v (op_Path op) with
    | None => None
    | Some cur => if deepEqual cur (op_Value op) then Some v else None
    end
  else Some v.

Fixpoint applyOps (v : json) (ops : list JSONPatchOp) : option json :=
  match ops with
  | [] => Some v
  | op :: rest =>
      match applyOp v op with
      | None => None
      | Some v' => applyOps v' rest
      end
  end.

Definition applyJSONPatch (doc : string) (ops : list JSONPatchOp)
  : option string :=
  match (if String.eqb doc "" then Some (JObj []) else json_Unmarshal lib doc) with
  | None => None
  | Some v =>
      match applyOps v ops with
      | None => None
      | Some v' => json_Marshal lib v'
      end
  end.

(** [applyBodyPatch]: Base64 first, then the text regex, then JSON Patch. *)
Definition applyBodyPatch (src : string) (bp : option BodyPatch)
  : option string :=
  match bp with
  | None => None
  | Some bp =>
      match bp_Base64 bp with
      | Some v => base64_DecodeString lib v
      | None =>
          match bp_TextRegex bp with
          | Some tr =>
              regexp_ReplaceAllString lib (tr_Pattern tr) src (tr_Replace tr)
          | None =>
              match bp_JSONPatch bp with
              | [] => None
              | ops => applyJSONPatch src ops
              end
          end
      end
  end.

(** ** Headers *)

Definition applyHeaderPatch (cur : gmap string string)
  (patch : option (gmap string (option string))) : gmap string string :=
  match patch with
  | None => cur
  | Some patch =>
      map_fold
        (fun (k : string) (v : option string) (cur : gmap string string) =>
           let lk := ToLower k in
           match v with
           | None => delete lk cur
           | Some x => <[lk := x]> cur
           end)
        cur patch
  end.

Definition toHeaderEntries (h : gmap string string) : list HeaderEntry :=
  map (fun kv : string * string => {| Name := kv.1; Value := kv.2 |})
    (map_to_list h).

Definition getCurrentResponseHeaders (ev : RequestPausedReply)
  : gmap string string :=
  fold_left (fun cur e => <[ToLower (Name e) := Value e]> cur)
    (ResponseHeaders ev) ∅.

Definition extractResponseMetadata (ev : RequestPausedReply) : string * Z :=
  fold_left
    (fun '(ctype, clen) e =>
       let ctype := if EqualFold (Name e) "content-type" then Value e else ctype in
       let clen :=
         if EqualFold (Name e) "content-length" then
           match parseInt64 (Value e) with Some n => n | None => clen end
         else clen in
       (ctype, clen))
    (ResponseHeaders ev) ("", 0).

(** The cookie header the rewrite sends: the pairs of the request's own
    cookie, patched, joined by [; ]. *)
Definition join_cookies (cm : gmap string string) : string :=
  fold_left
    (fun (b : string) (kv : string * string) =>
       (if String.eqb b "" then b else b +:+ "; ") +:+ kv.1 +:+ "=" +:+ kv.2)
    (map_to_list cm) "".

Definition buildRequestHeaders (rw : Rewrite) (ev : RequestPausedReply)
  : list HeaderEntry :=
  let hdrs : list HeaderEntry :=
    match rw_Headers rw with
    | None => []
    | Some hs =>
        omap (fun kv : string * option string =>
                      match kv.2 with
                        | Some v => Some {| Name := kv.1; Value := v |}
                        | None => None
                        end)
          (map_to_list hs)
    end in
  match rw_Cookies rw with
  | None => hdrs
  | Some cookies =>
      let cookie :=
        match filter (fun kv : string * string => EqualFold kv.1 "cookie" = true)
                (map_to_list (req_Headers ev)) with
        | kv :: _ => kv.2
        | [] => ""
        end in
      let cm : gmap string string :=
        map_fold
          (fun (name : string) (val : option string) (cm : gmap string string) =>
             match val with
             | None => delete name cm
             | Some v => <[name := v]> cm
             end)
          (parseCookie cookie) cookies in
      if (size cm =? 0)%nat then hdrs
      else hdrs ++ [{| Name := "Cookie"; Value := join_cookies cm |}]
  end.

Definition buildRequestBody (rw : Rewrite) (ev : RequestPausedReply)
  : option string :=
  match rw_Body rw with
  | None => None
  | Some bp =>
      let src := lookup_or "" (req_PostData ev) in
      match applyBodyPatch src (Some bp) with
      | Some b => if String.eqb b "" then None else Some b
      | None => None
      end
  end.

  (** ** The terminating actions *)

Definition bare_continue_request (id : string) : ContinueRequestArgs :=
  {| cr_RequestID := id; cr_URL := None; cr_Method := None;
     cr_PostData := None; cr_Headers := [] |}.

Definition bare_continue_response (id : string) : ContinueResponseArgs :=
  {| cp_RequestID := id; cp_ResponseCode := None; cp_ResponseHeaders := [] |}.

Definition applyContinue (ev : RequestPausedReply) (stage : string) : M unit :=
  if String.eqb stage "response"
  then call (ContinueResponse (bare_continue_response (RequestID ev)))
  else call (ContinueRequest (bare_continue_request (RequestID ev))).

Definition applyFail (ev : RequestPausedReply) (f : Fail) : M unit :=
  call (FailRequest {| fl_RequestID := RequestID ev;
                       fl_ErrorReason := ErrorReasonFailed |}).

Definition continueResponseWithModifications (ev : RequestPausedReply)
  (r : Respond) : M unit :=
  call (ContinueResponse
          {| cp_RequestID := RequestID ev;
             cp_ResponseCode :=
               if rs_Status r =? 0 then None else Some (rs_Status r);
             cp_ResponseHeaders :=
               if (size (rs_Headers r) =? 0)%nat then []
               else toHeaderEntries (rs_Headers r) |}).

Definition fulfillRequest (ev : RequestPausedReply) (r : Respond) : M unit :=
  call (FulfillRequest
          {| fr_RequestID := RequestID ev;
             fr_ResponseCode := rs_Status r;
             fr_ResponseHeaders :=
               if (size (rs_Headers r) =? 0)%nat then []
               else toHeaderEntries (rs_Headers r);
             fr_Body := rs_Body r |}).

Definition applyRespond (ev : RequestPausedReply) (r : Respond)
  (stage : string) : M unit :=
  if String.eqb stage "response" && String.eqb (rs_Body r) ""
  then continueResponseWithModifications ev r
  else fulfillRequest ev r.

(** [fetchResponseBody] *)
Definition fetchResponseBody (env : Env) (requestID : string)
  : M (option string) :=
  call (GetResponseBody requestID) ;;
  ret (match browser_body env requestID with
       | None => None
       | Some rb => decode_body rb
       end).

Definition applyResponseRewrite (env : Env) (ev : RequestPausedReply)
  (rw : Rewrite) : M unit :=
  let id := RequestID ev in
  match rw_Body rw with
  | None =>
      match rw_Headers rw with
      | Some _ =>
          let cur := applyHeaderPatch (getCurrentResponseHeaders ev) (rw_Headers rw) in
          call (ContinueResponse
                  {| cp_RequestID := id; cp_ResponseCode := None;
                     cp_ResponseHeaders := toHeaderEntries cur |})
      | None => call (ContinueResponse (bare_continue_response id))
      end
  | Some bp =>
      let '(ctype, clen) := extractResponseMetadata ev in
      m <- get ;;
      if negb (shouldGetBody ctype clen (bodySizeThreshold m)) then
        call (ContinueResponse (bare_continue_response id))
      else
        fetched <- fetchResponseBody env id ;;
        match fetched with
        | None => call (ContinueResponse (bare_continue_response id))
        | Some bodyText =>
            match applyBodyPatch bodyText (Some bp) with
            | None => call (ContinueResponse (bare_continue_response id))
            | Some newBody =>
                if String.eqb newBody "" then
                  call (ContinueResponse (bare_continue_response id))
                else
                  let code := lookup_or 200 (ResponseStatusCode ev) in
                  let cur :=
                    applyHeaderPatch (getCurrentResponseHeaders ev) (rw_Headers rw) in
                  call (FulfillRequest
                          {| fr_RequestID := id; fr_ResponseCode := code;
                             fr_ResponseHeaders := toHeaderEntries cur;
                             fr_Body := newBody |})
            end
        end
  end.

(** [urlParse] followed by [u.String()]. *)
Definition urlParse (raw : string) (qpatch : gmap string (option string))
  : option string :=
  url_patchQuery lib raw qpatch.

Definition applyRequestRewrite (ev : RequestPausedReply) (rw : Rewrite)
  : M unit :=
  let url := rw_URL rw in
  let method := rw_Method rw in
  let hdrs := buildRequestHeaders rw ev in
  let post := buildRequestBody rw ev in
  let url' :=
    match rw_Query rw, url with
    | Some q, None =>
        match urlParse (req_URL ev) q with
        | Some us => Some us
        | None => url
        end
    | _, _ => url
    end in
  call (ContinueRequest
          {| cr_RequestID := RequestID ev; cr_URL := url';
             cr_Method := method; cr_PostData := post; cr_Headers := hdrs |}).

Definition applyRewrite (env : Env) (ev : RequestPausedReply) (rw : Rewrite)
  (stage : string) : M unit :=
  if String.eqb stage "response"
  then applyResponseRewrite env ev rw
  else applyRequestRewrite ev rw.

(** ** The pause coordinator *)

Definition registerApproval (id : string) : M (chan Rewrite) :=
  fun m =>
    let ch : chan Rewrite := make_chan 1 in
    (Returned ch, set_approvals (<[id := ch]> (approvals m)) m).

Definition unregisterApproval (id : string) : M unit :=
  fun m => (Returned tt, set_approvals (delete id (approvals m)) m).

Definition applyPauseDefaultAction (ev : RequestPausedReply) (p : Pause)
  (stage : string) : M unit :=
  let ty := da_Type (p_DefaultAction p) in
  if String.eqb ty PauseDefaultActionFulfill then
    applyRespond ev {| rs_Status := da_Status (p_DefaultAction p);
                       rs_Headers := ∅; rs_Body := "" |} stage
  else if String.eqb ty PauseDefaultActionFail then
    applyFail ev {| f_Reason := da_Reason (p_DefaultAction p) |}
  else if String.eqb ty PauseDefaultActionContinueMutated then
    applyContinue ev stage
  else applyContinue ev stage.

Definition handlePauseOverflow (id : string) (ev : RequestPausedReply)
  (p : Pause) (stage : string) : M unit :=
  applyPauseDefaultAction ev p stage ;;
  emit {| ev_Type := "degraded"; ev_Rule := None |} ;;
  unregisterApproval id.

Definition sendPendingItem (id stage : string) (ev : RequestPausedReply)
  (ruleID : option string) (p : Pause) : M bool :=
  m <- get ;;
  match pending m with
  | None => ret true
  | Some pc =>
      let item := {| pi_ID := id; pi_Stage := stage; pi_URL := req_URL ev;
                     pi_Method := req_Method ev;
                     pi_Target := currentTarget m; pi_Rule := ruleID |} in
      match try_send pc item with
      | Returned (true, pc') =>
          (fun m => (Returned true, set_pending (Some pc') m))
      | Returned (false, _) =>
          handlePauseOverflow id ev p stage ;; ret false
      | Blocked => fun m => (Blocked, m)
      | Panicked => fun m => (Panicked, m)
      end
  end.

(** [waitForApproval]: the value received before the timer fires, or nil. *)
Definition waitForApproval (env : Env) (ch : chan Rewrite) (timeoutMS : Z)
  : M (option Rewrite) :=
  ret (approval env).

Definition hasEffectiveMutations (mut : Rewrite) : bool :=
  let filled (o : option (gmap string (option string))) :=
    match o with Some x => negb (size x =? 0)%nat | None => false end in
  match rw_Body mut, rw_URL mut, rw_Method mut with
  | None, None, None =>
      filled (rw_Headers mut) || filled (rw_Query mut) || filled (rw_Cookies mut)
  | _, _, _ => true
  end.

Definition applyApprovalResult (env : Env) (ev : RequestPausedReply)
  (mut : option Rewrite) (p : Pause) (stage : string) : M unit :=
  match mut with
  | Some mut =>
      if hasEffectiveMutations mut then applyRewrite env ev mut stage
      else applyContinue ev stage
  | None => applyPauseDefaultAction ev p stage
  end.

Definition applyPause (env : Env) (ev : RequestPausedReply) (p : Pause)
  (stage : string) (ruleID : option string) : M unit :=
  let id := RequestID ev in
  ch <- registerApproval id ;;
  sent <- sendPendingItem id stage ev ruleID p ;;
  if negb sent then ret tt
  else
    mut <- waitForApproval env ch (p_TimeoutMS p) ;;
    applyApprovalResult env ev mut p stage ;;
    unregisterApproval id.

(** [Approve]: an approval for an unknown id is dropped; the channel has
    one slot and the send never waits. *)
Definition Approve (itemID : string) (mutations : Rewrite) : M unit :=
  fun m =>
    match approvals m !! itemID with
    | None => (Returned tt, m)
    | Some ch =>
        match try_send ch mutations with
        | Returned (_, ch') =>
            (Returned tt, set_approvals (<[itemID := ch']> (approvals m)) m)
        | Blocked => (Blocked, m)
        | Panicked => (Panicked, m)
        end
    end.

  (** ** The handler *)

Definition Qlt_b (x y : Q) : bool := negb (Qle_bool y x).

Definition stage_of (ev : RequestPausedReply) : string :=
  match ResponseStatusCode ev with
  | Some _ => "response"
  | None => "request"
  end.

Definition event (ty : string) (rule : option string) : Event :=
  {| ev_Type := ty; ev_Rule := rule |}.

(** [handle]: one paused event, start to finish.  The per-event context
    only travels into the adapter calls; the sleep of [DelayMS] shows in
    [elapsed_ns]. *)
Definition handle (env : Env) (ev : RequestPausedReply) : M unit :=
  m <- get ;;
  let to := if processTimeoutMS m <=? 0 then 3000 else processTimeoutMS m in
  emit (event "intercepted" None) ;;
  let stg := stage_of ev in
  res <- decide env ev stg ;;
  match res with
  | None => applyContinue ev stg
  | Some res =>
      let a := rules.ActionOf res in
      let rid := Some (rules.RuleID res) in
      if Qlt_b 0 (a_DropRate a) && Qlt_b (rand_Float64 env) (a_DropRate a) then
        applyContinue ev stg ;;
        emit (event "degraded" None)
      else if to * 1000000 <? elapsed_ns env then
        applyContinue ev stg ;;
        emit (event "degraded" None)
      else
        match a_Pause a, a_Fail a, a_Respond a, a_Rewrite a with
        | Some p, _, _, _ => applyPause env ev p stg rid
        | None, Some f, _, _ =>
            applyFail ev f ;;
            emit (event "failed" rid)
        | None, None, Some r, _ =>
            applyRespond ev r stg ;;
            emit (event "fulfilled" rid)
        | None, None, None, Some rw =>
            applyRewrite env ev rw stg ;;
            emit (event "mutated" rid)
        | None, None, None, None => applyContinue ev stg
        end
  end.

(** [degradeAndContinue]: always [ContinueRequest], then the event. *)
Definition degradeAndContinue (ev : RequestPausedReply) (reason : string)
  : M unit :=
  call (ContinueRequest (bare_continue_request (RequestID ev))) ;;
  emit (event "degraded" None).

(** ** The worker pool and the dispatcher *)

(** A queued task is the closure [func() { m.handle(ev) }]; it is kept as
    the event it closes over. *)
Record workerPool := {
  sem : option nat;
  queue : list RequestPausedReply;
  queueCap : nat;
  totalSubmit : Z;
  totalDrop : Z
}.

Definition newWorkerPool (size : Z) : workerPool :=
  if size <=? 0 then
    {| sem := None; queue := []; queueCap := 0; totalSubmit := 0; totalDrop := 0 |}
  else
    {| sem := Some (Z.to_nat size); queue := [];
       queueCap := Z.to_nat (size * 2); totalSubmit := 0; totalDrop := 0 |}.

(** What exists beside the manager: the pool (if any) and the goroutines
    started with [go] that have not run yet. *)
Record Sched := {
  pool : option workerPool;
  spawned : list RequestPausedReply
}.

(** [submit]: the flag, the pool afterwards, and the goroutine started by
    [go fn()] when the pool has no workers. *)
Definition submit (p : workerPool) (fn : RequestPausedReply)
  : bool * workerPool * list RequestPausedReply :=
  match sem p with
  | None => (true, p, [fn])
  | Some _ =>
      let submitted := totalSubmit p + 1 in
      if (length (queue p) <? queueCap p)%nat then
        (true,
         {| sem := sem p; queue := queue p ++ [fn]; queueCap := queueCap p;
            totalSubmit := submitted; totalDrop := totalDrop p |},
         [])
      else
        (false,
         {| sem := sem p; queue := queue p; queueCap := queueCap p;
            totalSubmit := submitted; totalDrop := totalDrop p + 1 |},
         [])
  end.

Definition dispatchPaused (s : Sched) (ev : RequestPausedReply) : M Sched :=
  match pool s with
  | None => ret {| pool := None; spawned := spawned s ++ [ev] |}
  | Some p =>
      let '(submitted, p', started) := submit p ev in
      let s' := {| pool := Some p'; spawned := spawned s ++ started |} in
      if submitted then ret s'
      else degradeAndContinue ev "queue full" ;; ret s'
  end.


End WithLib.

End cdp.

(* ===================================================================== *)
(** * Sample inputs *)
(* ===================================================================== *)

Module samples.
Import rulespec cdp.

(** A library in which every call fails: for runs that reach none. *)
Definition nolib : GoLib :=
  {| regexp_MatchString := fun _ _ => None;
     regexp_ReplaceAllString := fun _ _ _ => None;
     base64_DecodeString := fun _ => None;
     json_Unmarshal := fun _ => None;
     json_Marshal := fun _ => None;
     strconv_formatFloat := fun _ => "";
     url_Query := fun _ => None;
     url_patchQuery := fun _ _ => None |}.

Definition quiet : Env :=
  {| browser_body := fun _ => None; rand_Float64 := 0%Q;
     elapsed_ns := 0; approval := None; worker_done := false |}.

Definition url_prefix (p : string) : Condition :=
  {| c_Type := "url"; c_Mode := "prefix"; c_Pattern := p; c_Values := [];
     c_Key := ""; c_Op := ""; c_Value := ""; c_Pointer := "" |}.

Definition header_equals (k v : string) : Condition :=
  {| c_Type := "header"; c_Mode := ""; c_Pattern := ""; c_Values := [];
     c_Key := k; c_Op := "equals"; c_Value := v; c_Pointer := "" |}.

Definition all_of (cs : list Condition) : Match :=
  {| AllOf := cs; AnyOf := []; NoneOf := [] |}.

Definition no_action : Action :=
  {| a_Rewrite := None; a_Respond := None; a_Fail := None;
     a_DelayMS := 0; a_DropRate := 0%Q; a_Pause := None |}.

Definition pause_action (p : Pause) : Action :=
  {| a_Rewrite := None; a_Respond := None; a_Fail := None;
     a_DelayMS := 0; a_DropRate := 0%Q; a_Pause := Some p |}.

Definition rule (id : string) (prio : Z) (mode : string) (m : Match)
  (a : Action) : Rule :=
  {| r_ID := id; r_Priority := prio; r_Mode := mode; r_Match := m;
     r_Action := a |}.

(** [GET https://a.test/] with two headers, paused at the request stage. *)
Definition get_a : RequestPausedReply :=
  {| RequestID := "req-1"; req_URL := "https://a.test/"; req_Method := "GET";
     req_Headers := <["Host" := "a.test"]> (<["Accept" := "*/*"]> ∅);
     req_PostData := None; ResponseStatusCode := None; ResponseHeaders := [] |}.

(** The same transaction paused at the response stage: 200, an empty JSON
    body announced by its content type. *)
Definition resp_a : RequestPausedReply :=
  {| RequestID := "req-1"; req_URL := "https://a.test/"; req_Method := "GET";
     req_Headers := <["Host" := "a.test"]> ∅;
     req_PostData := None; ResponseStatusCode := Some 200;
     ResponseHeaders := [ {| Name := "Content-Type"; Value := "application/json" |} ] |}.

Definition manager (rs : option RuleSet) (events_cap : nat) : Manager :=
  {| events := make_chan events_cap; pending := Some (make_chan 64);
     engine := rs; approvals := ∅; bodySizeThreshold := 0;
     processTimeoutMS := 0; currentTarget := "t1"; calls := [] |}.

Definition ruleset (rs : list Rule) : RuleSet :=
  {| Version := "1.0"; Rules := rs |}.

(** Two rules in mode aggregate that both match [https://a.test/]. *)
Definition two_aggregate : RuleSet :=
  ruleset [ rule "a" 0 "aggregate" (all_of [url_prefix "https://a.test"]) no_action;
            rule "b" 0 "aggregate" (all_of [url_prefix "https://"]) no_action ].

Definition ctx_a : rules.Ctx :=
  {| rules.URL := "https://a.test/"; rules.Method := "GET";
     rules.Headers := ∅; rules.Query := ∅; rules.Cookies := ∅;
     rules.Body := ""; rules.ContentType := ""; rules.Stage := "request" |}.

(** An events channel of one slot that already holds an event nobody has
    read, and an events channel that was closed. *)
Definition full_events : chan Event :=
  {| ch_closed := false; ch_cap := 1;
     ch_buf := [ {| ev_Type := "intercepted"; ev_Rule := None |} ] |}.



(** A pool of one worker whose queue of two is full. *)
Definition full_pool : workerPool :=
  {| sem := Some 1%nat; queue := [resp_a; resp_a]; queueCap := 2;
     totalSubmit := 2; totalDrop := 0 |}.

Definition pause_3s (ty : string) : Pause :=
  {| p_TimeoutMS := 3000;
     p_DefaultAction := {| da_Type := ty; da_Status := 0; da_Reason := "" |} |}.

(** One rule that pauses every request to [https://a.test]. *)
Definition pause_rules : RuleSet :=
  ruleset [ rule "p" 0 "short_circuit" (all_of [url_prefix "https://a.test"])
              (pause_action (pause_3s "continue_original")) ].

Definition fail_action : Action :=
  {| a_Rewrite := None; a_Respond := None;
     a_Fail := Some {| f_Reason := "Failed" |};
     a_DelayMS := 0; a_DropRate := 0%Q; a_Pause := None |}.

(** A form post that carries [Content-Type: text/html]. *)
Definition post_html : RequestPausedReply :=
  {| RequestID := "req-2"; req_URL := "https://a.test/form"; req_Method := "POST";
     req_Headers := <["Content-Type" := "text/html"]> ∅;
     req_PostData := Some "<p>hi</p>"; ResponseStatusCode := None;
     ResponseHeaders := [] |}.

(** One rule that fails the request when the header named [key] equals
    [text/html]. *)
Definition header_rule (key : string) : RuleSet :=
  ruleset [ rule "h" 0 "short_circuit" (all_of [header_equals key "text/html"])
              fail_action ].

(** The rewrite of scenario S2: set [X-A], remove [Host]. *)
Definition rw_headers : Rewrite :=
  {| rw_URL := None; rw_Method := None;
     rw_Headers := Some (<["X-A" := Some "1"]> (<["Host" := None]> ∅));
     rw_Query := None; rw_Cookies := None; rw_Body := None |}.

(** A JSON response that announces 5,000,000 bytes. *)
Definition resp_big : RequestPausedReply :=
  {| RequestID := "req-3"; req_URL := "https://a.test/big"; req_Method := "GET";
     req_Headers := ∅; req_PostData := None; ResponseStatusCode := Some 200;
     ResponseHeaders :=
       [ {| Name := "Content-Type"; Value := "application/json" |};
         {| Name := "Content-Length"; Value := "5000000" |} ] |}.

Definition patch_op (op path : string) (v : json) : JSONPatchOp :=
  {| op_Op := op; op_Path := path; op_Value := v; op_From := "" |}.







End samples.

(* ===================================================================== *)
(** * Vocabulary of the properties *)
(* ===================================================================== *)

Module props.
Import rulespec cdp.

(** The result [Eval] builds for a chosen rule. *)
Definition result_of (r : Rule) : rules.Result :=
  {| rules.RuleID := r_ID r; rules.ActionOf := r_Action r |}.

(** The rules an evaluation hands back, as a list of identifiers. *)
Definition returned_rules (o : option rules.Result) : list string :=
  match o with
  | Some res => [rules.RuleID res]
  | None => []
  end.

(** Every rule of the set whose match tree holds, in declaration order. *)
Definition matching_rules (lib : GoLib) (ctx : rules.Ctx) (rs : list Rule)
  : list string :=
  map r_ID (List.filter (fun r => rules.matchRule lib ctx (r_Match r)) rs).

(** A channel that is open and can take [n] more values. *)
Definition room {A} (n : nat) (c : chan A) : Prop :=
  ch_closed c = false /\ (length (ch_buf c) + n <= ch_cap c)%nat.

(** The pending queue, when there is one, has not been closed. *)
Definition pending_open (m : Manager) : Prop :=
  match pending m with
  | Some pc => ch_closed pc = false
  | None => True
  end.

(** The terminating calls among [cs], oldest first. *)
Definition terminating_calls (cs : list Call) : list Call :=
  List.filter terminating cs.

Definition event_types (m : Manager) : list string :=
  map ev_Type (ch_buf (events m)).

(** The pending queue, when there is one, is open and not full. *)
Definition pending_has_room (m : Manager) : Prop :=
  match pending m with
  | Some pc => ch_closed pc = false /\ ch_full pc = false
  | None => True
  end.

(** A pause action with the given timeout and default action. *)
Definition pause_with (t : Z) (ty : string) (status : Z) (reason : string)
  : Pause :=
  {| p_TimeoutMS := t;
     p_DefaultAction :=
       {| da_Type := ty; da_Status := status; da_Reason := reason |} |}.

(** The unmodified continue of the stage. *)
Definition plain_continue (ev : RequestPausedReply) (stage : string) : Call :=
  if String.eqb stage "response"
  then ContinueResponse (bare_continue_response (RequestID ev))
  else ContinueRequest (bare_continue_request (RequestID ev)).

(** The one call the default action of a pause stands for.  [fulfill]
    answers with the configured status: at the response stage by continuing
    the response under that status code (the browser's own when it is 0), at
    the request stage by a response of that status with no header and no
    body.  [fail] fails the request.  Every other type is the unmodified
    continue of the stage. *)
Definition default_call (ev : RequestPausedReply) (p : Pause) (stage : string)
  : Call :=
  let da := p_DefaultAction p in
  if String.eqb (da_Type da) "fulfill" then
    if String.eqb stage "response" then
      ContinueResponse
        {| cp_RequestID := RequestID ev;
           cp_ResponseCode := if da_Status da =? 0 then None else Some (da_Status da);
           cp_ResponseHeaders := [] |}
    else
      FulfillRequest
        {| fr_RequestID := RequestID ev; fr_ResponseCode := da_Status da;
           fr_ResponseHeaders := []; fr_Body := "" |}
  else if String.eqb (da_Type da) "fail" then
    FailRequest {| fl_RequestID := RequestID ev; fl_ErrorReason := "Failed" |}
  else plain_continue ev stage.

(** The pending queue is there, open, and holds all it can hold. *)
Definition pending_full (m : Manager) : Prop :=
  match pending m with
  | Some pc => ch_closed pc = false /\ ch_full pc = true
  | None => False
  end.


(** Every key of the map is its own lower-case form. *)
Definition lower_keyed (h : gmap string string) : Prop :=
  forall k, is_Some (h !! k) -> strings.ToLower k = k.


(** Every byte of the string is below 128: the string is ASCII.  On such
    strings the case and white-space functions of package strings work byte
    by byte. *)
Fixpoint ascii_only (s : string) : bool :=
  match s with
  | EmptyString => true
  | String c s' => (nat_of_ascii c <? 128)%nat && ascii_only s'
  end.








(** The content type and length [buildRuleContext] reads at the response
    stage. *)
Definition context_metadata (ev : RequestPausedReply) : string * Z :=
  let '(h, _, ctype) := response_scan (ResponseHeaders ev) in
  (ctype,
   match h !! "content-length" with
   | Some v => lookup_or 0 (parseInt64 v)
   | None => 0
   end).



(** The document [applyJSONPatch] starts from. *)
Definition decoded (lib : GoLib) (doc : string) : option json :=
  if String.eqb doc "" then Some (JObj []) else json_Unmarshal lib doc.




(** The events that wait for a handler: started goroutines and queued tasks. *)
Definition waiting (s : Sched) : list RequestPausedReply :=
  spawned s ++ match pool s with Some p => queue p | None => [] end.

(** [m'] differs from [m] by the adapter calls [d] and by nothing a sender
    or the pending queue can see. *)
Definition only_calls (m m' : Manager) (d : list Call) : Prop :=
  calls m' = calls m ++ d /\ events m' = events m /\ pending m' = pending m.

(** [f] returns after issuing exactly one terminating call, for [id]. *)
Definition answers (id : string) (f : M unit) : Prop :=
  forall m, exists m' d c,
    f m = (Returned tt, m') /\ only_calls m m' d
    /\ terminating_calls d = [c] /\ call_id c = id.

(** The same when [f] also sends up to [n] events and may use the pending
    queue. *)
Definition completes (id : string) (n : nat) (f : M unit) : Prop :=
  forall m, room n (events m) -> pending_open m ->
    exists m' d c,
      f m = (Returned tt, m') /\ calls m' = calls m ++ d
      /\ terminating_calls d = [c] /\ call_id c = id.

End props.

(* ===================================================================== *)
(** * pkg/traffic: the neutral header map *)
(* ===================================================================== *)

Module traffic.
Import strings.

(** [type Header map[string]string]; [None] is the nil map. *)
Definition Header : Type := option (gmap string string).

(** [Get]: the empty string on a nil map and on a missing key. *)
Definition Get (h : Header) (key : string) : string :=
  match h with
  | None => ""
  | Some m => cdp.lookup_or "" (m !! ToLower key)
  end.

(** [Set]: an assignment into a nil map panics. *)
Definition Set_ (h : Header) (key value : string) : cdp.outcome Header :=
  match h with
  | None => cdp.Panicked
  | Some m => cdp.Returned (Some (<[ToLower key := value]> m))
  end.

(** [Del]: [delete] on a nil map does nothing. *)
Definition Del (h : Header) (key : string) : Header :=
  match h with
  | None => None
  | Some m => Some (delete (ToLower key) m)
  end.

Record Request := {
  ID : string;
  URL : string;
  Method : string;
  Headers : Header;
  Body : string;
  ResourceType : string;
  Query : gmap string string;
  Cookies : gmap string string
}.

Record Response := {
  StatusCode : Z;
  rHeaders : Header;
  rBody : string
}.

Definition NewRequest : Request :=
  {| ID := ""; URL := ""; Method := ""; Headers := Some ∅; Body := "";
     ResourceType := ""; Query := ∅; Cookies := ∅ |}.

(** [http.StatusOK] is 200. *)
Definition NewResponse : Response :=
  {| StatusCode := 200; rHeaders := Some ∅; rBody := "" |}.

End traffic.

(* ===================================================================== *)
(** * internal/adapter/cdp: from the paused event to the neutral model *)
(* ===================================================================== *)

Module converter.
Import strings cdp.

(** [for ... { h.Set(k, v) }] on the map [NewRequest]/[NewResponse] made. *)
Definition set_all (kvs : list (string * string)) (m : gmap string string)
  : gmap string string :=
  fold_left (fun m kv => <[ToLower kv.1 := kv.2]> m) kvs m.

(** The query pairs of a URL: what follows the first [?], cut at [&], each
    piece cut at its first [=]; a piece without [=] is skipped. *)
Definition parse_query (url : string) : gmap string string :=
  match Index url "?" with
  | None => ∅
  | Some idx =>
      let queryStr := str_drop (idx + 1) url in
      if String.eqb queryStr "" then ∅
      else
        fold_left
          (fun q pair =>
             match SplitN2 pair "=" with
             | [k; v] => <[ToLower k := v]> q
             | _ => q
             end)
          (Split queryStr "&") ∅
  end.

(** The cookie pairs of the [cookie] header, names lower-cased. *)
Definition parse_cookies (cookieHeader : string) : gmap string string :=
  if String.eqb cookieHeader "" then ∅
  else
    fold_left
      (fun ck pair =>
         match SplitN2 (TrimSpace pair) "=" with
         | [k; v] => <[ToLower k := v]> ck
         | _ => ck
         end)
      (Split cookieHeader ";") ∅.

(** [ToNeutralRequest]; the resource type of the event is passed beside it. *)
Definition ToNeutralRequest (ev : RequestPausedReply) (resourceType : string)
  : traffic.Request :=
  let headers : gmap string string :=
    map_fold (fun k v m => <[ToLower k := v]> m) ∅ (req_Headers ev) in
  {| traffic.ID := RequestID ev;
     traffic.URL := req_URL ev;
     traffic.Method := req_Method ev;
     traffic.Headers := Some headers;
     traffic.Body := "";
     traffic.ResourceType := resourceType;
     traffic.Query := parse_query (req_URL ev);
     traffic.Cookies := parse_cookies (traffic.Get (Some headers) "cookie") |}.

(** [ToNeutralResponse] *)
Definition ToNeutralResponse (ev : RequestPausedReply) (body : string)
  : traffic.Response :=
  {| traffic.StatusCode := lookup_or 200 (ResponseStatusCode ev);
     traffic.rHeaders :=
       Some (set_all (map (fun e => (Name e, Value e)) (ResponseHeaders ev)) ∅);
     traffic.rBody := body |}.

(** [ToHeaderEntries] *)
Definition ToHeaderEntries (h : traffic.Header) : list HeaderEntry :=
  match h with
  | None => []
  | Some m =>
      map (fun kv : string * string => {| Name := kv.1; Value := kv.2 |})
        (map_to_list m)
  end.

End converter.

(* ===================================================================== *)
(** * internal/handler: the revised per-event pipeline *)
(* ===================================================================== *)

Module handler.
Import strings cdp.

(** [executor.RequestMutation] and [executor.ResponseMutation], with the
    fields the handler reads and writes; a nil map is [None]. *)
Record RequestMutation := {
  qm_URL : option string;
  qm_Method : option string;
  qm_Headers : option (gmap string string);
  qm_Query : option (gmap string string);
  qm_Cookies : option (gmap string string);
  qm_RemoveHeaders : list string;
  qm_RemoveQuery : list string;
  qm_RemoveCookies : list string;
  qm_Body : option string;
  qm_Block : option string
}.

Record ResponseMutation := {
  pm_StatusCode : option Z;
  pm_Headers : option (gmap string string);
  pm_RemoveHeaders : list string;
  pm_Body : option string
}.

(** [if src.X != nil { dst.X = src.X }] *)
Definition later {A} (dst src : option A) : option A :=
  match src with
  | Some _ => src
  | None => dst
  end.

(** [for k, v := range src { if dst == nil { dst = make(...) }; dst[k] = v }] *)
Definition merge_map (dst src : option (gmap string string))
  : option (gmap string string) :=
  match src with
  | None => dst
  | Some s =>
      if (size s =? 0)%nat then dst
      else Some (s ∪ lookup_or ∅ dst)
  end.

Definition mergeRequestMutation (dst src : RequestMutation) : RequestMutation :=
  {| qm_URL := later (qm_URL dst) (qm_URL src);
     qm_Method := later (qm_Method dst) (qm_Method src);
     qm_Headers := merge_map (qm_Headers dst) (qm_Headers src);
     qm_Query := merge_map (qm_Query dst) (qm_Query src);
     qm_Cookies := merge_map (qm_Cookies dst) (qm_Cookies src);
     qm_RemoveHeaders := qm_RemoveHeaders dst ++ qm_RemoveHeaders src;
     qm_RemoveQuery := qm_RemoveQuery dst ++ qm_RemoveQuery src;
     qm_RemoveCookies := qm_RemoveCookies dst ++ qm_RemoveCookies src;
     qm_Body := later (qm_Body dst) (qm_Body src);
     qm_Block := qm_Block dst |}.

Definition mergeResponseMutation (dst src : ResponseMutation) : ResponseMutation :=
  {| pm_StatusCode := later (pm_StatusCode dst) (pm_StatusCode src);
     pm_Headers := merge_map (pm_Headers dst) (pm_Headers src);
     pm_RemoveHeaders := pm_RemoveHeaders dst ++ pm_RemoveHeaders src;
     pm_Body := later (pm_Body dst) (pm_Body src) |}.

(** [len(m) > 0] for a nil-able map, [x != nil] for a pointer. *)
Definition filled (o : option (gmap string string)) : bool :=
  match o with
  | Some m => negb (size m =? 0)%nat
  | None => false
  end.

Definition given {A} (o : option A) : bool :=
  match o with Some _ => true | None => false end.

Definition hasRequestMutation (m : RequestMutation) : bool :=
  given (qm_URL m) || given (qm_Method m)
  || filled (qm_Headers m) || filled (qm_Query m) || filled (qm_Cookies m)
  || rules.nonempty (qm_RemoveHeaders m) || rules.nonempty (qm_RemoveQuery m)
  || rules.nonempty (qm_RemoveCookies m)
  || given (qm_Body m).

Definition hasResponseMutation (m : ResponseMutation) : bool :=
  given (pm_StatusCode m) || filled (pm_Headers m)
  || rules.nonempty (pm_RemoveHeaders m) || given (pm_Body m).

(** [domain.RequestInfo], [domain.ResponseInfo], [domain.RuleMatch] and
    [domain.NetworkEvent] as the handler fills them. *)
Record RequestInfo := {
  qi_URL : string;
  qi_Method : string;
  qi_Headers : gmap string string;
  qi_ResourceType : string;
  qi_Body : string
}.

Record ResponseInfo := {
  pi_StatusCode : Z;
  pi_Headers : gmap string string;
  pi_Body : string
}.

Record RuleMatch := {
  rm_RuleID : string;
  rm_RuleName : string;
  rm_Actions : list string
}.

Record NetworkEvent := {
  ne_Target : string;
  ne_IsMatched : bool;
  ne_Request : RequestInfo;
  ne_Response : ResponseInfo;
  ne_FinalResult : string;
  ne_MatchedRules : list RuleMatch
}.

Definition no_response : ResponseInfo :=
  {| pi_StatusCode := 0; pi_Headers := ∅; pi_Body := "" |}.

(** [captureModifiedRequestData]: the original headers, minus the removed
    ones, then the set ones; the URL and the body when the mutation has them. *)
Definition captureModifiedRequestData (original : RequestInfo)
  (mut : RequestMutation) : RequestInfo :=
  let removed :=
    fold_left (fun hs h => delete h hs) (qm_RemoveHeaders mut) (qi_Headers original) in
  {| qi_URL := lookup_or (qi_URL original) (qm_URL mut);
     qi_Method := qi_Method original;
     qi_Headers := lookup_or ∅ (qm_Headers mut) ∪ removed;
     qi_ResourceType := qi_ResourceType original;
     qi_Body := lookup_or (qi_Body original) (qm_Body mut) |}.

(** [captureModifiedResponseData] *)
Definition captureModifiedResponseData (original : ResponseInfo)
  (mut : ResponseMutation) (finalBody : string) : ResponseInfo :=
  let removed :=
    fold_left (fun hs h => delete h hs) (pm_RemoveHeaders mut) (pi_Headers original) in
  {| pi_StatusCode := lookup_or (pi_StatusCode original) (pm_StatusCode mut);
     pi_Headers := lookup_or ∅ (pm_Headers mut) ∪ removed;
     pi_Body := finalBody |}.

(** A call the handler makes on its executor. *)
Inductive ExecCall :=
| ExContinueRequest (id : string)
| ExApplyRequestMutation (id : string) (mut : option RequestMutation)
| ExContinueResponse (id : string)
| ExApplyResponseMutation (id : string) (mut : ResponseMutation)
| ExFetchResponseBody (id : string).

(** The executor calls that complete the paused transaction. *)
Definition completing (c : ExecCall) : bool :=
  match c with
  | ExFetchResponseBody _ => false
  | _ => true
  end.

Record Handler := {
  h_events : option (chan NetworkEvent);
  h_calls : list ExecCall
}.

Definition H (A : Type) : Type := Handler -> outcome A * Handler.

Definition hret {A} (a : A) : H A := fun h => (Returned a, h).

Definition hbind {A B} (c : H A) (k : A -> H B) : H B :=
  fun h =>
    match c h with
    | (Returned a, h') => k a h'
    | (Blocked, h') => (Blocked, h')
    | (Panicked, h') => (Panicked, h')
    end.

Definition exec (c : ExecCall) : H unit :=
  fun h => (Returned tt, {| h_events := h_events h; h_calls := h_calls h ++ [c] |}).

(** The three senders share one shape: nothing on a nil channel, else the
    select with a default branch. *)
Definition send_event (evt : NetworkEvent) : H unit :=
  fun h =>
    match h_events h with
    | None => (Returned tt, h)
    | Some c =>
        match try_send c evt with
        | Returned (_, c') =>
            (Returned tt, {| h_events := Some c'; h_calls := h_calls h |})
        | Blocked => (Blocked, h)
        | Panicked => (Panicked, h)
        end
    end.

Section WithExecutor.
(** The rules of this revision, its engine and its executor are not among
    the sources; the time stamp of an event is left out.  A matched rule is given by its id, its name and its
    actions; an action by its type; the engine by the rules it matches for an
    event and a stage ([None]: no engine set); the executor by the mutation
    it computes for a rule's actions. *)
Context {Action : Type}.
Context (action_Type : Action -> string).
Context (GetRequestBody : RequestPausedReply -> string).
Context (ExecuteRequestActions :
           list Action -> RequestPausedReply -> option RequestMutation).
Context (ExecuteResponseActions :
           list Action -> RequestPausedReply -> string -> option ResponseMutation).

Record MatchedRule := {
  mr_ID : string;
  mr_Name : string;
  mr_Actions : list Action
}.

Context (EvalForStage :
           option (RequestPausedReply -> string -> list MatchedRule)).
Context (resourceType : RequestPausedReply -> string).

Definition buildRuleMatches (matchedRules : list MatchedRule) : list RuleMatch :=
  map (fun mr => {| rm_RuleID := mr_ID mr; rm_RuleName := mr_Name mr;
                    rm_Actions := map action_Type (mr_Actions mr) |})
    matchedRules.

(** The loop of [computeRequestMutation]: a blocking mutation ends it and is
    returned alone, with its rule. *)
Fixpoint request_loop (ev : RequestPausedReply)
  (aggregated : option RequestMutation) (rs : list MatchedRule)
  : option RequestMutation * option MatchedRule :=
  match rs with
  | [] => (aggregated, None)
  | matched :: rest =>
      match mr_Actions matched with
      | [] => request_loop ev aggregated rest
      | actions =>
          match ExecuteRequestActions actions ev with
          | None => request_loop ev aggregated rest
          | Some mut =>
              match qm_Block mut with
              | Some _ => (Some mut, Some matched)
              | None =>
                  request_loop ev
                    (Some match aggregated with
                          | None => mut
                          | Some agg => mergeRequestMutation agg mut
                          end)
                    rest
              end
          end
      end
  end.

Definition computeRequestMutation (ev : RequestPausedReply)
  (matchedRules : list MatchedRule)
  : option RequestMutation * option MatchedRule * list RuleMatch :=
  (request_loop ev None matchedRules, buildRuleMatches matchedRules).

(** The loop of [computeResponseMutation]: each rule sees the body the
    previous ones left. *)
Fixpoint response_loop (ev : RequestPausedReply)
  (aggregated : option ResponseMutation) (currentBody : string)
  (rs : list MatchedRule) : option ResponseMutation * string :=
  match rs with
  | [] => (aggregated, currentBody)
  | matched :: rest =>
      match mr_Actions matched with
      | [] => response_loop ev aggregated currentBody rest
      | actions =>
          match ExecuteResponseActions actions ev currentBody with
          | None => response_loop ev aggregated currentBody rest
          | Some mut =>
              response_loop ev
                (Some match aggregated with
                      | None => mut
                      | Some agg => mergeResponseMutation agg mut
                      end)
                (lookup_or currentBody (pm_Body mut))
                rest
          end
      end
  end.

Definition computeResponseMutation (ev : RequestPausedReply)
  (matchedRules : list MatchedRule) (originalBody : string)
  : option ResponseMutation * list RuleMatch * string :=
  let '(agg, body) := response_loop ev None originalBody matchedRules in
  (agg, buildRuleMatches matchedRules, body).

Definition captureRequestData (ev : RequestPausedReply) : RequestInfo :=
  {| qi_URL := req_URL ev; qi_Method := req_Method ev;
     qi_Headers := req_Headers ev; qi_ResourceType := resourceType ev;
     qi_Body := GetRequestBody ev |}.

Definition response_headers (ev : RequestPausedReply) : gmap string string :=
  fold_left (fun hs e => <[Name e := Value e]> hs) (ResponseHeaders ev) ∅.

Definition unmatched (targetID : string) (q : RequestInfo) (p : ResponseInfo)
  : NetworkEvent :=
  {| ne_Target := targetID; ne_IsMatched := false; ne_Request := q;
     ne_Response := p; ne_FinalResult := ""; ne_MatchedRules := [] |}.

Definition sendUnmatchedRequestEvent (targetID : string)
  (ev : RequestPausedReply) : H unit :=
  send_event (unmatched targetID (captureRequestData ev) no_response).

Definition sendUnmatchedResponseEvent (targetID : string)
  (ev : RequestPausedReply) (statusCode : Z) : H unit :=
  send_event
    (unmatched targetID (captureRequestData ev)
       {| pi_StatusCode := statusCode; pi_Headers := response_headers ev;
          pi_Body := "" |}).

Definition sendMatchedEvent (targetID finalResult : string)
  (matchedRules : list RuleMatch) (q : RequestInfo) (p : ResponseInfo) : H unit :=
  send_event
    {| ne_Target := targetID; ne_IsMatched := true; ne_Request := q;
       ne_Response := p; ne_FinalResult := finalResult;
       ne_MatchedRules := matchedRules |}.

(** [HandleRequest] *)
Definition HandleRequest (targetID : string) (ev : RequestPausedReply) : H unit :=
  match EvalForStage with
  | None =>
      hbind (sendUnmatchedRequestEvent targetID ev) (fun _ =>
      exec (ExContinueRequest (RequestID ev)))
  | Some eval =>
      match eval ev "request" with
      | [] =>
          hbind (sendUnmatchedRequestEvent targetID ev) (fun _ =>
          exec (ExContinueRequest (RequestID ev)))
      | matchedRules =>
          let '(mutation, blockRule, ruleMatches) :=
            computeRequestMutation ev matchedRules in
          let original := captureRequestData ev in
          match blockRule with
          | Some _ =>
              hbind (exec (ExApplyRequestMutation (RequestID ev) mutation)) (fun _ =>
              sendMatchedEvent targetID "blocked" ruleMatches original no_response)
          | None =>
              match mutation with
              | Some mut =>
                  if hasRequestMutation mut then
                    hbind (exec (ExApplyRequestMutation (RequestID ev) mutation)) (fun _ =>
                    sendMatchedEvent targetID "modified" ruleMatches
                      (captureModifiedRequestData original mut) no_response)
                  else
                    hbind (exec (ExContinueRequest (RequestID ev))) (fun _ =>
                    sendMatchedEvent targetID "passed" ruleMatches original no_response)
              | None =>
                  hbind (exec (ExContinueRequest (RequestID ev))) (fun _ =>
                  sendMatchedEvent targetID "passed" ruleMatches original no_response)
              end
          end
      end
  end.

(** [HandleResponse]; [fetched] is the body [FetchResponseBody] hands back
    (empty on an error, which the handler does not look at). *)
Definition HandleResponse (fetched : string) (targetID : string)
  (ev : RequestPausedReply) : H unit :=
  let statusCode := lookup_or 0 (ResponseStatusCode ev) in
  match EvalForStage with
  | None =>
      hbind (sendUnmatchedResponseEvent targetID ev statusCode) (fun _ =>
      exec (ExContinueResponse (RequestID ev)))
  | Some eval =>
      match eval ev "response" with
      | [] =>
          hbind (sendUnmatchedResponseEvent targetID ev statusCode) (fun _ =>
          exec (ExContinueResponse (RequestID ev)))
      | matchedRules =>
          hbind (exec (ExFetchResponseBody (RequestID ev))) (fun _ =>
          let originalReq := captureRequestData ev in
          let originalRes :=
            {| pi_StatusCode := statusCode; pi_Headers := response_headers ev;
               pi_Body := fetched |} in
          let '(mutation, ruleMatches, finalBody) :=
            computeResponseMutation ev matchedRules (pi_Body originalRes) in
          match mutation with
          | Some mut =>
              if hasResponseMutation mut then
                let mut' :=
                  match pm_Body mut with
                  | None =>
                      if String.eqb finalBody "" then mut
                      else {| pm_StatusCode := pm_StatusCode mut;
                              pm_Headers := pm_Headers mut;
                              pm_RemoveHeaders := pm_RemoveHeaders mut;
                              pm_Body := Some finalBody |}
                  | Some _ => mut
                  end in
                hbind (exec (ExApplyResponseMutation (RequestID ev) mut')) (fun _ =>
                sendMatchedEvent targetID "modified" ruleMatches originalReq
                  (captureModifiedResponseData originalRes mut' finalBody))
              else
                hbind (exec (ExContinueResponse (RequestID ev))) (fun _ =>
                sendMatchedEvent targetID "passed" ruleMatches originalReq originalRes)
          | None =>
              hbind (exec (ExContinueResponse (RequestID ev))) (fun _ =>
              sendMatchedEvent targetID "passed" ruleMatches originalReq originalRes)
          end)
      end
  end.

End WithExecutor.

End handler.

(* ===================================================================== *)
(** * Target selection, pool statistics and the vocabulary of the laws *)
(* ===================================================================== *)

Module targets.
Import strings.

(** [devtool.Target], with the fields the manager reads. *)
Record Target := {
  t_ID : string;
  t_Type : string;
  t_URL : string
}.

Definition isUserPageURL (raw : string) : bool :=
  if String.eqb raw "" then false
  else
    let url := ToLower raw in
    if HasPrefix url "http://" || HasPrefix url "https://" then true
    else false.

Definition user_page (t : Target) : bool :=
  String.eqb (t_Type t) "page" && isUserPageURL (t_URL t).

(** [selectAutoTarget]: the scan runs from the last target down to the
    first. *)
Definition selectAutoTarget (targets : list Target) : option Target :=
  match find user_page (rev targets) with
  | Some sel => Some sel
  | None => head targets
  end.

(** [resolveTarget] once the browser has listed its targets. *)
Definition resolveTarget (targets : list Target) (target : string)
  : option Target :=
  match targets with
  | [] => None
  | _ =>
      if negb (String.eqb target "") then
        find (fun t => String.eqb (t_ID t) target) targets
      else selectAutoTarget targets
  end.

End targets.

Module pool.
Import cdp.

(** [stats]: queue length, queue capacity, submitted, dropped. *)
Definition stats (p : workerPool) : Z * Z * Z * Z :=
  match sem p with
  | None => (0, 0, 0, 0)
  | Some _ =>
      (Z.of_nat (length (queue p)), Z.of_nat (queueCap p),
       totalSubmit p, totalDrop p)
  end.

(** A burst of submissions with no worker running in between: the pool
    afterwards and the flags returned, oldest first. *)
Fixpoint submit_all (p : workerPool) (fns : list RequestPausedReply)
  : workerPool * list bool :=
  match fns with
  | [] => (p, [])
  | fn :: rest =>
      let '(ok, p', _) := submit p fn in
      let '(p'', oks) := submit_all p' rest in
      (p'', ok :: oks)
  end.


End pool.

Module laws.
Import strings jsonptr.

(** A path [setRec] can follow to its end: members of objects (a missing
    member is created) and elements of arrays at an index in range. *)
Fixpoint settable (cur : json) (tokens : list string) : bool :=
  match tokens with
  | [] => true
  | t :: rest =>
      match cur with
      | JObj c => settable (cdp.lookup_or (JObj []) (obj_get t c)) rest
      | JArr c =>
          match toIndex t with
          | Some idx =>
              match arr_get idx c with
              | Some x => settable x rest
              | None => false
              end
          | None => false
          end
      | _ => false
      end
  end.

Definition is_scalar (x : json) : bool :=
  match x with
  | JObj _ | JArr _ => false
  | _ => true
  end.

(** The operation stores a scalar: the value of an add or a replace, and
    the value a copy or a move reads at [from], is null, a boolean, a number or
    a string. *)
Definition stores_scalar (v : json) (op : rulespec.JSONPatchOp) : bool :=
  let typ := rulespec.op_Op op in
  if String.eqb typ rulespec.JSONPatchOpAdd
     || String.eqb typ rulespec.JSONPatchOpReplace
  then is_scalar (rulespec.op_Value op)
  else if String.eqb typ rulespec.JSONPatchOpCopy
          || String.eqb typ rulespec.JSONPatchOpMove
  then match cdp.getByPtr v (rulespec.op_From op) with
       | Some src => is_scalar src
       | None => true
       end
  else true.

(** Every operation of the patch stores a scalar, each one looked at on the
    document the previous ones left.  The Go code stores the very map or
    slice it is handed, so that after a copy of an object the two places hold
    one object; as long as only scalars are stored, the document stays the
    tree that [json.Unmarshal] built and [applyOps] is what the code
    computes. *)
Fixpoint stores_scalars (v : json) (ops : list rulespec.JSONPatchOp) : bool :=
  match ops with
  | [] => true
  | op :: rest =>
      stores_scalar v op
      && match cdp.applyOp v op with
         | Some v' => stores_scalars v' rest
         | None => true
         end
  end.

(** The value a rewrite of the headers leaves under the lower-case name [k]:
    what the patch gives for the name that is [k] in lower case (nothing when
    it gives nil) and, when the patch has no such name, the value of the last
    header of the response whose name is [k] in lower case. *)
Definition patched_header (hs : list cdp.HeaderEntry)
  (p : gmap string (option string)) (k : string) : option string :=
  match find (fun kv : string * option string => String.eqb (ToLower kv.1) k)
          (map_to_list p) with
  | Some (_, x) => x
  | None =>
      option_map cdp.Value
        (find (fun e => String.eqb (ToLower (cdp.Name e)) k) (rev hs))
  end.

(** The byte [c] does not occur in [s]. *)
Fixpoint free_of (c : ascii) (s : string) : bool :=
  match s with
  | EmptyString => true
  | String x s' => negb (Ascii.eqb x c) && free_of c s'
  end.

Fixpoint all_digits (s : string) : bool :=
  match s with
  | EmptyString => true
  | String c s' =>
      match digit_of c with Some _ => true | None => false end && all_digits s'
  end.

(** No leading and no trailing white space. *)
Definition trimmed (s : string) : bool := String.eqb (TrimSpace s) s.

(** A step of the manager that leaves the approval table alone. *)
Definition keeps_approvals {A} (f : cdp.M A) : Prop :=
  forall m, cdp.approvals (f m).2 = cdp.approvals m.

(** The event channel of the handler, when there is one, is not closed. *)
Definition events_open (h : handler.Handler) : Prop :=
  match handler.h_events h with
  | Some c => cdp.ch_closed c = false
  | None => True
  end.

(** The paused event an executor call is about. *)
Definition exec_id (c : handler.ExecCall) : string :=
  match c with
  | handler.ExContinueRequest id => id
  | handler.ExApplyRequestMutation id _ => id
  | handler.ExContinueResponse id => id
  | handler.ExApplyResponseMutation id _ => id
  | handler.ExFetchResponseBody id => id
  end.

(** A rule blocks when it has actions and the executor's mutation for them
    carries a block. *)
Definition blocks {Action : Type}
  (ExecuteRequestActions :
     list Action -> cdp.RequestPausedReply -> option handler.RequestMutation)
  (ev : cdp.RequestPausedReply) (r : @handler.MatchedRule Action) : bool :=
  match handler.mr_Actions r with
  | [] => false
  | actions =>
      match ExecuteRequestActions actions ev with
      | Some mut => handler.given (handler.qm_Block mut)
      | None => false
      end
  end.

(** A cookie pair that survives the Cookie header: no [=] in the name, no
    [;] in the name or the value, no white space around the pair. *)
Definition clean_pair (k v : string) : bool :=
  free_of "=" k && free_of ";" k && free_of ";" v && trimmed (k +:+ "=" +:+ v).

End laws.

(* ===================================================================== *)
(** * Sample rules and executors for the revised pipeline *)
(* ===================================================================== *)

Module pipeline_samples.
Import cdp handler.

Definition no_mutation : RequestMutation :=
  {| qm_URL := None; qm_Method := None; qm_Headers := None; qm_Query := None;
     qm_Cookies := None; qm_RemoveHeaders := []; qm_RemoveQuery := [];
     qm_RemoveCookies := []; qm_Body := None; qm_Block := None |}.

Definition set_url : RequestMutation :=
  {| qm_URL := Some "https://b.test/"; qm_Method := None; qm_Headers := None;
     qm_Query := None; qm_Cookies := None; qm_RemoveHeaders := [];
     qm_RemoveQuery := []; qm_RemoveCookies := []; qm_Body := None;
     qm_Block := None |}.

Definition block_it : RequestMutation :=
  {| qm_URL := None; qm_Method := None; qm_Headers := None; qm_Query := None;
     qm_Cookies := None; qm_RemoveHeaders := []; qm_RemoveQuery := [];
     qm_RemoveCookies := []; qm_Body := None; qm_Block := Some "blocked" |}.

Definition set_status : ResponseMutation :=
  {| pm_StatusCode := Some 404; pm_Headers := None; pm_RemoveHeaders := [];
     pm_Body := None |}.

(** An action is given by its type; the executor blocks on [block] and
    sets the URL otherwise. *)
Definition run_request (actions : list string) (ev : RequestPausedReply)
  : option RequestMutation :=
  if existsb (String.eqb "block") actions then Some block_it else Some set_url.

Definition run_response (actions : list string) (ev : RequestPausedReply)
  (body : string) : option ResponseMutation :=
  Some set_status.

Definition matched (id : string) (actions : list string) : @MatchedRule string :=
  {| mr_ID := id; mr_Name := id; mr_Actions := actions |}.

Definition three_rules : list (@MatchedRule string) :=
  [matched "r1" ["setUrl"]; matched "r2" ["block"]; matched "r3" ["setUrl"]].

(** A handler whose event channel can hold nothing. *)
Definition full_handler : Handler :=
  {| h_events := Some (make_chan 0); h_calls := [] |}.

End pipeline_samples.

(* ===================================================================== *)
(** * Facts about package strings *)
(* ===================================================================== *)

Module strings_facts.
Import strings.

Lemma app_cons (c : ascii) (a b : string) :
  String c a +:+ b = String c (a +:+ b).
Proof. reflexivity. Qed.

Lemma app_nil_l (b : string) : "" +:+ b = b.
Proof. reflexivity. Qed.

Lemma length_app (a b : string) :
  String.length (a +:+ b) = (String.length a + String.length b)%nat.
Proof.
  induction a as [|c a IH]; [reflexivity|].
  rewrite app_cons. simpl. now rewrite IH.
Qed.

Lemma app_nil_r (a : string) : a +:+ "" = a.
Proof.
  induction a as [|c a IH]; [reflexivity|]. now rewrite app_cons, IH.
Qed.

Lemma app_assoc (a b c : string) : (a +:+ b) +:+ c = a +:+ (b +:+ c).
Proof.
  induction a as [|x a IH]; [reflexivity|]. now rewrite !app_cons, IH.
Qed.

Lemma take_app (p r : string) : str_take (String.length p) (p +:+ r) = p.
Proof.
  induction p as [|c p IH]; [now destruct r|].
  rewrite app_cons. simpl. now rewrite IH.
Qed.

Lemma drop_app (p r : string) : str_drop (String.length p) (p +:+ r) = r.
Proof.
  induction p as [|c p IH]; [reflexivity|]. rewrite app_cons. exact IH.
Qed.

Lemma take_drop (n : nat) (s : string) : str_take n s +:+ str_drop n s = s.
Proof.
  revert s; induction n as [|n IH]; intros [|c s]; simpl; try reflexivity.
  now rewrite app_cons, IH.
Qed.

Lemma length_drop (n : nat) (s : string) :
  String.length (str_drop n s) = (String.length s - n)%nat.
Proof.
  revert s; induction n as [|n IH]; intros [|c s]; simpl; try reflexivity.
  apply IH.
Qed.

Lemma length_take (n : nat) (s : string) :
  (n <= String.length s)%nat -> String.length (str_take n s) = n.
Proof.
  revert s; induction n as [|n IH]; intros [|c s]; simpl; intros H;
    try reflexivity; try lia.
  rewrite IH; [reflexivity | lia].
Qed.

Lemma HasPrefix_app (p r : string) : HasPrefix (p +:+ r) p = true.
Proof.
  unfold HasPrefix. rewrite take_app, String.eqb_refl, length_app.
  rewrite andb_true_r. apply Nat.leb_le. lia.
Qed.

Lemma HasPrefix_inv (s p : string) :
  HasPrefix s p = true -> s = p +:+ str_drop (String.length p) s.
Proof.
  unfold HasPrefix. intros H. apply andb_true_iff in H as [_ H].
  apply String.eqb_eq in H.
  rewrite <- (take_drop (String.length p) s) at 1. now rewrite H.
Qed.

Lemma HasSuffix_app (r suf : string) : HasSuffix (r +:+ suf) suf = true.
Proof.
  unfold HasSuffix. rewrite length_app.
  replace (String.length r + String.length suf - String.length suf)%nat
    with (String.length r) by lia.
  rewrite drop_app, String.eqb_refl, andb_true_r. apply Nat.leb_le. lia.
Qed.

Lemma HasSuffix_inv (s suf : string) :
  HasSuffix s suf = true ->
  s = str_take (String.length s - String.length suf) s +:+ suf.
Proof.
  unfold HasSuffix. intros H. apply andb_true_iff in H as [_ H].
  apply String.eqb_eq in H.
  rewrite <- (take_drop (String.length s - String.length suf) s) at 1.
  now rewrite H.
Qed.

Lemma TrimPrefix_app (p r : string) : TrimPrefix (p +:+ r) p = r.
Proof. unfold TrimPrefix. now rewrite HasPrefix_app, drop_app. Qed.

Lemma TrimSuffix_app (r suf : string) : TrimSuffix (r +:+ suf) suf = r.
Proof.
  unfold TrimSuffix. rewrite HasSuffix_app, length_app.
  replace (String.length r + String.length suf - String.length suf)%nat
    with (String.length r) by lia.
  apply take_app.
Qed.

Lemma HasPrefix_iff (s p : string) :
  HasPrefix s p = true <-> exists x, s = p +:+ x.
Proof.
  split.
  - intros H. eexists. apply HasPrefix_inv, H.
  - intros [x ->]. apply HasPrefix_app.
Qed.

Lemma HasSuffix_iff (s suf : string) :
  HasSuffix s suf = true <-> exists x, s = x +:+ suf.
Proof.
  split.
  - intros H. eexists. apply HasSuffix_inv, H.
  - intros [x ->]. apply HasSuffix_app.
Qed.


Lemma HasPrefix_short (x : ascii) (p : string) :
  HasPrefix "" (String x p) = false.
Proof. reflexivity. Qed.


End strings_facts.

(* ===================================================================== *)
(** * internal/rules: URL globs *)
(* ===================================================================== *)

Module glob_facts.
Import strings strings_facts rules.

Lemma glob_star (s : string) : glob s "*" = true.
Proof. reflexivity. Qed.

Lemma glob_leading (s rest : string) :
  HasSuffix s rest = true -> glob s ("*" +:+ rest) = true.
Proof.
  intros H. unfold glob.
  destruct (String.eqb ("*" +:+ rest) "*"); [reflexivity|].
  now rewrite HasPrefix_app, TrimPrefix_app, H.
Qed.

Lemma glob_trailing (s rest : string) :
  HasPrefix s rest = true -> glob s (rest +:+ "*") = true.
Proof.
  intros H. unfold glob.
  destruct (String.eqb (rest +:+ "*") "*"); [reflexivity|].
  destruct (HasPrefix (rest +:+ "*") "*" && _); [reflexivity|].
  now rewrite HasSuffix_app, TrimSuffix_app, H.
Qed.

Lemma glob_exact (s : string) : glob s s = true.
Proof.
  unfold glob. repeat (match goal with |- context [if ?b then _ else _] =>
    destruct b end; try reflexivity).
  apply String.eqb_refl.
Qed.

(** C9. [glob] knows three shapes and nothing else: the pattern [*] matches
    every URL; a pattern [*rest] matches the URLs that end with [rest] (one
    leading star is stripped, the remainder is literal); a pattern [rest*]
    matches the URLs that begin with [rest]; apart from these a URL matches
    only the pattern equal to it.  In particular a pattern that neither
    begins nor ends with a star, whatever stars it has inside, matches
    exactly the URL equal to it. *)
Theorem glob_three_shapes (s pattern : string) :
  (glob s pattern = true <->
     pattern = "*"
     \/ (exists rest, pattern = "*" +:+ rest /\ HasSuffix s rest = true)
     \/ (exists rest, pattern = rest +:+ "*" /\ HasPrefix s rest = true)
     \/ s = pattern)
  /\ (HasPrefix pattern "*" = false -> HasSuffix pattern "*" = false ->
      glob s pattern = String.eqb s pattern).
Proof.
  split.
  - split.
    + unfold glob.
      destruct (String.eqb pattern "*") eqn:E1.
      { intros _. left. now apply String.eqb_eq. }
      destruct (HasPrefix pattern "*" && _) eqn:E2.
      { intros _. right; left. apply andb_true_iff in E2 as [Hp Hs].
        exists (str_drop 1 pattern). split.
        - apply (HasPrefix_inv pattern "*" Hp).
        - unfold TrimPrefix in Hs. now rewrite Hp in Hs. }
      destruct (HasSuffix pattern "*" && _) eqn:E3.
      { intros _. right; right; left. apply andb_true_iff in E3 as [Hp Hs].
        exists (str_take (String.length pattern - 1) pattern). split.
        - apply (HasSuffix_inv pattern "*" Hp).
        - unfold TrimSuffix in Hs. now rewrite Hp in Hs. }
      intros H. right; right; right. now apply String.eqb_eq.
    + intros [-> | [(rest & -> & H) | [(rest & -> & H) | ->]]].
      * apply glob_star.
      * now apply glob_leading.
      * now apply glob_trailing.
      * apply glob_exact.
  - intros Hp Hs. unfold glob. rewrite Hp, Hs. simpl.
    destruct (String.eqb pattern "*") eqn:E; [|reflexivity].
    apply String.eqb_eq in E. subst pattern. discriminate Hp.
Qed.

(** The statement at a pattern with a star inside: equality decides. *)
Lemma glob_three_shapes_witness :
  glob "https://a.test/x" "https://*.test/x" = false
  /\ glob "https://*.test/x" "https://*.test/x" = true.
Proof.
  split.
  - rewrite (proj2 (glob_three_shapes "https://a.test/x" "https://*.test/x"));
      reflexivity.
  - rewrite (proj2 (glob_three_shapes "https://*.test/x" "https://*.test/x"));
      reflexivity.
Defined.

End glob_facts.

(* ===================================================================== *)
(** * internal/rules: which rule [Eval] returns *)
(* ===================================================================== *)

Module eval_facts.
Import rulespec rules props samples.

Section Choose.
Context (lib : GoLib) (ctx : Ctx).

Let matches (r : Rule) : bool := matchRule lib ctx (r_Match r).

Lemma choose_keeps (c : Rule) (rs : list Rule) :
  (forall x, In x rs -> matches x = true -> r_Priority x <= r_Priority c) ->
  choose lib ctx (Some c) rs = Some c.
Proof.
  induction rs as [|r rs IH]; intros H; [reflexivity|].
  cbn [choose]. fold (matches r).
  destruct (matches r) eqn:Hm.
  - assert (r_Priority r <= r_Priority c) as Hle by (apply H; [now left | exact Hm]).
    assert ((r_Priority c <? r_Priority r) = false) as -> by (apply Z.ltb_ge; lia).
    apply IH. intros x Hx. apply H. now right.
  - apply IH. intros x Hx. apply H. now right.
Qed.

Lemma choose_some (c : Rule) (rs : list Rule) :
  choose lib ctx (Some c) rs <> None.
Proof.
  revert c. induction rs as [|y rs IH]; intros c; cbn [choose]; [discriminate|].
  destruct (matchRule lib ctx (r_Match y)); [|apply IH].
  destruct (r_Priority c <? r_Priority y); [|apply IH].
  destruct (String.eqb (r_Mode y) "short_circuit"); [discriminate | apply IH].
Qed.

Lemma choose_none (rs : list Rule) :
  choose lib ctx None rs = None <->
  forall x, In x rs -> matches x = false.
Proof.
  induction rs as [|r rs IH]; cbn [choose].
  - split; [intros _ x [] | reflexivity].
  - fold (matches r). destruct (matches r) eqn:Hm.
    + split.
      * destruct (String.eqb (r_Mode r) "short_circuit"); [discriminate|].
        intros H. now apply choose_some in H.
      * intros H. specialize (H r (or_introl eq_refl)). congruence.
    + rewrite IH. split.
      * intros H x [<- | Hx]; [exact Hm | now apply H].
      * intros H x Hx. apply H. now right.
Qed.

Lemma choose_sound (chosen : option Rule) (rs : list Rule) (r : Rule) :
  choose lib ctx chosen rs = Some r ->
  chosen = Some r \/ (In r rs /\ matches r = true).
Proof.
  revert chosen. induction rs as [|y rs IH]; intros chosen H.
  - now left.
  - cbn [choose] in H. fold (matches y) in H.
    destruct (matches y) eqn:Hm.
    + destruct (match chosen with None => true | Some c => r_Priority c <? r_Priority y end).
      * destruct (String.eqb (r_Mode y) "short_circuit").
        -- injection H as <-. right. split; [now left | exact Hm].
        -- destruct (IH _ H) as [E | [Hin Hr]].
           ++ injection E as <-. right. split; [now left | exact Hm].
           ++ right. split; [now right | exact Hr].
      * destruct (IH _ H) as [E | [Hin Hr]]; [now left|].
        right. split; [now right | exact Hr].
    + destruct (IH _ H) as [E | [Hin Hr]]; [now left|].
      right. split; [now right | exact Hr].
Qed.

Lemma choose_first_short_circuit (pre post : list Rule) (r : Rule) :
  (forall x, In x pre -> matches x = false) ->
  matches r = true ->
  r_Mode r = "short_circuit" ->
  choose lib ctx None (pre ++ r :: post) = Some r.
Proof.
  intros Hpre Hm Hmode.
  induction pre as [|y pre IH]; cbn [choose app]; fold (matches r).
  - now rewrite Hm, Hmode.
  - fold (matches y). rewrite (Hpre y (or_introl eq_refl)).
    apply IH. intros x Hx. apply Hpre. now right.
Qed.

Lemma choose_highest (chosen : option Rule) (pre post : list Rule) (r : Rule) :
  match chosen with
  | None => True
  | Some c => r_Priority c < r_Priority r
  end ->
  (forall x, In x pre -> matches x = true ->
             r_Mode x <> "short_circuit" /\ r_Priority x < r_Priority r) ->
  matches r = true ->
  r_Mode r <> "short_circuit" ->
  (forall x, In x post -> matches x = true -> r_Priority x <= r_Priority r) ->
  choose lib ctx chosen (pre ++ r :: post) = Some r.
Proof.
  intros Hc Hpre Hm Hmode Hpost. revert chosen Hc.
  induction pre as [|y pre IH]; intros chosen Hc; cbn [choose app].
  - fold (matches r). rewrite Hm.
    assert (match chosen with None => true | Some c => r_Priority c <? r_Priority r end = true) as ->.
    { destruct chosen; [apply Z.ltb_lt; exact Hc | reflexivity]. }
    apply String.eqb_neq in Hmode. rewrite Hmode.
    now apply choose_keeps.
  - fold (matches y).
    assert (forall x, In x pre -> matches x = true ->
              r_Mode x <> "short_circuit" /\ r_Priority x < r_Priority r) as Hpre'.
    { intros x Hx. apply Hpre. now right. }
    destruct (matches y) eqn:Hy; [|now apply IH].
    destruct (Hpre y (or_introl eq_refl) Hy) as [Hsc Hlt].
    destruct (match chosen with None => true | Some c => r_Priority c <? r_Priority y end);
      [|now apply IH].
    apply String.eqb_neq in Hsc. rewrite Hsc. now apply IH.
Qed.

End Choose.

Lemma Eval_choose (lib : GoLib) (rs : RuleSet) (ctx : Ctx) :
  Eval lib rs ctx = option_map result_of (choose lib ctx None (Rules rs)).
Proof. unfold Eval. now destruct (Rules rs). Qed.

(** C2, as stated, fails: two rules in mode aggregate both match the
    request, and the evaluation hands back the first of them only. *)
Lemma Eval_aggregate_returns_one_rule :
  Forall (fun r => r_Mode r = "aggregate") (Rules two_aggregate)
  /\ matching_rules nolib ctx_a (Rules two_aggregate) = ["a"; "b"]
  /\ returned_rules (Eval nolib two_aggregate ctx_a) = ["a"]
  /\ returned_rules (Eval nolib two_aggregate ctx_a)
     <> matching_rules nolib ctx_a (Rules two_aggregate).
Proof.
  split; [repeat constructor|].
  split; [reflexivity|]. split; [reflexivity|]. discriminate.
Qed.

(** C2, amended.  [Eval] walks the rules in declaration order and returns at
    most one rule, which always is a matching one, and none exactly when no
    rule matches.  When the first matching rule is in mode short_circuit it
    is returned and the walk ends there.  When the matching rules are all in
    mode aggregate, the one returned is the first in declaration order among
    those of highest priority; the others are not returned. *)
Theorem Eval_returns_one_rule (lib : GoLib) (rs : RuleSet) (ctx : Ctx) :
  (forall res, Eval lib rs ctx = Some res ->
     exists r, In r (Rules rs) /\ matchRule lib ctx (r_Match r) = true
               /\ res = result_of r)
  /\ (Eval lib rs ctx = None <->
      forall r, In r (Rules rs) -> matchRule lib ctx (r_Match r) = false)
  /\ (forall pre r post,
        Rules rs = pre ++ r :: post ->
        (forall x, In x pre -> matchRule lib ctx (r_Match x) = false) ->
        matchRule lib ctx (r_Match r) = true ->
        r_Mode r = "short_circuit" ->
        Eval lib rs ctx = Some (result_of r))
  /\ (forall pre r post,
        Rules rs = pre ++ r :: post ->
        (forall x, In x (Rules rs) -> matchRule lib ctx (r_Match x) = true ->
                   r_Mode x = "aggregate") ->
        matchRule lib ctx (r_Match r) = true ->
        (forall x, In x pre -> matchRule lib ctx (r_Match x) = true ->
                   r_Priority x < r_Priority r) ->
        (forall x, In x post -> matchRule lib ctx (r_Match x) = true ->
                   r_Priority x <= r_Priority r) ->
        returned_rules (Eval lib rs ctx) = [r_ID r]).
Proof.
  rewrite Eval_choose. repeat split.
  - intros res H. destruct (choose lib ctx None (Rules rs)) as [r|] eqn:E; [|discriminate].
    injection H as <-. exists r.
    destruct (choose_sound lib ctx _ _ _ E) as [? | [Hin Hm]]; [discriminate|].
    now repeat split.
  - intros H. destruct (choose lib ctx None (Rules rs)) eqn:E; [discriminate|].
    now apply choose_none.
  - intros H. apply choose_none in H. now rewrite H.
  - intros pre r post -> Hpre Hm Hmode.
    now rewrite choose_first_short_circuit.
  - intros pre r post E Hagg Hm Hpre Hpost. rewrite E.
    assert (forall x, In x (pre ++ r :: post) ->
              matchRule lib ctx (r_Match x) = true -> r_Mode x <> "short_circuit") as Hns.
    { intros x Hx Hmx. rewrite <- E in Hx. rewrite (Hagg x Hx Hmx). discriminate. }
    rewrite (choose_highest lib ctx None pre post r); try easy.
    + intros x Hx Hmx. split; [|now apply Hpre].
      apply Hns; [|exact Hmx]. apply in_or_app. now left.
    + apply Hns; [|exact Hm]. apply in_or_app. right. now left.
Qed.

(** The amended statement at the two aggregate rules: rule [a] alone. *)
Lemma Eval_returns_one_rule_witness :
  returned_rules (Eval nolib two_aggregate ctx_a) = ["a"].
Proof.
  refine (proj2 (proj2 (proj2 (Eval_returns_one_rule nolib two_aggregate ctx_a)))
            [] (rule "a" 0 "aggregate" (all_of [url_prefix "https://a.test"]) no_action)
            [rule "b" 0 "aggregate" (all_of [url_prefix "https://"]) no_action]
            eq_refl _ eq_refl _ _).
  - intros x [<- | [<- | []]] _; reflexivity.
  - intros x [].
  - intros x [<- | []] _. simpl. lia.
Defined.

End eval_facts.


(* ===================================================================== *)
(** * internal/cdp: every path of the handler answers the browser once *)
(* ===================================================================== *)

Module handler_facts.
Import rulespec cdp props.



Lemma call_answers (id : string) (c : Call) :
  terminating c = true -> call_id c = id -> answers id (call c).
Proof.
  intros Ht Hid m. exists (set_calls (calls m ++ [c]) m), [c], c.
  repeat split; [|exact Hid]. unfold terminating_calls. simpl. now rewrite Ht.
Qed.

Lemma applyContinue_answers (ev : RequestPausedReply) (stage : string) :
  answers (RequestID ev) (applyContinue ev stage).
Proof.
  unfold applyContinue. destruct (String.eqb stage "response").
  - apply call_answers; reflexivity.
  - apply call_answers; reflexivity.
Qed.

Lemma applyFail_answers (ev : RequestPausedReply) (f : Fail) :
  answers (RequestID ev) (applyFail ev f).
Proof. apply call_answers; reflexivity. Qed.

Lemma applyRespond_answers (ev : RequestPausedReply) (r : Respond) (stage : string) :
  answers (RequestID ev) (applyRespond ev r stage).
Proof.
  unfold applyRespond. destruct (_ && _).
  - apply call_answers; reflexivity.
  - apply call_answers; reflexivity.
Qed.

Lemma applyRequestRewrite_answers (lib : GoLib) (ev : RequestPausedReply)
  (rw : Rewrite) : answers (RequestID ev) (applyRequestRewrite lib ev rw).
Proof. apply call_answers; reflexivity. Qed.

Lemma applyResponseRewrite_answers (lib : GoLib) (env : Env)
  (ev : RequestPausedReply) (rw : Rewrite) :
  answers (RequestID ev) (applyResponseRewrite lib env ev rw).
Proof.
  unfold applyResponseRewrite.
  destruct (rw_Body rw) as [bp|].
  2:{ destruct (rw_Headers rw).
      - apply call_answers; reflexivity.
      - apply call_answers; reflexivity. }
  destruct (extractResponseMetadata ev) as [ctype clen].
  intros m. unfold bind, get.
  destruct (shouldGetBody ctype clen (bodySizeThreshold m)); cbn [negb].
  2:{ apply call_answers; reflexivity. }
  unfold fetchResponseBody, bind, call, ret.
  set (m1 := set_calls (calls m ++ [GetResponseBody (RequestID ev)]) m).
  assert (forall c, terminating c = true -> call_id c = RequestID ev ->
            exists m' d c',
              (Returned tt, set_calls (calls m1 ++ [c]) m1) = (Returned tt, m')
              /\ only_calls m m' d /\ terminating_calls d = [c']
              /\ call_id c' = RequestID ev) as Hlast.
  { intros c Ht Hid. exists (set_calls (calls m1 ++ [c]) m1),
      [GetResponseBody (RequestID ev); c], c.
    repeat split; [|unfold terminating_calls; simpl; now rewrite Ht | exact Hid].
    unfold m1. simpl. now rewrite <- app_assoc. }
  destruct (match browser_body env (RequestID ev) with
            | Some rb => decode_body lib rb | None => None end) as [bodyText|].
  2:{ apply Hlast; reflexivity. }
  destruct (applyBodyPatch lib bodyText (Some bp)) as [newBody|].
  2:{ apply Hlast; reflexivity. }
  destruct (String.eqb newBody ""); apply Hlast; reflexivity.
Qed.

Lemma applyRewrite_answers (lib : GoLib) (env : Env) (ev : RequestPausedReply)
  (rw : Rewrite) (stage : string) :
  answers (RequestID ev) (applyRewrite lib env ev rw stage).
Proof.
  unfold applyRewrite. destruct (String.eqb stage "response").
  - apply applyResponseRewrite_answers.
  - apply applyRequestRewrite_answers.
Qed.

Lemma applyPauseDefaultAction_answers (ev : RequestPausedReply) (p : Pause)
  (stage : string) : answers (RequestID ev) (applyPauseDefaultAction ev p stage).
Proof.
  unfold applyPauseDefaultAction.
  destruct (String.eqb _ PauseDefaultActionFulfill); [apply applyRespond_answers|].
  destruct (String.eqb _ PauseDefaultActionFail); [apply applyFail_answers|].
  destruct (String.eqb _ PauseDefaultActionContinueMutated);
    apply applyContinue_answers.
Qed.

Lemma applyApprovalResult_answers (lib : GoLib) (env : Env)
  (ev : RequestPausedReply) (mut : option Rewrite) (p : Pause) (stage : string) :
  answers (RequestID ev) (applyApprovalResult lib env ev mut p stage).
Proof.
  unfold applyApprovalResult. destruct mut as [mut|].
  - destruct (hasEffectiveMutations mut);
      [apply applyRewrite_answers | apply applyContinue_answers].
  - apply applyPauseDefaultAction_answers.
Qed.


Lemma send_room {A} (n : nat) (c : chan A) (x : A) :
  room (S n) c -> send c x = Returned (ch_push c x) /\ room n (ch_push c x).
Proof.
  intros [Ho Hr]. unfold send, ch_full. rewrite Ho.
  assert ((ch_cap c <=? length (ch_buf c))%nat = false) as ->
    by (apply Nat.leb_gt; lia).
  split; [reflexivity|]. split; [exact Ho|].
  simpl. rewrite length_app. simpl. lia.
Qed.

Lemma emit_room (n : nat) (e : Event) (m : Manager) :
  room (S n) (events m) ->
  emit e m = (Returned tt, set_events (ch_push (events m) e) m)
  /\ room n (events (set_events (ch_push (events m) e) m)).
Proof.
  intros H. destruct (send_room n _ e H) as [Hs Hr].
  unfold emit. rewrite Hs. now split.
Qed.





Lemma applyPause_completes (lib : GoLib) (env : Env) (ev : RequestPausedReply)
  (p : Pause) (stage : string) (ruleID : option string) :
  completes (RequestID ev) 1 (applyPause lib env ev p stage ruleID).
Proof.
  intros m Hroom Hpend.
  unfold applyPause, bind at 1, registerApproval.
  set (m1 := set_approvals _ m).
  unfold bind at 1, sendPendingItem, bind at 1, get.
  unfold pending_open in Hpend. change (pending m1) with (pending m).
  destruct (pending m) as [pc|] eqn:Ep.
  - unfold try_send. rewrite Hpend.
    destruct (ch_full pc).
    + (* the queue is full: the default action, at once *)
      unfold handlePauseOverflow.
      destruct (applyPauseDefaultAction_answers ev p stage m1)
        as (m2 & d & c & E & (Hc & He & Hp) & Ht & Hid).
      unfold bind. rewrite E.
      assert (room 1 (events m2)) as Hroom2 by (now rewrite He).
      destruct (emit_room 0 {| ev_Type := "degraded"; ev_Rule := None |} m2 Hroom2)
        as [-> _].
      unfold unregisterApproval, ret. cbn [negb].
      eexists _, d, c. split; [reflexivity|]. now repeat split.
    + cbn [negb]. unfold waitForApproval, ret, bind.
      set (m2 := set_pending _ m1).
      destruct (applyApprovalResult_answers lib env ev (approval env) p stage m2)
        as (m3 & d & c & E & (Hc & He & Hp) & Ht & Hid).
      rewrite E. unfold unregisterApproval.
      eexists _, d, c. split; [reflexivity|]. now repeat split.
  - unfold ret. cbn [negb]. unfold waitForApproval, ret, bind.
    destruct (applyApprovalResult_answers lib env ev (approval env) p stage m1)
      as (m3 & d & c & E & (Hc & He & Hp) & Ht & Hid).
    rewrite E. unfold unregisterApproval.
    eexists _, d, c. split; [reflexivity|]. now repeat split.
Qed.




(** Scenario S7 in small: one worker, its queue of two full; the dispatcher
    continues the request itself, reports [degraded] and queues nothing. *)
Lemma dispatch_on_full_queue_degrades :
  let s := {| pool := Some samples.full_pool; spawned := [] |} in
  let r := dispatchPaused s samples.get_a (samples.manager None 8) in
  queueCap (newWorkerPool 1) = 2%nat
  /\ calls r.2 = [ContinueRequest (bare_continue_request "req-1")]
  /\ event_types r.2 = ["degraded"]
  /\ match r.1 with
     | Returned s' => waiting s' = waiting s
     | _ => False
     end.
Proof. cbv zeta. repeat split. Qed.




End handler_facts.

(* ===================================================================== *)
(** * internal/cdp: sending events *)
(* ===================================================================== *)

Module events_facts.
Import rulespec cdp props.

(** The select with a default branch never waits on an open channel. *)
Lemma sendEvent_never_waits (evt : Event) (m : Manager) :
  ch_closed (events m) = false ->
  exists m', sendEvent evt m = (Returned tt, m')
             /\ calls m' = calls m
             /\ (ch_full (events m) = true -> events m' = events m).
Proof.
  intros Ho. unfold sendEvent, try_send. rewrite Ho.
  destruct (ch_full (events m)); eexists; repeat split; try discriminate.
Qed.

Lemma sendMatchedEvent_never_waits (c : chan Event) (evt : Event) :
  ch_closed c = false ->
  exists c', sendMatchedEvent (Some c) evt = Returned (Some c')
             /\ (ch_full c = true -> c' = c).
Proof.
  intros Ho. unfold sendMatchedEvent, try_send. rewrite Ho.
  destruct (ch_full c); eexists; split; try reflexivity; try discriminate.
Qed.

(** The handler of the manager sends with a plain [m.events <- evt]: on a full
    channel it waits at its first statement, before any adapter call. *)
Lemma handle_waits (lib : GoLib) (env : Env) (ev : RequestPausedReply)
  (m : Manager) :
  ch_closed (events m) = false -> ch_full (events m) = true ->
  handle lib env ev m = (Blocked, m).
Proof.
  intros Ho Hf. unfold handle, bind, get, emit, send. now rewrite Ho, Hf.
Qed.

(** C7 at a saturated events channel (one slot, one unread event): the
    non-blocking [sendEvent] drops the event and returns, but [handle] waits
    on its first send with nothing sent to the browser, and
    [degradeAndContinue] waits after its call. *)
Theorem handle_waits_on_full_events :
  let m := set_events samples.full_events (samples.manager None 8) in
  sendEvent (event "intercepted" None) m = (Returned tt, m)
  /\ handle samples.nolib samples.quiet samples.get_a m = (Blocked, m)
  /\ calls m = []
  /\ (degradeAndContinue samples.get_a "queue full" m).1 = Blocked.
Proof. repeat split. Qed.

End events_facts.

(* ===================================================================== *)
(** * internal/cdp: the pause coordinator *)
(* ===================================================================== *)

Module pause_facts.
Import rulespec cdp props handler_facts.

Lemma applyContinue_call (ev : RequestPausedReply) (stage : string) (m : Manager) :
  applyContinue ev stage m
  = (Returned tt, set_calls (calls m ++ [plain_continue ev stage]) m).
Proof.
  unfold applyContinue, plain_continue.
  now destruct (String.eqb stage "response").
Qed.

(** An approval for an id that is not registered changes nothing. *)
Lemma Approve_unknown_is_dropped (itemID : string) (mutations : Rewrite)
  (m : Manager) :
  approvals m !! itemID = None -> Approve itemID mutations m = (Returned tt, m).
Proof. intros H. unfold Approve. now rewrite H. Qed.

(** C10. Whatever the event, the stage, the timeout and the other fields of
    the default action: the default action continue_mutated does what
    continue_original does, namely the unmodified continue of the stage
    ([ContinueResponse] at the response stage, [ContinueRequest] otherwise,
    carrying the request id only); and a whole pause run is the same for the
    two. *)
Theorem continue_mutated_is_continue_original (lib : GoLib) (env : Env)
  (ev : RequestPausedReply) (stage : string) (ruleID : option string)
  (t status status' : Z) (reason reason' : string) (m : Manager) :
  let mutated := pause_with t PauseDefaultActionContinueMutated status reason in
  let original := pause_with t PauseDefaultActionContinueOriginal status' reason' in
  applyPauseDefaultAction ev mutated stage m
    = applyPauseDefaultAction ev original stage m
  /\ applyPauseDefaultAction ev mutated stage m
     = (Returned tt, set_calls (calls m ++ [plain_continue ev stage]) m)
  /\ applyPause lib env ev mutated stage ruleID m
     = applyPause lib env ev original stage ruleID m.
Proof.
  cbv zeta. split; [reflexivity|]. split; [apply applyContinue_call | reflexivity].
Qed.

(** C5, as stated, fails on the event: a request enters a pause of 3000 ms,
    no approval arrives, the default action continues the request, and the
    events channel then holds [intercepted] and nothing else. *)
Lemma pause_timeout_emits_no_timeout_event :
  let m := samples.manager (Some samples.pause_rules) 8 in
  let r := handle samples.nolib samples.quiet samples.get_a m in
  approval samples.quiet = None
  /\ r.1 = Returned tt
  /\ calls r.2 = [ContinueRequest (bare_continue_request "req-1")]
  /\ event_types r.2 = ["intercepted"]
  /\ ~ In "timeout" (event_types r.2).
Proof.
  cbv zeta. repeat split. vm_compute. intros [H | []]. discriminate H.
Qed.

Lemma applyPauseDefaultAction_call (ev : RequestPausedReply) (p : Pause)
  (stage : string) (m : Manager) :
  applyPauseDefaultAction ev p stage m
  = (Returned tt, set_calls (calls m ++ [default_call ev p stage]) m).
Proof.
  unfold applyPauseDefaultAction, default_call.
  change PauseDefaultActionFulfill with "fulfill".
  change PauseDefaultActionFail with "fail".
  destruct (String.eqb (da_Type (p_DefaultAction p)) "fulfill").
  - unfold applyRespond. cbn [rs_Body rs_Status rs_Headers].
    destruct (String.eqb stage "response"); reflexivity.
  - destruct (String.eqb (da_Type (p_DefaultAction p)) "fail"); [reflexivity|].
    destruct (String.eqb _ PauseDefaultActionContinueMutated);
      apply applyContinue_call.
Qed.

(** C5, amended.  A transaction enters a pause action and no approval
    arrives.  When the pending queue takes the item (or there is no pending
    queue), the run returns after the timer having made the one call of the
    configured default action, and the pause sends no event: the events
    channel is as it was.  When the pending queue is full, the same call is
    made at once, without waiting for the timer, and [degraded] is sent (the
    events channel having room for it).  The pending queue is not closed.  The
    call is pinned: [fulfill] answers with the configured status ([FulfillRequest]
    with no body at the request stage, [ContinueResponse] under that status at
    the response stage), [fail] fails the request with the reason [Failed]
    whatever reason is configured, and continue_original, continue_mutated and
    every type that is none of the four give the unmodified continue. *)
Theorem pause_timeout_applies_default (lib : GoLib) (env : Env)
  (ev : RequestPausedReply) (p : Pause) (stage : string)
  (ruleID : option string) (m : Manager) :
  approval env = None ->
  (pending_has_room m ->
   exists m',
     applyPause lib env ev p stage ruleID m = (Returned tt, m')
     /\ calls m' = calls m ++ [default_call ev p stage]
     /\ events m' = events m)
  /\ (pending_full m -> room 1 (events m) ->
      exists m',
        applyPause lib env ev p stage ruleID m = (Returned tt, m')
        /\ calls m' = calls m ++ [default_call ev p stage]
        /\ events m' = ch_push (events m) (event "degraded" None))
  /\ (da_Type (p_DefaultAction p) = "fulfill" ->
      default_call ev p stage
      = if String.eqb stage "response" then
          ContinueResponse
            {| cp_RequestID := RequestID ev;
               cp_ResponseCode :=
                 if da_Status (p_DefaultAction p) =? 0 then None
                 else Some (da_Status (p_DefaultAction p));
               cp_ResponseHeaders := [] |}
        else
          FulfillRequest
            {| fr_RequestID := RequestID ev;
               fr_ResponseCode := da_Status (p_DefaultAction p);
               fr_ResponseHeaders := []; fr_Body := "" |})
  /\ (da_Type (p_DefaultAction p) = "fail" ->
      default_call ev p stage
      = FailRequest {| fl_RequestID := RequestID ev; fl_ErrorReason := "Failed" |})
  /\ (da_Type (p_DefaultAction p) <> "fulfill" ->
      da_Type (p_DefaultAction p) <> "fail" ->
      default_call ev p stage = plain_continue ev stage).
Proof.
  intros Hnone.
  assert (forall m2, calls m2 = calls m -> events m2 = events m ->
            exists m',
              (mut <- waitForApproval env (make_chan 1) (p_TimeoutMS p) ;;
               applyApprovalResult lib env ev mut p stage ;;
               unregisterApproval (RequestID ev)) m2 = (Returned tt, m')
              /\ calls m' = calls m ++ [default_call ev p stage]
              /\ events m' = events m) as Hrest.
  { intros m2 Hc2 He2. unfold waitForApproval, ret, bind. rewrite Hnone.
    unfold applyApprovalResult. rewrite applyPauseDefaultAction_call.
    unfold unregisterApproval. eexists. split; [reflexivity|].
    cbn [calls events set_calls set_approvals]. now rewrite Hc2, He2. }
  split; [|split; [|split; [|split]]].
  - intros Hpend.
    unfold applyPause, bind at 1, registerApproval.
    set (m1 := set_approvals _ m).
    unfold bind at 1, sendPendingItem, bind at 1, get.
    unfold pending_has_room in Hpend. change (pending m1) with (pending m).
    destruct (pending m) as [pc|] eqn:Ep.
    + destruct Hpend as [Ho Hf]. unfold try_send. rewrite Ho, Hf. cbn [negb].
      apply Hrest; reflexivity.
    + unfold ret. cbn [negb]. apply Hrest; reflexivity.
  - intros Hfull Hroom.
    unfold applyPause, bind at 1, registerApproval.
    set (m1 := set_approvals _ m).
    unfold bind at 1, sendPendingItem, bind at 1, get.
    unfold pending_full in Hfull. change (pending m1) with (pending m).
    destruct (pending m) as [pc|] eqn:Ep; [|contradiction].
    destruct Hfull as [Ho Hf]. unfold try_send. rewrite Ho, Hf.
    unfold handlePauseOverflow, bind. rewrite applyPauseDefaultAction_call.
    set (m2 := set_calls _ m1).
    assert (room 1 (events m2)) as Hroom2 by exact Hroom.
    destruct (emit_room 0 {| ev_Type := "degraded"; ev_Rule := None |} m2 Hroom2)
      as [-> _].
    unfold unregisterApproval, ret. cbn [negb]. eexists. split; [reflexivity|].
    split; reflexivity.
  - intros H. unfold default_call. now rewrite H.
  - intros H. unfold default_call. now rewrite H.
  - intros H1 H2. unfold default_call.
    apply String.eqb_neq in H1, H2. now rewrite H1, H2.
Qed.

(** The amended statement at a pause of 3000 ms whose default action is
    [fail], at the request stage, the pending queue having room: the request
    is failed and no event is sent. *)
Lemma pause_timeout_applies_default_witness :
  exists m',
    applyPause samples.nolib samples.quiet samples.get_a
      (samples.pause_3s "fail") "request" (Some "p") (samples.manager None 8)
    = (Returned tt, m')
    /\ calls m'
       = [FailRequest {| fl_RequestID := "req-1"; fl_ErrorReason := "Failed" |}]
    /\ events m' = events (samples.manager None 8).
Proof.
  refine (proj1 (pause_timeout_applies_default samples.nolib samples.quiet
                   samples.get_a (samples.pause_3s "fail") "request" (Some "p")
                   (samples.manager None 8) eq_refl) _).
  split; reflexivity.
Defined.

End pause_facts.


(* ===================================================================== *)
(** * Header keys in conditions, header maps in rewrites *)
(* ===================================================================== *)

Module header_facts.
Import rulespec cdp props.

Lemma lower_byte_idem (c : ascii) :
  strings.lower_byte (strings.lower_byte c) = strings.lower_byte c.
Proof. destruct c as [[] [] [] [] [] [] [] []]; reflexivity. Qed.

Lemma ToLower_idem (s : string) : strings.ToLower (strings.ToLower s) = strings.ToLower s.
Proof.
  induction s as [|c s IH]; [reflexivity|].
  cbn [strings.ToLower]. now rewrite lower_byte_idem, IH.
Qed.

Lemma lower_keyed_insert (h : gmap string string) (k v : string) :
  lower_keyed h -> lower_keyed (<[strings.ToLower k := v]> h).
Proof.
  intros Hh k' Hk'. destruct (String.eqb_spec (strings.ToLower k) k') as [<- | Hne].
  - apply ToLower_idem.
  - apply Hh. now rewrite lookup_insert_ne in Hk'.
Qed.

Lemma lower_keys_lower (h : gmap string string) : lower_keyed (lower_keys h).
Proof.
  unfold lower_keys.
  apply (map_fold_weak_ind (fun acc _ => lower_keyed acc)).
  - intros k [v Hv]. now rewrite lookup_empty in Hv.
  - intros i x m r _ Hr. now apply lower_keyed_insert.
Qed.

Lemma response_scan_lower (hs : list HeaderEntry) :
  lower_keyed (response_scan hs).1.1.
Proof.
  unfold response_scan.
  assert (forall acc : gmap string string * gmap string string * string,
            lower_keyed acc.1.1 ->
            lower_keyed
              (fold_left
                 (fun '(h, ck, ctype) e =>
                    let k := Name e in
                    let v := Value e in
                    let h := <[strings.ToLower k := v]> h in
                    let ck :=
                      if strings.EqualFold k "set-cookie" then
                        let '(name, val) := parseSetCookie v in
                        if String.eqb name "" then ck
                        else <[strings.ToLower name := val]> ck
                      else ck in
                    let ctype :=
                      if strings.EqualFold k "content-type" then v else ctype in
                    (h, ck, ctype))
                 hs acc).1.1) as H.
  { induction hs as [|e hs IH]; intros [[h ck] ctype] Hacc; [exact Hacc|].
    cbn [fold_left]. apply IH. cbn [fst]. now apply lower_keyed_insert. }
  apply H. intros k [v Hv]. cbn [fst] in Hv. now rewrite lookup_empty in Hv.
Qed.

Lemma buildRuleContext_lower_keyed (lib : GoLib) (env : Env)
  (ev : RequestPausedReply) (stage : string) (m m' : Manager) (ctx : rules.Ctx) :
  buildRuleContext lib env ev stage m = (Returned ctx, m') ->
  lower_keyed (rules.Headers ctx).
Proof.
  unfold buildRuleContext. destruct (String.eqb stage "response").
  - pose proof (response_scan_lower (ResponseHeaders ev)) as Hl.
    destruct (response_scan (ResponseHeaders ev)) as [[h ck] ctype].
    unfold bind, get, call, ret.
    destruct (shouldGetBody _ _ _); intros [= <- _]; exact Hl.
  - unfold ret. intros [= <- _]. apply lower_keys_lower.
Qed.

(** Whatever the event: a header condition whose key has a capital letter is
    false in the context the manager builds. *)
Lemma header_condition_with_capital_is_false (lib : GoLib) (env : Env)
  (ev : RequestPausedReply) (stage : string) (m m' : Manager) (ctx : rules.Ctx)
  (c : Condition) :
  buildRuleContext lib env ev stage m = (Returned ctx, m') ->
  c_Type c = "header" -> strings.ToLower (c_Key c) <> c_Key c ->
  rules.cond lib ctx c = false.
Proof.
  intros Hb Hty Hkey. apply buildRuleContext_lower_keyed in Hb.
  unfold rules.cond. rewrite Hty. cbn.
  destruct (rules.Headers ctx !! c_Key c) as [v|] eqn:E; [|reflexivity].
  exfalso. apply Hkey, Hb. now exists v.
Qed.

(** C3 at [Content-Type: text/html]: the context stores the header under the
    lower-case key, the condition key is looked up as written.  The rule
    keyed [content-type] fails the request; the same rule keyed
    [Content-Type] does not match and the request is continued. *)
Theorem header_condition_key_is_case_sensitive :
  (exists ctx m',
     buildRuleContext samples.nolib samples.quiet samples.post_html "request"
       (samples.manager None 8) = (Returned ctx, m')
     /\ rules.Headers ctx !! "content-type" = Some "text/html"
     /\ rules.cond samples.nolib ctx
          (samples.header_equals "content-type" "text/html") = true
     /\ rules.cond samples.nolib ctx
          (samples.header_equals "Content-Type" "text/html") = false)
  /\ calls (handle samples.nolib samples.quiet samples.post_html
              (samples.manager (Some (samples.header_rule "content-type")) 8)).2
     = [FailRequest {| fl_RequestID := "req-2"; fl_ErrorReason := "Failed" |}]
  /\ calls (handle samples.nolib samples.quiet samples.post_html
              (samples.manager (Some (samples.header_rule "Content-Type")) 8)).2
     = [ContinueRequest (bare_continue_request "req-2")].
Proof.
  split; [|split; vm_compute; reflexivity].
  eexists _, _. split; [reflexivity|]. repeat split; vm_compute; reflexivity.
Qed.

(** Without a cookie patch the headers of a request rewrite are the non-null
    entries of the rewrite's own map, and only those. *)
Lemma buildRequestHeaders_entries (rw : Rewrite) (ev : RequestPausedReply)
  (e : HeaderEntry) :
  rw_Cookies rw = None ->
  (In e (buildRequestHeaders rw ev) <->
   exists hs, rw_Headers rw = Some hs /\ hs !! Name e = Some (Some (Value e))).
Proof.
  intros Hc. unfold buildRequestHeaders. rewrite Hc.
  destruct (rw_Headers rw) as [hs|].
  - rewrite <- list_elem_of_In, list_elem_of_omap. split.
    + intros [[k [v|]] [Hin Hv]]; [|discriminate].
      injection Hv as <-. apply elem_of_map_to_list in Hin. now exists hs.
    + intros (hs' & [= <-] & Hl). exists (Name e, Some (Value e)). split.
      * now apply elem_of_map_to_list.
      * now destruct e.
  - split; [intros [] | intros (? & ? & _); discriminate].
Qed.

(** C6 at scenario S2 ([X-A] set, [Host] removed) on a request that carries
    [Host] and [Accept]: the call carries [X-A] alone; [Accept], which the map
    does not name, is not among the headers sent. *)
Theorem request_rewrite_sends_only_patch_headers :
  req_Headers samples.get_a !! "Accept" = Some "*/*"
  /\ buildRequestHeaders samples.rw_headers samples.get_a
     = [ {| Name := "X-A"; Value := "1" |} ]
  /\ calls (applyRequestRewrite samples.nolib samples.get_a samples.rw_headers
              (samples.manager None 8)).2
     = [ContinueRequest
          {| cr_RequestID := "req-1"; cr_URL := None; cr_Method := None;
             cr_PostData := None;
             cr_Headers := [ {| Name := "X-A"; Value := "1" |} ] |}]
  /\ ~ In "Accept" (map Name (buildRequestHeaders samples.rw_headers samples.get_a)).
Proof.
  repeat split; try (vm_compute; reflexivity).
  vm_compute. intros [H | []]. discriminate H.
Qed.

(** The response path does patch the current headers: with the same map the
    headers sent are the response's own, lower-cased, with [x-a] set. *)
Lemma response_rewrite_keeps_headers :
  calls (applyResponseRewrite samples.nolib samples.quiet samples.resp_a
           samples.rw_headers (samples.manager None 8)).2
  = [ContinueResponse
       {| cp_RequestID := "req-1"; cp_ResponseCode := None;
          cp_ResponseHeaders :=
            toHeaderEntries
              (<["x-a" := "1"]> (<["content-type" := "application/json"]> ∅)) |}].
Proof. vm_compute. reflexivity. Qed.

End header_facts.

(* ===================================================================== *)
(** * internal/cdp: when the response body is fetched *)
(* ===================================================================== *)

Module body_gate_facts.
Import strings rulespec cdp props handler_facts.





















End body_gate_facts.


(* ===================================================================== *)
(** * Objects, arrays and pointers *)

Module json_lemmas.
Import strings jsonptr rulespec cdp props laws.

Lemma obj_get_set_eq (k : string) (v : json) (c : list (string * json)) :
  obj_get k (obj_set k v c) = Some v.
Proof.
  induction c as [|[k' v'] c IH]; cbn [obj_set obj_get].
  - now rewrite String.eqb_refl.
  - destruct (String.eqb k' k) eqn:E; cbn [obj_get]; rewrite E; [reflexivity | exact IH].
Qed.

Lemma obj_get_set_ne (k k' : string) (v : json) (c : list (string * json)) :
  k <> k' -> obj_get k' (obj_set k v c) = obj_get k' c.
Proof.
  intros Hne. induction c as [|[k0 v0] c IH]; cbn [obj_set obj_get].
  - apply String.eqb_neq in Hne. now rewrite Hne.
  - destruct (String.eqb k0 k) eqn:E; cbn [obj_get].
    + apply String.eqb_eq in E. subst k0.
      apply String.eqb_neq in Hne. now rewrite Hne.
    + now rewrite IH.
Qed.

Lemma obj_get_delete_eq (k : string) (c : list (string * json)) :
  obj_get k (obj_delete k c) = None.
Proof.
  induction c as [|[k' v'] c IH]; cbn [obj_delete obj_get]; [reflexivity|].
  destruct (String.eqb k' k) eqn:E; [exact IH|].
  cbn [obj_get]. now rewrite E.
Qed.

Lemma obj_delete_absent (k : string) (c : list (string * json)) :
  obj_get k c = None -> obj_delete k c = c.
Proof.
  induction c as [|[k' v'] c IH]; cbn [obj_delete obj_get]; [reflexivity|].
  destruct (String.eqb k' k); [discriminate|].
  intros H. now rewrite IH.
Qed.

Lemma obj_set_same (k : string) (v : json) (c : list (string * json)) :
  obj_get k c = Some v -> obj_set k v c = c.
Proof.
  induction c as [|[k' v'] c IH]; cbn [obj_set obj_get]; [discriminate|].
  destruct (String.eqb k' k).
  - now intros [= ->].
  - intros H. now rewrite IH.
Qed.

Lemma arr_get_lookup (idx : Z) (c : list json) (x : json) :
  arr_get idx c = Some x ->
  c !! Z.to_nat idx = Some x /\ (Z.to_nat idx < length c)%nat /\ 0 <= idx.
Proof.
  unfold arr_get. intros H.
  destruct (idx <? 0) eqn:E1; [discriminate|].
  destruct (Z.of_nat (length c) <=? idx) eqn:E2; [discriminate|].
  cbn in H. apply Z.ltb_ge in E1. apply Z.leb_gt in E2.
  split; [exact H|]. split; lia.
Qed.

Lemma arr_get_insert_eq (idx : Z) (c : list json) (x y : json) :
  arr_get idx c = Some x ->
  arr_get idx (<[Z.to_nat idx := y]> c) = Some y.
Proof.
  intros H. destruct (arr_get_lookup _ _ _ H) as (_ & Hlt & Hpos).
  unfold arr_get in *. rewrite length_insert.
  destruct ((idx <? 0) || (Z.of_nat (length c) <=? idx)); [discriminate|].
  now apply list_lookup_insert_eq.
Qed.

Lemma arr_get_insert_ne (i j : Z) (c : list json) (x y : json) :
  arr_get i c = Some x -> i <> j ->
  arr_get j (<[Z.to_nat i := y]> c) = arr_get j c.
Proof.
  intros H Hne. destruct (arr_get_lookup _ _ _ H) as (_ & Hlt & Hpos).
  unfold arr_get. rewrite length_insert.
  destruct (j <? 0) eqn:E1; [reflexivity|].
  destruct (Z.of_nat (length c) <=? j); [reflexivity|]. cbn.
  apply Z.ltb_ge in E1. apply list_lookup_insert_ne. lia.
Qed.

(** [removeRec] at a path that does not resolve gives the document back
    unchanged. *)
Lemma remove_missing_rec (cur : json) (tokens : list string) :
  walk cur tokens = None -> removeRec cur tokens = cur.
Proof.
  revert cur. induction tokens as [|t rest IH]; intros cur H; [discriminate|].
  destruct cur as [| b | q | s | c | c]; try reflexivity.
  - cbn [walk] in H. cbn [removeRec].
    destruct (toIndex t) as [idx|] eqn:Et; [|reflexivity].
    destruct (arr_get idx c) as [x|] eqn:Ex; [|reflexivity].
    destruct rest as [|r rest']; [discriminate|].
    rewrite (IH x H).
    destruct (arr_get_lookup _ _ _ Ex) as (Hl & _ & _).
    now rewrite list_insert_id.
  - cbn [walk] in H. cbn [removeRec].
    destruct rest as [|r rest'].
    + destruct (obj_get t c) as [v|] eqn:Ev; [discriminate|].
      now rewrite obj_delete_absent.
    + destruct (obj_get t c) as [v|] eqn:Ev; [|reflexivity].
      rewrite (IH v H). now rewrite obj_set_same.
Qed.






















End json_lemmas.

(* ===================================================================== *)
(** * JSON Patch *)

Module jsonpatch_facts.
Import rulespec jsonptr cdp props laws handler_facts json_lemmas.




(** [setRec] on an array element: [add] at index 0 of [[1, 2]] overwrites the
    element (the array keeps its length), and an index equal to the length
    leaves the array as it is. *)
Lemma add_into_array_overwrites :
  applyOps (JArr [JNum 1; JNum 2]) [samples.patch_op "add" "/0" (JNum 9)]
  = Some (JArr [JNum 9; JNum 2])
  /\ applyOps (JArr [JNum 1; JNum 2]) [samples.patch_op "add" "/2" (JNum 9)]
     = Some (JArr [JNum 1; JNum 2]).
Proof. split; reflexivity. Qed.














End jsonpatch_facts.


(* ===================================================================== *)
(** * internal/cdp: what [setRec], [removeRec] and [getByPtr] do to a path *)
(* ===================================================================== *)

Module pointer_laws.
Import rulespec jsonptr cdp laws json_lemmas.

(** After [setRec] has written [val] at a path it can follow, the same path
    reads [val] back. *)
Theorem set_then_get (cur : json) (tokens : list string) (val : json) :
  settable cur tokens = true ->
  walk (setRec cur tokens val) tokens = Some val.
Proof.
  revert cur. induction tokens as [|t rest IH]; intros cur H; [reflexivity|].
  destruct cur as [| b | q | s | c | c]; cbn [settable] in H; try discriminate.
  - destruct (toIndex t) as [idx|] eqn:Et; [|discriminate].
    destruct (arr_get idx c) as [x|] eqn:Ex; [|discriminate].
    cbn [setRec]. rewrite Et, Ex. cbn [walk]. rewrite Et.
    rewrite (arr_get_insert_eq _ _ _ _ Ex). now apply IH.
  - cbn [setRec walk]. rewrite obj_get_set_eq. now apply IH.
Qed.

Lemma set_then_get_witness :
  walk (setRec (JObj [("a", JArr [JObj []; JNum 2])]) ["a"; "0"; "b"] (JStr "x"))
    ["a"; "0"; "b"] = Some (JStr "x").
Proof.
  apply (set_then_get (JObj [("a", JArr [JObj []; JNum 2])]) ["a"; "0"; "b"] (JStr "x")).
  reflexivity.
Defined.

(** In a document that was decoded from text and then changed by operations
    that store scalars only, [setRec] under one member of an object, or one
    element of an array, leaves every path through another member or element
    as it was.  In an array two tokens name the same element when they read
    as the same number.  (The code writes in place: once a copy has put one
    object at two places, a write under one of them is read under the other;
    such documents are left out by [stores_scalars].) *)
Theorem set_leaves_siblings (lib : GoLib) (doc : string) (v0 cur : json)
  (pre : list JSONPatchOp) (t t' : string) (rest rest' : list string)
  (val : json) :
  props.decoded lib doc = Some v0 ->
  stores_scalars v0 pre = true ->
  applyOps v0 pre = Some cur ->
  match cur with
  | JObj _ => t <> t'
  | JArr _ => toIndex t <> toIndex t'
  | _ => False
  end ->
  walk (setRec cur (t :: rest) val) (t' :: rest') = walk cur (t' :: rest').
Proof.
  intros _ _ _.
  destruct cur as [| b | q | s | c | c]; intros H; try contradiction.
  - cbn [setRec]. destruct (toIndex t) as [i|] eqn:Et; [|reflexivity].
    destruct (arr_get i c) as [x|] eqn:Ex; [|reflexivity].
    cbn [walk]. destruct (toIndex t') as [j|] eqn:Et'; [|reflexivity].
    rewrite (arr_get_insert_ne i j c x); [reflexivity | exact Ex | congruence].
  - cbn [setRec walk]. now rewrite obj_get_set_ne.
Qed.

Lemma set_leaves_siblings_witness :
  walk (setRec (JObj [("a", JNum 1); ("b", JNum 2)]) ["a"] (JNum 9)) ["b"]
  = walk (JObj [("a", JNum 1); ("b", JNum 2)]) ["b"].
Proof.
  apply (set_leaves_siblings samples.nolib "" (JObj [])
           (JObj [("a", JNum 1); ("b", JNum 2)])
           [samples.patch_op "add" "/a" (JNum 1);
            samples.patch_op "add" "/b" (JNum 2)]
           "a" "b" [] [] (JNum 9));
    [reflexivity | reflexivity | reflexivity | discriminate].
Defined.

(** A path that runs one token past a scalar writes over the scalar: adding
    [/a/b] when [/a] holds a number, a string, a boolean or null has the effect
    of adding [/a]. *)
Theorem set_below_scalar_replaces_it (cur : json) (parent : list string)
  (t : string) (s val : json) :
  walk cur parent = Some s -> is_scalar s = true ->
  setRec cur (parent ++ [t]) val = setRec cur parent val.
Proof.
  revert cur. induction parent as [|p ps IH]; intros cur Hw Hs.
  - injection Hw as ->. now destruct s.
  - destruct cur as [| b | q | s0 | c | c]; cbn [walk] in Hw; try discriminate.
    + destruct (toIndex p) as [idx|] eqn:Et; [|discriminate].
      destruct (arr_get idx c) as [x|] eqn:Ex; [|discriminate].
      cbn [app setRec]. rewrite Et, Ex. now rewrite (IH x).
    + destruct (obj_get p c) as [child|] eqn:Ec; [|discriminate].
      cbn [app setRec]. rewrite Ec. cbn [lookup_or]. now rewrite (IH child).
Qed.

Lemma set_below_scalar_replaces_it_witness :
  setRec (JObj [("a", JNum 1)]) (["a"] ++ ["b"]) (JStr "x")
  = setRec (JObj [("a", JNum 1)]) ["a"] (JStr "x").
Proof.
  apply (set_below_scalar_replaces_it (JObj [("a", JNum 1)]) ["a"] "b" (JNum 1) (JStr "x"));
    reflexivity.
Defined.

(** [setRec] never changes how many elements an array has: an index in range
    is written over, any other token (a number out of range, the [-] of
    RFC 6902, a name) leaves the array as it is. *)
Theorem set_keeps_array_length (c : list json) (t : string)
  (rest : list string) (val : json) :
  exists c', setRec (JArr c) (t :: rest) val = JArr c'
             /\ length c' = length c
             /\ (match toIndex t with
                 | Some idx => arr_get idx c = None
                 | None => True
                 end -> c' = c).
Proof.
  cbn [setRec]. destruct (toIndex t) as [idx|] eqn:Et.
  - destruct (arr_get idx c) as [x|] eqn:Ex.
    + eexists. split; [reflexivity|]. split; [apply length_insert | discriminate].
    + exists c. now repeat split.
  - exists c. now repeat split.
Qed.

(** The JSON Patch operation [remove] at a path that does not resolve is
    not an error: the operation succeeds and the document is unchanged. *)
Theorem remove_missing_path_is_ignored (v : json) (op : JSONPatchOp) :
  op_Op op = JSONPatchOpRemove ->
  getByPtr v (op_Path op) = None ->
  applyOp v op = Some v.
Proof.
  intros Hop Hget. unfold applyOp. rewrite Hop. cbn.
  unfold removeByPtr. unfold getByPtr in Hget.
  destruct (negb (well_rooted (op_Path op))); [reflexivity|].
  now rewrite remove_missing_rec.
Qed.

Lemma remove_missing_path_is_ignored_witness :
  applyOp (JObj [("a", JNum 1)]) (samples.patch_op "remove" "/b/c" JNull)
  = Some (JObj [("a", JNum 1)]).
Proof.
  apply (remove_missing_path_is_ignored (JObj [("a", JNum 1)])
           (samples.patch_op "remove" "/b/c" JNull)); reflexivity.
Defined.

(** After [removeRec] has removed a member of an object, the member's path
    no longer resolves. *)
Theorem remove_then_get (cur : json) (parent : list string) (t : string)
  (c : list (string * json)) :
  walk cur parent = Some (JObj c) ->
  walk (removeRec cur (parent ++ [t])) (parent ++ [t]) = None.
Proof.
  revert cur. induction parent as [|p ps IH]; intros cur Hw.
  - injection Hw as ->. cbn [app removeRec walk]. now rewrite obj_get_delete_eq.
  - assert (exists r rs, ps ++ [t] = r :: rs) as (r & rs & Hrs)
      by (destruct ps; cbn; eauto).
    destruct cur as [| b | q | s0 | c0 | c0]; cbn [walk] in Hw; try discriminate.
    + destruct (toIndex p) as [idx|] eqn:Et; [|discriminate].
      destruct (arr_get idx c0) as [x|] eqn:Ex; [|discriminate].
      cbn [app removeRec]. rewrite Et, Ex, Hrs, <- Hrs.
      cbn [walk]. rewrite Et, (arr_get_insert_eq _ _ _ _ Ex). now apply IH.
    + destruct (obj_get p c0) as [child|] eqn:Ec; [|discriminate].
      cbn [app removeRec]. rewrite Hrs, Ec, <- Hrs.
      cbn [walk]. rewrite obj_get_set_eq. now apply IH.
Qed.

Lemma remove_then_get_witness :
  walk (removeRec (JObj [("a", JObj [("b", JNum 1)])]) (["a"] ++ ["b"]))
    (["a"] ++ ["b"]) = None.
Proof.
  apply (remove_then_get (JObj [("a", JObj [("b", JNum 1)])]) ["a"] "b" [("b", JNum 1)]).
  reflexivity.
Defined.

End pointer_laws.


(* ===================================================================== *)
(** * internal/cdp: the parsers of cookies and of Content-Length *)
(* ===================================================================== *)

Module parse_laws.
Import strings cdp laws strings_facts.

Lemma HasPrefix_char (x c : ascii) (s : string) :
  HasPrefix (String x s) (String c "") = Ascii.eqb x c.
Proof. unfold HasPrefix. cbn. now destruct (Ascii.eqb x c). Qed.

Lemma Index_char_app (a : string) (c : ascii) (b : string) :
  free_of c a = true ->
  Index (a +:+ String c b) (String c "") = Some (String.length a).
Proof.
  induction a as [|x a IH]; intros H.
  - rewrite app_nil_l. cbn [Index]. now rewrite HasPrefix_char, Ascii.eqb_refl.
  - cbn [free_of] in H. apply andb_true_iff in H as [Hx Ha].
    rewrite app_cons. cbn [Index]. rewrite HasPrefix_char.
    apply negb_true_iff in Hx. rewrite Hx, (IH Ha). reflexivity.
Qed.

Lemma Index_char_none (a : string) (c : ascii) :
  free_of c a = true -> Index a (String c "") = None.
Proof.
  induction a as [|x a IH]; intros H; [reflexivity|].
  cbn [free_of] in H. apply andb_true_iff in H as [Hx Ha].
  cbn [Index]. rewrite HasPrefix_char.
  apply negb_true_iff in Hx. now rewrite Hx, (IH Ha).
Qed.

Lemma drop_app_char (a : string) (c : ascii) (b : string) :
  str_drop (String.length a + 1) (a +:+ String c b) = b.
Proof.
  induction a as [|x a IH]; [reflexivity|].
  rewrite app_cons. cbn [String.length Nat.add str_drop]. exact IH.
Qed.

Lemma SplitN2_char (a : string) (c : ascii) (b : string) :
  free_of c a = true ->
  SplitN2 (a +:+ String c b) (String c "") = [a; b].
Proof.
  intros H. unfold SplitN2. rewrite (Index_char_app _ _ _ H).
  cbn [String.length]. now rewrite take_app, drop_app_char.
Qed.

Lemma SplitN2_none (a : string) (c : ascii) :
  free_of c a = true -> SplitN2 a (String c "") = [a].
Proof. intros H. unfold SplitN2. now rewrite Index_char_none. Qed.

Lemma free_of_app (c : ascii) (a b : string) :
  free_of c (a +:+ b) = free_of c a && free_of c b.
Proof.
  induction a as [|x a IH]; [now rewrite app_nil_l|].
  rewrite app_cons. cbn [free_of]. now rewrite IH, andb_assoc.
Qed.

Lemma trimmed_TrimSpace (s : string) : trimmed s = true -> TrimSpace s = s.
Proof. unfold trimmed. apply String.eqb_eq. Qed.

(** Of a Set-Cookie header that begins with an ASCII pair [name=value], with
    no white space before the name or after the value, no [=] or [;] in the
    name and no [;] in the value, [parseSetCookie] returns the name up to the
    first [=] and the value up to the first [;]: what follows the [;] is
    dropped, and a [=] inside the value stays in the value. *)
Theorem parseSetCookie_first_pair (name value attrs : string) :
  props.ascii_only (name +:+ "=" +:+ value) = true ->
  free_of "=" name = true -> free_of ";" name = true ->
  free_of ";" value = true ->
  trimmed (name +:+ "=" +:+ value) = true ->
  parseSetCookie (name +:+ "=" +:+ value +:+ ";" +:+ attrs) = (name, value)
  /\ parseSetCookie (name +:+ "=" +:+ value) = (name, value).
Proof.
  intros _ Heq Hsc Hv Htr.
  assert (free_of ";" (name +:+ "=" +:+ value) = true) as Hfree.
  { rewrite !free_of_app, Hsc, Hv. reflexivity. }
  unfold parseSetCookie. split.
  - replace (name +:+ "=" +:+ value +:+ ";" +:+ attrs)
      with ((name +:+ "=" +:+ value) +:+ String ";" attrs)
      by (now rewrite !app_assoc).
    rewrite (SplitN2_char _ _ _ Hfree), (trimmed_TrimSpace _ Htr).
    change (name +:+ "=" +:+ value) with (name +:+ String "=" value).
    now rewrite (SplitN2_char _ _ _ Heq).
  - rewrite (SplitN2_none _ _ Hfree), (trimmed_TrimSpace _ Htr).
    change (name +:+ "=" +:+ value) with (name +:+ String "=" value).
    now rewrite (SplitN2_char _ _ _ Heq).
Qed.

Lemma parseSetCookie_first_pair_witness :
  parseSetCookie ("sid" +:+ "=" +:+ "YWJj==" +:+ ";" +:+ " Path=/; HttpOnly")
  = ("sid", "YWJj==")
  /\ parseSetCookie ("sid" +:+ "=" +:+ "YWJj==") = ("sid", "YWJj==").
Proof.
  apply (parseSetCookie_first_pair "sid" "YWJj==" " Path=/; HttpOnly"); reflexivity.
Defined.

Lemma parseInt64_loop_digits (s : string) (n : Z) :
  is_Some (parseInt64_loop n s) <-> all_digits s = true.
Proof.
  revert n. induction s as [|c s IH]; intros n; cbn [parseInt64_loop all_digits].
  - split; [reflexivity | eauto].
  - destruct (jsonptr.digit_of c) as [d|]; cbn [andb].
    + apply IH.
    + split; [intros [x Hx]; discriminate | discriminate].
Qed.

(** [parseInt64] reads a run of decimal digits and nothing else: a sign, a
    blank or any other byte makes it fail, and the empty string is read
    as 0. *)
Lemma parseInt64_accepts_digits_only (s : string) :
  (is_Some (parseInt64 s) <-> all_digits s = true)
  /\ parseInt64 "" = Some 0.
Proof.
  split; [|reflexivity].
  rewrite <- (parseInt64_loop_digits s 0). unfold parseInt64.
  destruct (parseInt64_loop 0 s); split; intros [x Hx]; try discriminate; eauto.
Qed.

Lemma EqualFold_lower (k name : string) :
  ToLower name = name ->
  EqualFold k name = true <-> ToLower k = name.
Proof.
  intros Hl. unfold EqualFold. rewrite Hl. apply String.eqb_eq.
Qed.

(** The state the two readers of the response headers are in after the same
    entries: the headers kept by [buildRuleContext] against the pair kept by
    [extractResponseMetadata]. *)
Lemma metadata_scan (hs : list HeaderEntry)
  (h ck : gmap string string) (ctype : string) (clen : Z) :
  let '(h', _, ctype') :=
    fold_left
      (fun '(h, ck, ctype) e =>
         let k := Name e in
         let v := Value e in
         let h := <[ToLower k := v]> h in
         let ck :=
           if EqualFold k "set-cookie" then
             let '(name, val) := parseSetCookie v in
             if String.eqb name "" then ck else <[ToLower name := val]> ck
           else ck in
         let ctype := if EqualFold k "content-type" then v else ctype in
         (h, ck, ctype))
      hs (h, ck, ctype) in
  let '(ctype'', clen'') :=
    fold_left
      (fun '(ctype, clen) e =>
         let ctype := if EqualFold (Name e) "content-type" then Value e else ctype in
         let clen :=
           if EqualFold (Name e) "content-length" then
             match parseInt64 (Value e) with Some n => n | None => clen end
           else clen in
         (ctype, clen))
      hs (ctype, clen) in
  ctype'' = ctype'
  /\ ((forall e, In e hs -> EqualFold (Name e) "content-length" = true ->
                 all_digits (Value e) = true) ->
      clen = match h !! "content-length" with
             | Some v => lookup_or 0 (parseInt64 v)
             | None => 0
             end ->
      clen'' = match h' !! "content-length" with
               | Some v => lookup_or 0 (parseInt64 v)
               | None => 0
               end).
Proof.
  revert h ck ctype clen.
  induction hs as [|e hs IH]; intros h ck ctype clen; cbn [fold_left].
  - split; [reflexivity | intros _ H; exact H].
  - match goal with
    | |- context [fold_left _ hs (?a, ?b, ?c)] =>
        specialize (IH a b c
          (if EqualFold (Name e) "content-length"
           then match parseInt64 (Value e) with Some n => n | None => clen end
           else clen))
    end.
    cbv zeta in IH |- *.
    destruct (fold_left _ hs (_, _, _)) as [[h' ck'] ctype'].
    destruct (fold_left _ hs (_, _)) as [ctype'' clen''].
    destruct IH as [IH1 IH2]. split; [exact IH1|].
    intros Hall Hc. apply IH2.
    + intros x Hx. apply Hall. now right.
    + destruct (EqualFold (Name e) "content-length") eqn:E.
      * apply (EqualFold_lower _ "content-length" eq_refl) in E as Hk.
        rewrite Hk, lookup_insert_eq.
        specialize (Hall e (or_introl eq_refl) E).
        apply (parseInt64_accepts_digits_only (Value e)) in Hall as [n Hn].
        now rewrite Hn.
      * rewrite lookup_insert_ne; [exact Hc|].
        intros Hk. apply (EqualFold_lower _ "content-length" eq_refl) in Hk.
        congruence.
Qed.

(** The response headers are read twice, by [buildRuleContext] for the
    match and by [extractResponseMetadata] for the rewrite.  The two always
    find the same content type; they find the same content length when every
    Content-Length header is a run of digits. *)
Theorem metadata_readers_agree (ev : RequestPausedReply) :
  (extractResponseMetadata ev).1 = (props.context_metadata ev).1
  /\ ((forall e, In e (ResponseHeaders ev) ->
                 EqualFold (Name e) "content-length" = true ->
                 all_digits (Value e) = true) ->
      extractResponseMetadata ev = props.context_metadata ev).
Proof.
  unfold extractResponseMetadata, props.context_metadata, response_scan.
  pose proof (metadata_scan (ResponseHeaders ev) ∅ ∅ "" 0) as H.
  cbv zeta in H.
  destruct (fold_left _ (ResponseHeaders ev) (_, _, _)) as [[h' ck'] ctype'].
  destruct (fold_left _ (ResponseHeaders ev) (_, _)) as [ctype'' clen''].
  destruct H as [H1 H2]. cbn [fst]. split; [exact H1|].
  intros Hall. rewrite H1. f_equal. apply H2; [exact Hall | reflexivity].
Qed.

Lemma metadata_readers_agree_witness :
  extractResponseMetadata samples.resp_big = props.context_metadata samples.resp_big.
Proof.
  apply (proj2 (metadata_readers_agree samples.resp_big)).
  intros e He Hk. vm_compute in He.
  repeat (destruct He as [<- | He]; [first [reflexivity | discriminate Hk]|]).
  destruct He.
Defined.

End parse_laws.


(* ===================================================================== *)
(** * internal/cdp: header patches *)
(* ===================================================================== *)

Module header_patch_laws.
Import strings rulespec cdp laws props.

Lemma patch_step_other (i : string) (x : option string)
  (r : gmap string string) (j : string) :
  ToLower i <> j ->
  match x with
  | None => delete (ToLower i) r
  | Some y => <[ToLower i := y]> r
  end !! j = r !! j.
Proof.
  intros Hne. destruct x; [now apply lookup_insert_ne | now apply lookup_delete_ne].
Qed.

Lemma patch_step_same (i : string) (x : option string) (r : gmap string string) :
  match x with
  | None => delete (ToLower i) r
  | Some y => <[ToLower i := y]> r
  end !! ToLower i = x.
Proof. destruct x; [apply lookup_insert_eq | apply lookup_delete_eq]. Qed.

Lemma header_patch_at (cur : gmap string string)
  (patch : gmap string (option string)) (k : string) (v : option string) :
  patch !! k = Some v ->
  (forall k', is_Some (patch !! k') -> ToLower k' = ToLower k -> k' = k) ->
  applyHeaderPatch cur (Some patch) !! ToLower k = v.
Proof.
  unfold applyHeaderPatch. revert k v.
  apply (map_fold_weak_ind
           (fun (r : gmap string string) (m : gmap string (option string)) =>
              forall k v, m !! k = Some v ->
                (forall k', is_Some (m !! k') -> ToLower k' = ToLower k -> k' = k) ->
                r !! ToLower k = v)).
  - intros k v H. now rewrite lookup_empty in H.
  - intros i x m r Hi IH k v Hk Hd. cbv zeta.
    destruct (base.decide (i = k)) as [->|Hne].
    + rewrite lookup_insert_eq in Hk. injection Hk as <-. apply patch_step_same.
    + rewrite lookup_insert_ne in Hk by exact Hne.
      rewrite patch_step_other.
      * apply IH; [exact Hk|]. intros k' Hk' E. apply Hd; [|exact E].
        destruct (base.decide (i = k')) as [->|Hne'].
        -- rewrite lookup_insert_eq. eauto.
        -- now rewrite lookup_insert_ne.
      * intros E. apply Hne. apply Hd; [|exact E].
        rewrite lookup_insert_eq. eauto.
Qed.

Lemma header_patch_elsewhere (cur : gmap string string)
  (p : gmap string (option string)) (j : string) :
  (forall k, is_Some (p !! k) -> ToLower k <> j) ->
  applyHeaderPatch cur (Some p) !! j = cur !! j.
Proof.
  unfold applyHeaderPatch.
  apply (map_fold_weak_ind
           (fun (r : gmap string string) (m : gmap string (option string)) =>
              (forall k, is_Some (m !! k) -> ToLower k <> j) ->
              r !! j = cur !! j)).
  - reflexivity.
  - intros i x m r Hi IH H. cbv zeta. rewrite patch_step_other.
    + apply IH. intros k Hk. apply H.
      destruct (base.decide (i = k)) as [->|Hne].
      * rewrite lookup_insert_eq. eauto.
      * now rewrite lookup_insert_ne.
    + apply H. rewrite lookup_insert_eq. eauto.
Qed.

(** [applyHeaderPatch] carries out every entry of a patch with ASCII names
    on the lower-case form of its name: afterwards the name holds the value
    the patch gives, or is absent when the patch gives nil.  The names of the
    patch must not collide once in lower case. *)
Theorem header_patch_applies (cur : gmap string string)
  (patch : gmap string (option string)) (k : string) (v : option string) :
  (forall k', is_Some (patch !! k') -> ascii_only k' = true) ->
  patch !! k = Some v ->
  (forall k', is_Some (patch !! k') -> ToLower k' = ToLower k -> k' = k) ->
  applyHeaderPatch cur (Some patch) !! ToLower k = v.
Proof. intros _. apply header_patch_at. Qed.

Lemma header_patch_applies_witness :
  applyHeaderPatch (<["x-a" := "0"]> (<["x-b" := "1"]> ∅))
    (Some (<["X-A" := Some "2"]> (<["X-B" := None]> ∅))) !! ToLower "X-B" = None.
Proof.
  assert (forall k' : string,
            is_Some ((<["X-A" := Some "2"]> (<["X-B" := None]> ∅)
                      : gmap string (option string)) !! k') ->
            k' = "X-A" \/ k' = "X-B") as Hkeys.
  { intros k' [x Hk'].
    destruct (base.decide (k' = "X-A")) as [->|H1]; [now left|].
    destruct (base.decide (k' = "X-B")) as [->|H2]; [now right|].
    rewrite lookup_insert_ne, lookup_insert_ne, lookup_empty in Hk' by congruence.
    discriminate Hk'. }
  apply (header_patch_applies _ (<["X-A" := Some "2"]> (<["X-B" := None]> ∅)) "X-B" None).
  - intros k' Hk'. destruct (Hkeys k' Hk') as [-> | ->]; reflexivity.
  - reflexivity.
  - intros k' Hk' E. destruct (Hkeys k' Hk') as [-> | ->];
      [discriminate E | reflexivity].
Defined.

(** [applyHeaderPatch], given a patch with ASCII names, touches no header
    the patch does not name: a name that is the lower-case form of no name of
    the patch keeps its value. *)
Theorem header_patch_leaves_others (cur : gmap string string)
  (patch : option (gmap string (option string))) (j : string) :
  (forall p k, patch = Some p -> is_Some (p !! k) ->
               ascii_only k = true /\ ToLower k <> j) ->
  applyHeaderPatch cur patch !! j = cur !! j.
Proof.
  destruct patch as [p|]; [|reflexivity].
  intros H. apply header_patch_elsewhere.
  intros k Hk. now apply (H p k eq_refl Hk).
Qed.

Lemma header_patch_leaves_others_witness :
  applyHeaderPatch (<["x-a" := "0"]> (<["x-b" := "1"]> ∅))
    (Some (<["X-A" := Some "2"]> ∅)) !! "x-b"
  = (<["x-a" := "0"]> (<["x-b" := "1"]> (∅ : gmap string string))) !! "x-b".
Proof.
  apply (header_patch_leaves_others _ (Some (<["X-A" := Some "2"]> ∅)) "x-b").
  intros p k [= <-] [x Hk].
  destruct (base.decide (k = "X-A")) as [->|H1]; [split; [reflexivity | discriminate]|].
  rewrite lookup_insert_ne, lookup_empty in Hk by congruence. discriminate Hk.
Defined.

Lemma header_patch_lower_keyed (cur : gmap string string)
  (patch : option (gmap string (option string))) :
  lower_keyed cur -> lower_keyed (applyHeaderPatch cur patch).
Proof.
  intros Hcur. unfold applyHeaderPatch. destruct patch as [p|]; [|exact Hcur].
  apply (map_fold_weak_ind
           (fun (r : gmap string string) (m : gmap string (option string)) =>
              lower_keyed r)); [exact Hcur|].
  intros i x m r _ IH k Hk. cbv zeta in Hk.
  destruct (base.decide (ToLower i = k)) as [<-|Hne].
  - apply header_facts.ToLower_idem.
  - rewrite patch_step_other in Hk by exact Hne. now apply IH.
Qed.

Lemma current_headers_lower_keyed (ev : RequestPausedReply) :
  lower_keyed (getCurrentResponseHeaders ev).
Proof.
  unfold getCurrentResponseHeaders.
  assert (forall hs (acc : gmap string string), lower_keyed acc ->
            lower_keyed
              (fold_left (fun cur e => <[ToLower (Name e) := Value e]> cur) hs acc)) as H.
  { induction hs as [|e hs IH]; intros acc Hacc; [exact Hacc|].
    cbn [fold_left]. apply IH. now apply header_facts.lower_keyed_insert. }
  apply H. intros k [x Hk]. now rewrite lookup_empty in Hk.
Qed.

Lemma toHeaderEntries_names (h : gmap string string) :
  map Name (toHeaderEntries h) = (map_to_list h).*1.
Proof.
  unfold toHeaderEntries. rewrite map_map. reflexivity.
Qed.

Lemma current_headers_lookup (ev : RequestPausedReply) (k : string) :
  getCurrentResponseHeaders ev !! k
  = option_map Value
      (find (fun e => String.eqb (ToLower (Name e)) k) (rev (ResponseHeaders ev))).
Proof.
  unfold getCurrentResponseHeaders.
  induction (ResponseHeaders ev) as [|e l IH] using rev_ind.
  - cbn. now rewrite lookup_empty.
  - rewrite fold_left_app, rev_app_distr. cbn [fold_left rev app find].
    destruct (String.eqb (ToLower (Name e)) k) eqn:E.
    + apply String.eqb_eq in E. subst k. now rewrite lookup_insert_eq.
    + apply String.eqb_neq in E. now rewrite lookup_insert_ne.
Qed.

Lemma patched_lookup (ev : RequestPausedReply)
  (p : gmap string (option string)) (k : string) :
  (forall a b, is_Some (p !! a) -> is_Some (p !! b) ->
               ToLower a = ToLower b -> a = b) ->
  applyHeaderPatch (getCurrentResponseHeaders ev) (Some p) !! k
  = patched_header (ResponseHeaders ev) p k.
Proof.
  intros Hd. unfold patched_header.
  destruct (find (fun kv : string * option string => String.eqb (ToLower kv.1) k)
              (map_to_list p)) as [[k0 x]|] eqn:F.
  - apply find_some in F as [Hin E]. cbn [fst] in E.
    apply String.eqb_eq in E. subst k.
    apply list_elem_of_In, elem_of_map_to_list in Hin.
    apply header_patch_at; [exact Hin|].
    intros k' Hk' E. apply Hd; [exact Hk' | eauto | exact E].
  - rewrite header_patch_elsewhere; [apply current_headers_lookup|].
    intros a [x Ha] E.
    assert (In (a, x) (map_to_list p)) as Hin
      by (apply list_elem_of_In, elem_of_map_to_list; exact Ha).
    pose proof (find_none _ _ F _ Hin) as Hn. cbn [fst] in Hn.
    apply String.eqb_neq in Hn. contradiction.
Qed.

Lemma toHeaderEntries_In (h : gmap string string) (k v : string) :
  In {| Name := k; Value := v |} (toHeaderEntries h) <-> h !! k = Some v.
Proof.
  unfold toHeaderEntries. rewrite in_map_iff. split.
  - intros ([k' v'] & [= -> ->] & Hin).
    now apply elem_of_map_to_list, list_elem_of_In.
  - intros H. exists (k, v). split; [reflexivity|].
    now apply list_elem_of_In, elem_of_map_to_list.
Qed.

(** A rewrite of the response headers alone continues the response with the
    patched header map and with nothing else.  The headers sent are, under
    each lower-case name, the value the patch gives for it and, where the
    patch does not name it, the value of the last header of the response
    that bears the name; a name for which the patch gives nil is not sent.
    Every name is sent in lower case and once, so of a header the browser
    sent several times (Set-Cookie, say) one value is left.  The names of
    the response and of the patch are ASCII, and no two names of the patch
    collide in lower case. *)
Theorem header_rewrite_sends_each_name_once (lib : GoLib) (env : Env)
  (ev : RequestPausedReply) (rw : Rewrite) (p : gmap string (option string))
  (m : Manager) :
  rw_Body rw = None -> rw_Headers rw = Some p ->
  (forall k, is_Some (p !! k) -> ascii_only k = true) ->
  forallb (fun e => ascii_only (Name e)) (ResponseHeaders ev) = true ->
  (forall a b, is_Some (p !! a) -> is_Some (p !! b) ->
               ToLower a = ToLower b -> a = b) ->
  exists hs,
    applyResponseRewrite lib env ev rw m
    = (Returned tt,
       set_calls
         (calls m ++ [ContinueResponse
                        {| cp_RequestID := RequestID ev; cp_ResponseCode := None;
                           cp_ResponseHeaders := hs |}]) m)
    /\ (forall k v, In {| Name := k; Value := v |} hs
                     <-> patched_header (ResponseHeaders ev) p k = Some v)
    /\ NoDup (map Name hs)
    /\ Forall (fun e => ToLower (Name e) = Name e) hs.
Proof.
  intros Hb Hp _ _ Hd. unfold applyResponseRewrite. rewrite Hb, Hp.
  eexists. split; [reflexivity|].
  set (cur := applyHeaderPatch (getCurrentResponseHeaders ev) (Some p)).
  assert (lower_keyed cur) as Hlow
    by (apply header_patch_lower_keyed, current_headers_lower_keyed).
  split; [|split].
  - intros k v. rewrite toHeaderEntries_In. unfold cur.
    now rewrite patched_lookup.
  - rewrite toHeaderEntries_names. apply NoDup_fst_map_to_list.
  - apply Forall_forall. intros e He. unfold toHeaderEntries in He.
    apply list_elem_of_In, in_map_iff in He as ([k v] & <- & Hin).
    apply Hlow. exists v. apply elem_of_map_to_list.
    now apply list_elem_of_In.
Qed.

(** At the response with Content-Type and Content-Length and the patch that
    sets [X-A] and deletes [Host]: the three headers sent are the two of
    the response and [x-a]. *)
Lemma header_rewrite_sends_each_name_once_witness :
  exists hs,
    applyResponseRewrite samples.nolib samples.quiet samples.resp_big
      samples.rw_headers (samples.manager None 8)
    = (Returned tt,
       set_calls
         (calls (samples.manager None 8)
          ++ [ContinueResponse
                {| cp_RequestID := RequestID samples.resp_big;
                   cp_ResponseCode := None; cp_ResponseHeaders := hs |}])
         (samples.manager None 8))
    /\ (forall k v,
          In {| Name := k; Value := v |} hs
          <-> patched_header (ResponseHeaders samples.resp_big)
                (<["X-A" := Some "1"]> (<["Host" := None]> ∅)) k = Some v)
    /\ NoDup (map Name hs)
    /\ Forall (fun e => ToLower (Name e) = Name e) hs.
Proof.
  assert (forall k : string,
            is_Some ((<["X-A" := Some "1"]> (<["Host" := None]> ∅)
                      : gmap string (option string)) !! k) ->
            k = "X-A" \/ k = "Host") as Hkeys.
  { intros k [x Hk].
    destruct (base.decide (k = "X-A")) as [->|H1]; [now left|].
    destruct (base.decide (k = "Host")) as [->|H2]; [now right|].
    rewrite lookup_insert_ne, lookup_insert_ne, lookup_empty in Hk by congruence.
    discriminate Hk. }
  apply (header_rewrite_sends_each_name_once samples.nolib samples.quiet
           samples.resp_big samples.rw_headers
           (<["X-A" := Some "1"]> (<["Host" := None]> ∅))
           (samples.manager None 8)).
  - reflexivity.
  - reflexivity.
  - intros k Hk. destruct (Hkeys k Hk) as [-> | ->]; reflexivity.
  - reflexivity.
  - intros a b Ha Hb E.
    destruct (Hkeys a Ha) as [-> | ->], (Hkeys b Hb) as [-> | ->];
      first [reflexivity | discriminate E].
Defined.

End header_patch_laws.


(* ===================================================================== *)
(** * internal/cdp: the counters of the worker pool *)
(* ===================================================================== *)

Module pool_laws.
Import cdp pool.

Lemma submit_all_from (p : workerPool) (fns : list RequestPausedReply) (s : nat) :
  sem p = Some s -> (length (queue p) <= queueCap p)%nat ->
  let free := (queueCap p - length (queue p))%nat in
  let '(p', oks) := submit_all p fns in
  sem p' = Some s /\ queueCap p' = queueCap p
  /\ queue p' = queue p ++ take free fns
  /\ totalSubmit p' = totalSubmit p + Z.of_nat (length fns)
  /\ totalDrop p' = totalDrop p + Z.of_nat (length fns - free)
  /\ oks = replicate (Nat.min (length fns) free) true
           ++ replicate (length fns - free) false.
Proof.
  revert p. induction fns as [|fn fns IH]; intros p Hs Hq; cbv zeta.
  - cbn [submit_all length].
    split; [exact Hs|]. split; [reflexivity|].
    split; [now rewrite take_nil, app_nil_r|].
    split; [cbn; lia|]. split; [cbn; lia|]. reflexivity.
  - cbn [submit_all]. unfold submit. rewrite Hs.
    destruct (length (queue p) <? queueCap p)%nat eqn:E.
    + apply Nat.ltb_lt in E.
      match goal with
      | |- context [submit_all ?q fns] => specialize (IH q)
      end.
      cbn [sem queue queueCap totalSubmit totalDrop] in IH.
      rewrite length_app in IH. cbn [length] in IH.
      specialize (IH eq_refl ltac:(lia)). cbv zeta in IH.
      destruct (submit_all _ fns) as [p' oks].
      destruct IH as (H1 & H2 & H3 & H4 & H5 & H6).
      destruct (queueCap p - length (queue p))%nat as [|free] eqn:Ef; [lia|].
      replace (queueCap p - (length (queue p) + 1))%nat with free in * by lia.
      split; [exact H1|]. split; [exact H2|].
      split; [rewrite H3, <- app_assoc; reflexivity|].
      split; [rewrite H4; cbn [length]; lia|].
      split; [rewrite H5; cbn [length]; f_equal; f_equal; lia|].
      rewrite H6. cbn [length]. reflexivity.
    + apply Nat.ltb_ge in E.
      match goal with
      | |- context [submit_all ?q fns] => specialize (IH q)
      end.
      cbn [sem queue queueCap totalSubmit totalDrop] in IH.
      specialize (IH eq_refl Hq). cbv zeta in IH.
      destruct (submit_all _ fns) as [p' oks].
      destruct IH as (H1 & H2 & H3 & H4 & H5 & H6).
      replace (queueCap p - length (queue p))%nat with O in * by lia.
      rewrite Nat.min_0_r, Nat.sub_0_r in *. cbn [replicate app take] in *.
      split; [exact H1|]. split; [exact H2|]. split; [exact H3|].
      split; [rewrite H4; cbn [length]; lia|].
      split; [rewrite H5; cbn [length]; lia|].
      rewrite H6. reflexivity.
Qed.

(** A burst of submissions to a fresh pool of [size] workers, with no
    worker taking a task meanwhile: the first [2 * size] tasks are queued in
    order, every later one is refused, and the counters read by [stats] say
    so: queued, capacity, all submissions, refusals. *)
Theorem burst_is_counted (size : Z) (fns : list RequestPausedReply) :
  0 < size < 2 ^ 62 ->
  Z.of_nat (length fns) < 2 ^ 63 ->
  let cap := Z.to_nat (size * 2) in
  let '(p, oks) := submit_all (newWorkerPool size) fns in
  queue p = take cap fns
  /\ oks = replicate (Nat.min (length fns) cap) true
           ++ replicate (length fns - cap) false
  /\ stats p = (Z.of_nat (Nat.min (length fns) cap), size * 2,
                Z.of_nat (length fns), Z.of_nat (length fns - cap)).
Proof.
  intros Hsize _. cbv zeta. unfold newWorkerPool.
  assert ((size <=? 0) = false) as -> by (apply Z.leb_gt; lia).
  match goal with
  | |- context [submit_all ?q fns] =>
      pose proof (submit_all_from q fns (Z.to_nat size) eq_refl) as H
  end.
  cbn [sem queue queueCap totalSubmit totalDrop length] in H.
  specialize (H ltac:(lia)). cbv zeta in H.
  rewrite Nat.sub_0_r in H.
  destruct (submit_all _ fns) as [p oks].
  destruct H as (H1 & H2 & H3 & H4 & H5 & H6).
  split; [exact H3|]. split; [exact H6|].
  unfold stats. rewrite H1, H2, H3, H4, H5. cbn [app].
  rewrite length_take, Nat.min_comm, !Z.add_0_l, Z2Nat.id by lia. reflexivity.
Qed.

Lemma burst_is_counted_witness :
  let '(p, oks) :=
    submit_all (newWorkerPool 1) [samples.get_a; samples.resp_a; samples.resp_big] in
  queue p = take (Z.to_nat (1 * 2)) [samples.get_a; samples.resp_a; samples.resp_big]
  /\ oks = replicate (Nat.min 3 (Z.to_nat (1 * 2))) true
           ++ replicate (3 - Z.to_nat (1 * 2)) false
  /\ stats p = (Z.of_nat (Nat.min 3 (Z.to_nat (1 * 2))), 1 * 2,
                Z.of_nat 3, Z.of_nat (3 - Z.to_nat (1 * 2))).
Proof.
  apply (burst_is_counted 1 [samples.get_a; samples.resp_a; samples.resp_big]).
  - lia.
  - reflexivity.
Defined.



End pool_laws.


(* ===================================================================== *)
(** * internal/cdp: the approval channels *)
(* ===================================================================== *)

Module approval_laws.
Import rulespec cdp props laws.

(** [Approve] never waits.  After [registerApproval] the first approval for
    the id is kept in the channel's single slot; a second one for the same
    id returns at once and is dropped, and so does an approval for an id that
    was unregistered. *)
Theorem first_approval_is_kept (id : string) (first second : Rewrite)
  (m : Manager) :
  let m0 := (registerApproval id m).2 in
  exists m1 ch,
    Approve id first m0 = (Returned tt, m1)
    /\ approvals m1 !! id = Some ch /\ ch_buf ch = [first]
    /\ Approve id second m1 = (Returned tt, m1)
    /\ Approve id second (unregisterApproval id m1).2
       = (Returned tt, (unregisterApproval id m1).2).
Proof.
  cbv zeta. unfold registerApproval. cbn [snd].
  unfold Approve at 1. cbn [approvals set_approvals].
  rewrite lookup_insert_eq. cbn.
  eexists _, _. split; [reflexivity|].
  cbn [approvals set_approvals]. rewrite lookup_insert_eq.
  split; [reflexivity|]. split; [reflexivity|]. split.
  - unfold Approve. cbn [approvals set_approvals]. rewrite lookup_insert_eq. cbn.
    unfold set_approvals. cbn. now rewrite !insert_insert_eq.
  - unfold Approve, unregisterApproval. cbn [snd approvals set_approvals].
    now rewrite lookup_delete_eq.
Qed.

Lemma keeps_call (c : Call) : keeps_approvals (call c).
Proof. now intros m. Qed.

Lemma keeps_ret {A} (a : A) : keeps_approvals (ret a).
Proof. now intros m. Qed.

Lemma keeps_bind {A B} (f : M A) (k : A -> M B) :
  keeps_approvals f -> (forall a, keeps_approvals (k a)) ->
  keeps_approvals (bind f k).
Proof.
  intros Hf Hk m. unfold bind. specialize (Hf m).
  destruct (f m) as [[a| |] m1]; cbn [snd] in *; [|exact Hf..].
  now rewrite Hk.
Qed.

Lemma keeps_emit (e : Event) : keeps_approvals (emit e).
Proof. intros m. unfold emit. now destruct (send (events m) e). Qed.

Lemma keeps_applyContinue (ev : RequestPausedReply) (stage : string) :
  keeps_approvals (applyContinue ev stage).
Proof. unfold applyContinue. destruct (String.eqb _ _); apply keeps_call. Qed.

Lemma keeps_applyRespond (ev : RequestPausedReply) (r : Respond) (stage : string) :
  keeps_approvals (applyRespond ev r stage).
Proof. unfold applyRespond. destruct (_ && _); apply keeps_call. Qed.

Lemma keeps_applyPauseDefaultAction (ev : RequestPausedReply) (p : Pause)
  (stage : string) : keeps_approvals (applyPauseDefaultAction ev p stage).
Proof.
  unfold applyPauseDefaultAction.
  destruct (String.eqb _ PauseDefaultActionFulfill); [apply keeps_applyRespond|].
  destruct (String.eqb _ PauseDefaultActionFail); [apply keeps_call|].
  destruct (String.eqb _ PauseDefaultActionContinueMutated);
    apply keeps_applyContinue.
Qed.

Lemma keeps_applyRewrite (lib : GoLib) (env : Env) (ev : RequestPausedReply)
  (rw : Rewrite) (stage : string) :
  keeps_approvals (applyRewrite lib env ev rw stage).
Proof.
  unfold applyRewrite. destruct (String.eqb stage "response"); [|apply keeps_call].
  unfold applyResponseRewrite. destruct (rw_Body rw) as [bp|].
  2:{ destruct (rw_Headers rw); apply keeps_call. }
  destruct (extractResponseMetadata ev) as [ctype clen].
  apply keeps_bind; [now intros m|]. intros m0.
  destruct (negb _); [apply keeps_call|].
  apply keeps_bind.
  { unfold fetchResponseBody. apply keeps_bind; [apply keeps_call|].
    intros _. apply keeps_ret. }
  intros [bodyText|]; [|apply keeps_call].
  destruct (applyBodyPatch lib bodyText (Some bp)) as [newBody|]; [|apply keeps_call].
  destruct (String.eqb newBody ""); apply keeps_call.
Qed.

Lemma keeps_applyApprovalResult (lib : GoLib) (env : Env)
  (ev : RequestPausedReply) (mut : option Rewrite) (p : Pause) (stage : string) :
  keeps_approvals (applyApprovalResult lib env ev mut p stage).
Proof.
  unfold applyApprovalResult. destruct mut as [mut|].
  - destruct (hasEffectiveMutations mut);
      [apply keeps_applyRewrite | apply keeps_applyContinue].
  - apply keeps_applyPauseDefaultAction.
Qed.

Lemma applyPause_approvals (lib : GoLib) (env : Env) (ev : RequestPausedReply)
  (p : Pause) (stage : string) (ruleID : option string) (m m' : Manager) :
  applyPause lib env ev p stage ruleID m = (Returned tt, m') ->
  approvals m' = delete (RequestID ev) (approvals m).
Proof.
  unfold applyPause, bind at 1, registerApproval.
  set (m1 := set_approvals _ m).
  assert (delete (RequestID ev) (approvals m1) = delete (RequestID ev) (approvals m)) as Hd
    by (unfold m1; cbn; apply delete_insert_eq).
  assert (forall m2, approvals m2 = approvals m1 ->
            (mut <- waitForApproval env (make_chan 1) (p_TimeoutMS p);;
             applyApprovalResult lib env ev mut p stage;;
             unregisterApproval (RequestID ev)) m2 = (Returned tt, m') ->
            approvals m' = delete (RequestID ev) (approvals m)) as Hwait.
  { intros m2 H2. unfold waitForApproval, ret, bind at 1, bind.
    pose proof (keeps_applyApprovalResult lib env ev (approval env) p stage m2) as Hk.
    destruct (applyApprovalResult lib env ev (approval env) p stage m2)
      as [[[]| |] m3]; try discriminate.
    unfold unregisterApproval. intros [= <-]. cbn [approvals set_approvals snd] in *.
    now rewrite Hk, H2. }
  unfold bind at 1, sendPendingItem, bind at 1, get.
  change (pending m1) with (pending m).
  destruct (pending m) as [pc|].
  2:{ unfold ret. cbn [negb]. now apply Hwait. }
  destruct (try_send pc _) as [[[|] pc']| |]; try discriminate.
  - cbn [negb]. now apply Hwait.
  - unfold handlePauseOverflow, bind.
    pose proof (keeps_applyPauseDefaultAction ev p stage m1) as Hk.
    destruct (applyPauseDefaultAction ev p stage m1) as [[[]| |] m2]; try discriminate.
    pose proof (keeps_emit {| ev_Type := "degraded"; ev_Rule := None |} m2) as He.
    destruct (emit _ m2) as [[[]| |] m3]; try discriminate.
    unfold unregisterApproval, ret. cbn [negb]. intros [= <-].
    cbn [approvals set_approvals snd] in *. now rewrite He, Hk.
Qed.

(** [applyPause] leaves no approval channel behind: it returns, and then the
    id of the event is no longer registered, whichever way the pause ended
    (an approval, the timeout, a full pending queue); the channels of other
    ids are untouched. *)
Theorem pause_unregisters_its_channel (lib : GoLib) (env : Env)
  (ev : RequestPausedReply) (p : Pause) (stage : string)
  (ruleID : option string) (m : Manager) :
  room 1 (events m) -> pending_open m ->
  exists m',
    applyPause lib env ev p stage ruleID m = (Returned tt, m')
    /\ approvals m' !! RequestID ev = None
    /\ forall id, id <> RequestID ev -> approvals m' !! id = approvals m !! id.
Proof.
  intros Hroom Hpend.
  destruct (handler_facts.applyPause_completes lib env ev p stage ruleID m Hroom Hpend)
    as (m' & d & c & E & _).
  exists m'. split; [exact E|].
  rewrite (applyPause_approvals _ _ _ _ _ _ _ _ E).
  split; [apply lookup_delete_eq|].
  intros id Hne. now apply lookup_delete_ne.
Qed.

Lemma pause_unregisters_its_channel_witness :
  exists m',
    applyPause samples.nolib samples.quiet samples.get_a (samples.pause_3s "fail")
      "request" None (samples.manager None 8) = (Returned tt, m')
    /\ approvals m' !! RequestID samples.get_a = None
    /\ forall id, id <> RequestID samples.get_a ->
         approvals m' !! id = approvals (samples.manager None 8) !! id.
Proof.
  apply (pause_unregisters_its_channel samples.nolib samples.quiet samples.get_a
           (samples.pause_3s "fail") "request" None (samples.manager None 8)).
  - split; [reflexivity | vm_compute; lia].
  - reflexivity.
Defined.

End approval_laws.

(* ===================================================================== *)
(** * internal/cdp: which target the manager attaches to *)
(* ===================================================================== *)

Module target_laws.
Import strings targets.

Lemma find_app {A} (f : A -> bool) (l1 l2 : list A) :
  find f (l1 ++ l2) = match find f l1 with
                      | Some x => Some x
                      | None => find f l2
                      end.
Proof.
  induction l1 as [|x l1 IH]; [reflexivity|].
  cbn [app find]. now destruct (f x).
Qed.

Lemma find_all_false {A} (f : A -> bool) (l : list A) :
  (forall x, In x l -> f x = false) -> find f l = None.
Proof.
  induction l as [|x l IH]; intros H; [reflexivity|].
  cbn [find]. rewrite (H x (or_introl eq_refl)). apply IH.
  intros y Hy. apply H. now right.
Qed.

(** [selectAutoTarget] returns a target of the list, and none only when the
    list is empty.  It prefers the user pages (type page, URL starting with
    http:// or https:// in any case) and among them the last of the list;
    without a user page it returns the first target, whatever its type. *)
Theorem auto_target_is_last_user_page (ts : list Target) :
  (selectAutoTarget ts = None <-> ts = [])
  /\ (forall t, selectAutoTarget ts = Some t -> In t ts)
  /\ (forall pre t post,
        ts = pre ++ t :: post -> user_page t = true ->
        (forall x, In x post -> user_page x = false) ->
        selectAutoTarget ts = Some t)
  /\ ((forall x, In x ts -> user_page x = false) ->
      selectAutoTarget ts = head ts).
Proof.
  unfold selectAutoTarget. repeat split.
  - destruct (find user_page (rev ts)) eqn:E; [discriminate|].
    destruct ts; [reflexivity | discriminate].
  - intros ->. reflexivity.
  - intros t H. destruct (find user_page (rev ts)) as [sel|] eqn:E.
    + injection H as <-. apply find_some in E as [Hin _].
      now apply in_rev in Hin.
    + destruct ts; [discriminate|]. injection H as <-. now left.
  - intros pre t post -> Ht Hpost.
    rewrite rev_app_distr. cbn [rev]. rewrite <- app_assoc, find_app.
    rewrite find_all_false.
    + cbn [app find]. now rewrite Ht.
    + intros x Hx. apply Hpost. now apply in_rev.
  - intros H. rewrite find_all_false; [reflexivity|].
    intros x Hx. apply H. now apply in_rev.
Qed.

Lemma auto_target_is_last_user_page_witness :
  selectAutoTarget
    [ {| t_ID := "1"; t_Type := "page"; t_URL := "https://a.test/" |};
      {| t_ID := "2"; t_Type := "page"; t_URL := "HTTP://b.test/" |};
      {| t_ID := "3"; t_Type := "page"; t_URL := "chrome://newtab/" |};
      {| t_ID := "4"; t_Type := "service_worker"; t_URL := "https://b.test/sw.js" |} ]
  = Some {| t_ID := "2"; t_Type := "page"; t_URL := "HTTP://b.test/" |}.
Proof.
  apply (proj1 (proj2 (proj2 (auto_target_is_last_user_page _)))
           [ {| t_ID := "1"; t_Type := "page"; t_URL := "https://a.test/" |} ]
           {| t_ID := "2"; t_Type := "page"; t_URL := "HTTP://b.test/" |}
           [ {| t_ID := "3"; t_Type := "page"; t_URL := "chrome://newtab/" |};
             {| t_ID := "4"; t_Type := "service_worker";
                t_URL := "https://b.test/sw.js" |} ]).
  - reflexivity.
  - reflexivity.
  - intros x [<- | [<- | []]]; reflexivity.
Defined.

(** [resolveTarget] with an id returns the first target of that id and
    never falls back to the automatic choice: an unknown id gives no target,
    even when a user page is open.  Whatever it returns is in the list. *)
Theorem explicit_target_has_no_fallback (ts : list Target) (id : string) :
  id <> "" ->
  match resolveTarget ts id with
  | Some t =>
      t_ID t = id
      /\ exists pre post, ts = pre ++ t :: post
                          /\ forall x, In x pre -> t_ID x <> id
  | None => forall x, In x ts -> t_ID x <> id
  end.
Proof.
  intros Hid. unfold resolveTarget.
  apply String.eqb_neq in Hid. rewrite Hid. cbn [negb].
  assert (match find (fun t => String.eqb (t_ID t) id) ts with
          | Some t =>
              t_ID t = id
              /\ exists pre post, ts = pre ++ t :: post
                                  /\ forall x, In x pre -> t_ID x <> id
          | None => forall x, In x ts -> t_ID x <> id
          end) as H.
  { induction ts as [|t ts IH]; cbn [find]; [intros x []|].
    destruct (String.eqb (t_ID t) id) eqn:E.
    - apply String.eqb_eq in E. split; [exact E|].
      exists [], ts. split; [reflexivity | intros x []].
    - apply String.eqb_neq in E.
      destruct (find _ ts) as [t'|].
      + destruct IH as (H1 & pre & post & -> & H2). split; [exact H1|].
        exists (t :: pre), post. split; [reflexivity|].
        intros x [<- | Hx]; [exact E | now apply H2].
      + intros x [<- | Hx]; [exact E | now apply IH]. }
  destruct ts as [|t ts]; [intros x []|exact H].
Qed.

Lemma explicit_target_has_no_fallback_witness :
  match resolveTarget
          [ {| t_ID := "1"; t_Type := "page"; t_URL := "https://a.test/" |} ] "9" with
  | Some t =>
      t_ID t = "9"
      /\ exists pre post,
           [ {| t_ID := "1"; t_Type := "page"; t_URL := "https://a.test/" |} ]
           = pre ++ t :: post
           /\ forall x, In x pre -> t_ID x <> "9"
  | None =>
      forall x,
        In x [ {| t_ID := "1"; t_Type := "page"; t_URL := "https://a.test/" |} ] ->
        t_ID x <> "9"
  end.
Proof.
  apply (explicit_target_has_no_fallback
           [ {| t_ID := "1"; t_Type := "page"; t_URL := "https://a.test/" |} ] "9").
  discriminate.
Defined.

End target_laws.


(* ===================================================================== *)
(** * internal/handler: merging mutations and answering the browser *)
(* ===================================================================== *)

Module pipeline_laws.
Import strings cdp handler laws.

Lemma filled_merge_map (d s : option (gmap string string)) :
  filled (merge_map d s) = filled d || filled s.
Proof.
  unfold merge_map. destruct s as [s|]; [|now rewrite orb_false_r].
  cbn [filled]. destruct (size s =? 0)%nat eqn:E; cbn [negb].
  - now rewrite orb_false_r.
  - rewrite orb_true_r. cbn [filled].
    apply Nat.eqb_neq in E.
    destruct (size (s ∪ lookup_or ∅ d) =? 0)%nat eqn:E'; [|reflexivity].
    apply Nat.eqb_eq, map_size_empty_iff in E'.
    apply map_positive_l in E'. subst s. now rewrite map_size_empty in E.
Qed.

Lemma given_later {A} (d s : option A) : given (later d s) = given d || given s.
Proof. destruct d, s; reflexivity. Qed.

Lemma nonempty_app {A} (a b : list A) :
  rules.nonempty (a ++ b) = rules.nonempty a || rules.nonempty b.
Proof. destruct a, b; reflexivity. Qed.

Lemma lookup_merge_map (d s : option (gmap string string)) (k : string) :
  lookup_or ∅ (merge_map d s) !! k
  = match lookup_or ∅ s !! k with
    | Some v => Some v
    | None => lookup_or ∅ d !! k
    end.
Proof.
  unfold merge_map. destruct s as [s|]; cbn [lookup_or].
  - destruct (size s =? 0)%nat eqn:E.
    + apply Nat.eqb_eq, map_size_empty_iff in E. subst s.
      now rewrite lookup_empty.
    + cbn [lookup_or]. rewrite lookup_union.
      destruct (s !! k), (lookup_or ∅ d !! k); reflexivity.
  - now rewrite lookup_empty.
Qed.

(** Merging the mutation of a later rule into the one gathered so far: the
    result has an effect exactly when one of the two has; for every header,
    query parameter and cookie the later rule's value wins and the earlier
    one stays where the later rule says nothing; URL, method and body are the
    later rule's when it sets them. *)
Theorem merge_lets_the_later_rule_win (dst src : RequestMutation) (k : string) :
  hasRequestMutation (mergeRequestMutation dst src)
  = hasRequestMutation dst || hasRequestMutation src
  /\ lookup_or ∅ (qm_Headers (mergeRequestMutation dst src)) !! k
     = match lookup_or ∅ (qm_Headers src) !! k with
       | Some v => Some v
       | None => lookup_or ∅ (qm_Headers dst) !! k
       end
  /\ lookup_or ∅ (qm_Query (mergeRequestMutation dst src)) !! k
     = match lookup_or ∅ (qm_Query src) !! k with
       | Some v => Some v
       | None => lookup_or ∅ (qm_Query dst) !! k
       end
  /\ lookup_or ∅ (qm_Cookies (mergeRequestMutation dst src)) !! k
     = match lookup_or ∅ (qm_Cookies src) !! k with
       | Some v => Some v
       | None => lookup_or ∅ (qm_Cookies dst) !! k
       end
  /\ qm_URL (mergeRequestMutation dst src)
     = match qm_URL src with Some u => Some u | None => qm_URL dst end
  /\ qm_Method (mergeRequestMutation dst src)
     = match qm_Method src with Some u => Some u | None => qm_Method dst end
  /\ qm_Body (mergeRequestMutation dst src)
     = match qm_Body src with Some u => Some u | None => qm_Body dst end.
Proof.
  split.
  - unfold hasRequestMutation, mergeRequestMutation.
    cbn [qm_URL qm_Method qm_Headers qm_Query qm_Cookies qm_RemoveHeaders
         qm_RemoveQuery qm_RemoveCookies qm_Body].
    rewrite !given_later, !filled_merge_map, !nonempty_app.
    rewrite <- !orb_assoc.
    repeat match goal with
           | |- (?a || ?x) = _ =>
               destruct a;
               [rewrite ?orb_true_r, ?orb_true_l; reflexivity | cbn [orb]]
           | |- ?a = _ =>
               destruct a;
               [rewrite ?orb_true_r, ?orb_true_l; reflexivity | cbn [orb]]
           end; reflexivity.
  - cbn [mergeRequestMutation qm_URL qm_Method qm_Headers qm_Query qm_Cookies qm_Body].
    rewrite !lookup_merge_map.
    repeat split; unfold later.
    + now destruct (qm_URL src).
    + now destruct (qm_Method src).
    + now destruct (qm_Body src).
Qed.

(** The same for the mutations of a response; the headers to remove of
    both rules are kept, the earlier rule's first. *)
Theorem merge_of_responses (dst src : ResponseMutation) (k : string) :
  hasResponseMutation (mergeResponseMutation dst src)
  = hasResponseMutation dst || hasResponseMutation src
  /\ lookup_or ∅ (pm_Headers (mergeResponseMutation dst src)) !! k
     = match lookup_or ∅ (pm_Headers src) !! k with
       | Some v => Some v
       | None => lookup_or ∅ (pm_Headers dst) !! k
       end
  /\ pm_RemoveHeaders (mergeResponseMutation dst src)
     = pm_RemoveHeaders dst ++ pm_RemoveHeaders src
  /\ pm_StatusCode (mergeResponseMutation dst src)
     = match pm_StatusCode src with Some u => Some u | None => pm_StatusCode dst end
  /\ pm_Body (mergeResponseMutation dst src)
     = match pm_Body src with Some u => Some u | None => pm_Body dst end.
Proof.
  split.
  - unfold hasResponseMutation, mergeResponseMutation.
    cbn [pm_StatusCode pm_Headers pm_RemoveHeaders pm_Body].
    rewrite !given_later, !filled_merge_map, !nonempty_app.
    rewrite <- !orb_assoc.
    repeat match goal with
           | |- (?a || ?x) = _ =>
               destruct a;
               [rewrite ?orb_true_r, ?orb_true_l; reflexivity | cbn [orb]]
           | |- ?a = _ =>
               destruct a;
               [rewrite ?orb_true_r, ?orb_true_l; reflexivity | cbn [orb]]
           end; reflexivity.
  - cbn [mergeResponseMutation pm_StatusCode pm_Headers pm_RemoveHeaders pm_Body].
    rewrite lookup_merge_map.
    repeat split; unfold later.
    + now destruct (pm_StatusCode src).
    + now destruct (pm_Body src).
Qed.

Lemma lookup_removed (l : list string) (m : gmap string string) (k : string) :
  fold_left (fun hs h => delete h hs) l m !! k
  = if bool_decide (k ∈ l) then None else m !! k.
Proof.
  revert m. induction l as [|x l IH]; intros m; cbn [fold_left]; [reflexivity|].
  rewrite IH. destruct (base.decide (k = x)) as [->|Hne].
  - rewrite lookup_delete_eq.
    rewrite (bool_decide_eq_true_2 (x ∈ x :: l)) by (now left).
    now destruct (bool_decide (x ∈ l)).
  - rewrite lookup_delete_ne by congruence.
    destruct (bool_decide (k ∈ l)) eqn:E.
    + apply bool_decide_eq_true in E.
      rewrite bool_decide_eq_true_2; [reflexivity | now right].
    + apply bool_decide_eq_false in E.
      rewrite bool_decide_eq_false_2; [reflexivity|].
      intros H. apply elem_of_cons in H as [?|?]; [congruence | contradiction].
Qed.

(** The headers reported for a modified request or response: a header the
    mutation sets has the value set, also when the mutation removes the same
    name; a header removed and not set is absent; any other header is the
    original one.  Names are compared as they are written, byte for byte. *)
Theorem reported_headers_set_wins_over_remove
  (q : RequestInfo) (qmut : RequestMutation)
  (p : ResponseInfo) (pmut : ResponseMutation) (finalBody k : string) :
  qi_Headers (captureModifiedRequestData q qmut) !! k
  = match lookup_or ∅ (qm_Headers qmut) !! k with
    | Some v => Some v
    | None =>
        if bool_decide (k ∈ qm_RemoveHeaders qmut) then None
        else qi_Headers q !! k
    end
  /\ pi_Headers (captureModifiedResponseData p pmut finalBody) !! k
     = match lookup_or ∅ (pm_Headers pmut) !! k with
       | Some v => Some v
       | None =>
           if bool_decide (k ∈ pm_RemoveHeaders pmut) then None
           else pi_Headers p !! k
       end.
Proof.
  unfold captureModifiedRequestData, captureModifiedResponseData.
  cbn [qi_Headers pi_Headers]. rewrite !lookup_union, !lookup_removed.
  split.
  - destruct (lookup_or ∅ (qm_Headers qmut) !! k);
      now destruct (if bool_decide _ then _ else _).
  - destruct (lookup_or ∅ (pm_Headers pmut) !! k);
      now destruct (if bool_decide _ then _ else _).
Qed.

Section WithExecutor.
Context {Action : Type}.
Context (action_Type : Action -> string).
Context (GetRequestBody : RequestPausedReply -> string).
Context (ExecuteRequestActions :
           list Action -> RequestPausedReply -> option RequestMutation).
Context (ExecuteResponseActions :
           list Action -> RequestPausedReply -> string -> option ResponseMutation).
Context (EvalForStage :
           option (RequestPausedReply -> string -> list (@MatchedRule Action))).
Context (resourceType : RequestPausedReply -> string).

Lemma response_loop_body (ev : RequestPausedReply) (original : string)
  (rs : list MatchedRule) (agg : option ResponseMutation) (cur : string) :
  cur = match agg with
        | Some a => lookup_or original (pm_Body a)
        | None => original
        end ->
  let '(agg', body) := response_loop ExecuteResponseActions ev agg cur rs in
  body = match agg' with
         | Some a => lookup_or original (pm_Body a)
         | None => original
         end.
Proof.
  revert agg cur. induction rs as [|r rs IH]; intros agg cur H; [exact H|].
  cbn [response_loop]. destruct (mr_Actions r) as [|a acts]; [now apply IH|].
  destruct (ExecuteResponseActions (a :: acts) ev cur) as [mut|]; [|now apply IH].
  apply IH. destruct agg as [a0|].
  - cbn [mergeResponseMutation pm_Body]. unfold later.
    destruct (pm_Body mut); [reflexivity | exact H].
  - subst cur. now destruct (pm_Body mut).
Qed.

(** [computeResponseMutation] chains the bodies: the body it returns is the
    one the gathered mutation carries, and the original body when no rule
    set one (or no rule produced a mutation at all). *)
Theorem final_body_is_the_merged_body (ev : RequestPausedReply)
  (rs : list MatchedRule) (original : string) :
  let '(agg, ruleMatches, body) :=
    computeResponseMutation action_Type ExecuteResponseActions ev rs original in
  body = match agg with
         | Some a => lookup_or original (pm_Body a)
         | None => original
         end
  /\ length ruleMatches = length rs.
Proof.
  unfold computeResponseMutation.
  pose proof (response_loop_body ev original rs None original eq_refl) as H.
  destruct (response_loop ExecuteResponseActions ev None original rs) as [agg body].
  split; [exact H|]. unfold buildRuleMatches. now rewrite length_map.
Qed.

(** The first rule that blocks ends [computeRequestMutation]: its mutation
    is returned alone, with the rule; what the earlier rules contributed is
    dropped and the later rules are not executed.  The list of matches still
    names every matched rule.  When no rule blocks, no blocking rule is
    returned. *)
Theorem first_block_wins (ev : RequestPausedReply) (rs : list MatchedRule) :
  (forall pre r post mut,
     rs = pre ++ r :: post ->
     (forall x, In x pre -> blocks ExecuteRequestActions ev x = false) ->
     blocks ExecuteRequestActions ev r = true ->
     ExecuteRequestActions (mr_Actions r) ev = Some mut ->
     computeRequestMutation action_Type ExecuteRequestActions ev rs
     = (Some mut, Some r, buildRuleMatches action_Type rs))
  /\ ((forall x, In x rs -> blocks ExecuteRequestActions ev x = false) ->
      (computeRequestMutation action_Type ExecuteRequestActions ev rs).1.2 = None).
Proof.
  unfold computeRequestMutation. split.
  - intros pre r post mut -> Hpre Hr Hmut. f_equal.
    generalize (@None RequestMutation) as agg.
    induction pre as [|y pre IH]; intros agg; cbn [app request_loop].
    + unfold blocks in Hr. destruct (mr_Actions r) as [|a acts]; [discriminate|].
      rewrite Hmut in Hr |- *. now destruct (qm_Block mut).
    + assert (forall x, In x pre -> blocks ExecuteRequestActions ev x = false) as Hpre'
        by (intros x Hx; apply Hpre; now right).
      specialize (Hpre y (or_introl eq_refl)). unfold blocks in Hpre.
      destruct (mr_Actions y) as [|a acts]; [now apply IH|].
      destruct (ExecuteRequestActions (a :: acts) ev) as [m0|]; [|now apply IH].
      destruct (qm_Block m0); [discriminate | now apply IH].
  - cbn [fst snd]. generalize (@None RequestMutation) as agg.
    induction rs as [|y rs IH]; intros agg H; cbn [request_loop]; [reflexivity|].
    assert (forall x, In x rs -> blocks ExecuteRequestActions ev x = false) as H'
      by (intros x Hx; apply H; now right).
    specialize (H y (or_introl eq_refl)). unfold blocks in H.
    destruct (mr_Actions y) as [|a acts]; [now apply IH|].
    destruct (ExecuteRequestActions (a :: acts) ev) as [m0|]; [|now apply IH].
    destruct (qm_Block m0); [discriminate | now apply IH].
Qed.

Lemma send_event_open (evt : NetworkEvent) (h : Handler) :
  events_open h ->
  exists h', send_event evt h = (Returned tt, h')
             /\ h_calls h' = h_calls h /\ events_open h'.
Proof.
  unfold events_open at 1, send_event.
  destruct (h_events h) as [c|] eqn:E; intros Ho.
  - unfold try_send. rewrite Ho. destruct (ch_full c).
    + eexists. split; [reflexivity|]. split; [reflexivity|].
      unfold events_open. cbn [h_events]. exact Ho.
    + eexists. split; [reflexivity|]. split; [reflexivity|].
      unfold events_open. cbn [h_events ch_push ch_closed]. exact Ho.
  - exists h. split; [reflexivity|]. split; [reflexivity|].
    unfold events_open. now rewrite E.
Qed.

Lemma exec_then_send (c : ExecCall) (evt : NetworkEvent) (h : Handler) :
  events_open h ->
  exists h', hbind (exec c) (fun _ => send_event evt) h = (Returned tt, h')
             /\ h_calls h' = h_calls h ++ [c] /\ events_open h'.
Proof.
  intros Ho. unfold hbind, exec.
  set (h1 := {| h_events := h_events h; h_calls := h_calls h ++ [c] |}).
  destruct (send_event_open evt h1 Ho) as (h' & E & Hc & Ho').
  rewrite E. exists h'. now split.
Qed.

Lemma send_then_exec (c : ExecCall) (evt : NetworkEvent) (h : Handler) :
  events_open h ->
  exists h', hbind (send_event evt) (fun _ => exec c) h = (Returned tt, h')
             /\ h_calls h' = h_calls h ++ [c] /\ events_open h'.
Proof.
  intros Ho. unfold hbind.
  destruct (send_event_open evt h Ho) as (h1 & E & Hc & Ho').
  rewrite E. unfold exec. eexists. split; [reflexivity|].
  cbn [h_calls h_events]. rewrite Hc. now split.
Qed.

(** [HandleRequest] answers the paused request once, whatever the engine
    returns and however full the event channel is: it returns, it never
    waits for a reader of the events, and it has made exactly one executor
    call, a continue or an apply, for the request of the event. *)
Theorem HandleRequest_answers_once (targetID : string)
  (ev : RequestPausedReply) (h : Handler) :
  events_open h ->
  exists c h',
    HandleRequest action_Type GetRequestBody ExecuteRequestActions EvalForStage
      resourceType targetID ev h = (Returned tt, h')
    /\ h_calls h' = h_calls h ++ [c]
    /\ completing c = true /\ exec_id c = RequestID ev
    /\ events_open h'.
Proof.
  intros Ho. unfold HandleRequest.
  assert (forall c evt, completing c = true -> exec_id c = RequestID ev ->
            exists c0 h',
              hbind (exec c) (fun _ => send_event evt) h = (Returned tt, h')
              /\ h_calls h' = h_calls h ++ [c0]
              /\ completing c0 = true /\ exec_id c0 = RequestID ev
              /\ events_open h') as Hes.
  { intros c evt Hc Hid. destruct (exec_then_send c evt h Ho) as (h' & E & H1 & H2).
    now exists c, h'. }
  assert (forall c evt, completing c = true -> exec_id c = RequestID ev ->
            exists c0 h',
              hbind (send_event evt) (fun _ => exec c) h = (Returned tt, h')
              /\ h_calls h' = h_calls h ++ [c0]
              /\ completing c0 = true /\ exec_id c0 = RequestID ev
              /\ events_open h') as Hse.
  { intros c evt Hc Hid. destruct (send_then_exec c evt h Ho) as (h' & E & H1 & H2).
    now exists c, h'. }
  destruct EvalForStage as [eval|]; [|now apply Hse].
  destruct (eval ev "request") as [|r rs]; [now apply Hse|].
  destruct (computeRequestMutation _ _ _ _) as [[mutation blockRule] ruleMatches].
  destruct blockRule; [now apply Hes|].
  destruct mutation as [mut|]; [|now apply Hes].
  destruct (hasRequestMutation mut); now apply Hes.
Qed.

(** [HandleResponse] likewise: it returns without waiting, and among its
    executor calls exactly one completes the response; the only other call it
    can make is the fetch of the body, before that one. *)
Theorem HandleResponse_answers_once (fetched targetID : string)
  (ev : RequestPausedReply) (h : Handler) :
  events_open h ->
  exists pre c h',
    HandleResponse action_Type GetRequestBody ExecuteResponseActions EvalForStage
      resourceType fetched targetID ev h = (Returned tt, h')
    /\ h_calls h' = h_calls h ++ pre ++ [c]
    /\ (pre = [] \/ pre = [ExFetchResponseBody (RequestID ev)])
    /\ completing c = true /\ exec_id c = RequestID ev
    /\ events_open h'.
Proof.
  intros Ho. unfold HandleResponse.
  assert (forall c evt, completing c = true -> exec_id c = RequestID ev ->
            exists pre c0 h',
              hbind (send_event evt) (fun _ => exec c) h = (Returned tt, h')
              /\ h_calls h' = h_calls h ++ pre ++ [c0]
              /\ (pre = [] \/ pre = [ExFetchResponseBody (RequestID ev)])
              /\ completing c0 = true /\ exec_id c0 = RequestID ev
              /\ events_open h') as Hse.
  { intros c evt Hc Hid. destruct (send_then_exec c evt h Ho) as (h' & E & H1 & H2).
    exists [], c, h'. repeat split; try assumption. now left. }
  destruct EvalForStage as [eval|]; [|now apply Hse].
  destruct (eval ev "response") as [|r rs]; [now apply Hse|].
  clear Hse.
  unfold hbind at 1, exec at 1.
  set (h1 := {| h_events := h_events h;
                h_calls := h_calls h ++ [ExFetchResponseBody (RequestID ev)] |}).
  assert (events_open h1) as Ho1 by exact Ho.
  assert (forall c evt, completing c = true -> exec_id c = RequestID ev ->
            exists pre c0 h',
              hbind (exec c) (fun _ => send_event evt) h1 = (Returned tt, h')
              /\ h_calls h' = h_calls h ++ pre ++ [c0]
              /\ (pre = [] \/ pre = [ExFetchResponseBody (RequestID ev)])
              /\ completing c0 = true /\ exec_id c0 = RequestID ev
              /\ events_open h') as Hes.
  { intros c evt Hc Hid. destruct (exec_then_send c evt h1 Ho1) as (h' & E & H1 & H2).
    exists [ExFetchResponseBody (RequestID ev)], c, h'.
    split; [exact E|]. split; [rewrite H1; unfold h1; cbn; now rewrite <- app_assoc|].
    split; [now right|]. now repeat split. }
  cbn [pi_Body].
  destruct (computeResponseMutation _ _ _ _ _) as [[mutation ruleMatches] finalBody].
  destruct mutation as [mut|]; [|now apply Hes].
  destruct (hasResponseMutation mut); now apply Hes.
Qed.

(** The mutation [HandleResponse] applies always has an effect, and it
    carries the final body of the chain: the body the last rule set, or the
    fetched body when no rule set one; only an empty final body is left
    out. *)
Theorem applied_response_carries_final_body
  (eval : RequestPausedReply -> string -> list MatchedRule)
  (fetched targetID : string) (ev : RequestPausedReply) (h : Handler) :
  exists d,
    h_calls (HandleResponse action_Type GetRequestBody ExecuteResponseActions
               (Some eval) resourceType fetched targetID ev h).2
    = h_calls h ++ d
    /\ forall id mut,
         In (ExApplyResponseMutation id mut) d ->
         hasResponseMutation mut = true
         /\ lookup_or "" (pm_Body mut)
            = (computeResponseMutation action_Type ExecuteResponseActions ev
                 (eval ev "response") fetched).2.
Proof.
  unfold HandleResponse.
  assert (forall (c : ExecCall) (evt : NetworkEvent) (h0 : Handler),
            h_calls (hbind (exec c) (fun _ => send_event evt) h0).2
            = h_calls h0 ++ [c]) as Hes.
  { intros c evt h0. unfold hbind, exec, send_event. cbn [h_events h_calls].
    destruct (h_events h0) as [ch|]; [|reflexivity].
    now destruct (try_send ch evt) as [[]| |]. }
  assert (forall (c : ExecCall) (evt : NetworkEvent),
            (forall id mut, c <> ExApplyResponseMutation id mut) ->
            exists d,
              h_calls (hbind (send_event evt) (fun _ => exec c) h).2 = h_calls h ++ d
              /\ forall id mut, In (ExApplyResponseMutation id mut) d ->
                   hasResponseMutation mut = true
                   /\ lookup_or "" (pm_Body mut)
                      = (computeResponseMutation action_Type ExecuteResponseActions ev
                           (eval ev "response") fetched).2) as Hse.
  { intros c evt Hn. unfold hbind, send_event, exec.
    destruct (h_events h) as [ch|].
    - destruct (try_send ch evt) as [[]| |]; cbn [snd h_calls].
      + exists [c]. split; [reflexivity|]. intros id mut [Hc | []]. now elim (Hn id mut).
      + exists []. split; [now rewrite app_nil_r | intros ? ? []].
      + exists []. split; [now rewrite app_nil_r | intros ? ? []].
    - exists [c]. split; [reflexivity|]. intros id mut [Hc | []]. now elim (Hn id mut). }
  destruct (eval ev "response") as [|r rs] eqn:Er; [now apply Hse|].
  clear Hse. unfold hbind at 1, exec at 1.
  set (h1 := {| h_events := h_events h;
                h_calls := h_calls h ++ [ExFetchResponseBody (RequestID ev)] |}).
  cbn [pi_Body].
  unfold computeResponseMutation.
  pose proof (response_loop_body ev fetched (r :: rs) None fetched eq_refl) as Hfb.
  destruct (response_loop ExecuteResponseActions ev None fetched (r :: rs))
    as [mutation finalBody].
  cbn [snd].
  assert (forall c,
            (forall id mut, c = ExApplyResponseMutation id mut ->
               hasResponseMutation mut = true
               /\ lookup_or "" (pm_Body mut) = finalBody) ->
            forall evt, exists d,
              h_calls (hbind (exec c) (fun _ => send_event evt) h1).2 = h_calls h ++ d
              /\ forall id mut, In (ExApplyResponseMutation id mut) d ->
                   hasResponseMutation mut = true
                   /\ lookup_or "" (pm_Body mut) = finalBody) as Hfin.
  { intros c Hc evt. exists [ExFetchResponseBody (RequestID ev); c].
    split; [rewrite Hes; unfold h1; cbn; now rewrite <- app_assoc|].
    intros id mut [Hd | [Hd | []]]; [discriminate | now apply (Hc id mut)]. }
  destruct mutation as [mut|]; [|apply Hfin; discriminate].
  destruct (hasResponseMutation mut) eqn:Hh; [|apply Hfin; discriminate].
  apply Hfin. intros id mut' [= <- <-]. cbn [lookup_or] in Hfb.
  destruct (pm_Body mut) as [b|] eqn:Eb.
  - rewrite Eb. split; [exact Hh | now rewrite Hfb].
  - cbn [lookup_or] in Hfb. destruct (String.eqb finalBody "") eqn:E0.
    + rewrite Eb. apply String.eqb_eq in E0. split; [exact Hh | now rewrite E0].
    + cbn [pm_Body lookup_or]. split; [|reflexivity].
      unfold hasResponseMutation. cbn [pm_StatusCode pm_Headers pm_RemoveHeaders pm_Body given].
      now rewrite !orb_true_r.
Qed.

End WithExecutor.

Lemma first_block_wins_witness :
  computeRequestMutation (fun a : string => a) pipeline_samples.run_request
    samples.get_a pipeline_samples.three_rules
  = (Some pipeline_samples.block_it, Some (pipeline_samples.matched "r2" ["block"]),
     buildRuleMatches (fun a : string => a) pipeline_samples.three_rules).
Proof.
  apply (proj1 (first_block_wins (fun a : string => a) pipeline_samples.run_request
                  samples.get_a pipeline_samples.three_rules)
           [pipeline_samples.matched "r1" ["setUrl"]]
           (pipeline_samples.matched "r2" ["block"])
           [pipeline_samples.matched "r3" ["setUrl"]]).
  - reflexivity.
  - intros x [<- | []]. reflexivity.
  - reflexivity.
  - reflexivity.
Defined.

Lemma HandleRequest_answers_once_witness :
  exists c h',
    HandleRequest (fun a : string => a) (fun _ => "") pipeline_samples.run_request
      (Some (fun _ _ => pipeline_samples.three_rules))
      (fun _ => "Document") "t1" samples.get_a pipeline_samples.full_handler
    = (Returned tt, h')
    /\ h_calls h' = h_calls pipeline_samples.full_handler ++ [c]
    /\ completing c = true /\ exec_id c = RequestID samples.get_a
    /\ events_open h'.
Proof.
  apply (HandleRequest_answers_once (fun a : string => a) (fun _ => "")
           pipeline_samples.run_request
           (Some (fun _ _ => pipeline_samples.three_rules))
           (fun _ => "Document") "t1" samples.get_a pipeline_samples.full_handler).
  reflexivity.
Defined.

Lemma HandleResponse_answers_once_witness :
  exists pre c h',
    HandleResponse (fun a : string => a) (fun _ => "") pipeline_samples.run_response
      (Some (fun _ _ => pipeline_samples.three_rules))
      (fun _ => "Document") "{}" "t1" samples.resp_a pipeline_samples.full_handler
    = (Returned tt, h')
    /\ h_calls h' = h_calls pipeline_samples.full_handler ++ pre ++ [c]
    /\ (pre = [] \/ pre = [ExFetchResponseBody (RequestID samples.resp_a)])
    /\ completing c = true /\ exec_id c = RequestID samples.resp_a
    /\ events_open h'.
Proof.
  apply (HandleResponse_answers_once (fun a : string => a) (fun _ => "")
           pipeline_samples.run_response
           (Some (fun _ _ => pipeline_samples.three_rules))
           (fun _ => "Document") "{}" "t1" samples.resp_a
           pipeline_samples.full_handler).
  reflexivity.
Defined.

End pipeline_laws.


(* ===================================================================== *)
(** * internal/rules: the match tree and the rules that do not match *)
(* ===================================================================== *)

Module match_laws.
Import rulespec rules props.

(** [matchRule] holds exactly when every condition of allOf holds, some
    condition of anyOf holds unless anyOf is empty, and no condition of noneOf
    holds.  A match with three empty groups holds of every event. *)
Theorem matchRule_reads_three_groups (lib : GoLib) (ctx : Ctx) (m : Match) :
  matchRule lib ctx m = true <->
  (forall c, In c (AllOf m) -> cond lib ctx c = true)
  /\ (AnyOf m = [] \/ exists c, In c (AnyOf m) /\ cond lib ctx c = true)
  /\ (forall c, In c (NoneOf m) -> cond lib ctx c = false).
Proof.
  unfold matchRule, allOf, noneOf, anyOf.
  assert (forall cs, forallb (cond lib ctx) cs = true
                     <-> forall c, In c cs -> cond lib ctx c = true) as Hall
    by (intros cs; apply forallb_forall).
  assert (forall cs, negb (existsb (cond lib ctx) cs) = true
                     <-> forall c, In c cs -> cond lib ctx c = false) as Hnone.
  { intros cs. rewrite negb_true_iff. split.
    - intros H c Hc. destruct (cond lib ctx c) eqn:E; [|reflexivity].
      assert (existsb (cond lib ctx) cs = true) as Hx
        by (apply existsb_exists; eauto).
      congruence.
    - intros H. destruct (existsb (cond lib ctx) cs) eqn:E; [|reflexivity].
      apply existsb_exists in E as (c & Hc & Hx). rewrite (H c Hc) in Hx. discriminate. }
  assert ((if nonempty (AllOf m) then true && forallb (cond lib ctx) (AllOf m) else true)
          = forallb (cond lib ctx) (AllOf m)) as -> by (now destruct (AllOf m)).
  assert (forall ok,
            (if nonempty (NoneOf m)
             then ok && negb (existsb (cond lib ctx) (NoneOf m)) else ok)
            = ok && negb (existsb (cond lib ctx) (NoneOf m))) as Hn.
  { intros ok. destruct (NoneOf m); [now rewrite andb_true_r | reflexivity]. }
  rewrite Hn, andb_true_iff, Hnone.
  destruct (AnyOf m) as [|a rest] eqn:Ea; cbn [nonempty].
  - rewrite Hall. split.
    + intros [H1 H3]. split; [exact H1|]. split; [now left | exact H3].
    + intros (H1 & _ & H3). now split.
  - rewrite andb_true_iff, Hall, existsb_exists. split.
    + intros [[H1 H2] H3]. split; [exact H1|]. split; [now right | exact H3].
    + intros (H1 & [H2 | H2] & H3); [discriminate|]. now split.
Qed.

Section Walk.
Context (lib : GoLib) (ctx : Ctx).

Let matches (r : Rule) : bool := matchRule lib ctx (r_Match r).

Lemma choose_skips_unmatched (chosen : option Rule) (rs : list Rule) :
  choose lib ctx chosen rs = choose lib ctx chosen (List.filter matches rs).
Proof.
  revert chosen. induction rs as [|r rs IH]; intros chosen; [reflexivity|].
  cbn [choose List.filter]. fold (matches r). destruct (matches r) eqn:E.
  - cbn [choose]. fold (matches r). rewrite E.
    destruct (match chosen with
              | None => true
              | Some c => r_Priority c <? r_Priority r
              end); [|apply IH].
    destruct (String.eqb (r_Mode r) "short_circuit"); [reflexivity | apply IH].
  - apply IH.
Qed.

End Walk.

(** [Eval] depends on the matching rules alone: removing the rules that do
    not match, at any place of the list, leaves the result unchanged.  And a
    rule, whatever its mode, that comes after a matching rule of the same or
    a higher priority which did not end the walk is passed over: a
    short_circuit rule ends the walk only when it is also the one chosen. *)
Theorem Eval_ignores_rules_that_lose (lib : GoLib) (rs : RuleSet) (ctx : Ctx) :
  Eval lib rs ctx
  = Eval lib {| Version := Version rs;
                Rules := List.filter (fun r => matchRule lib ctx (r_Match r)) (Rules rs) |}
      ctx
  /\ (forall c r post,
        Rules rs = c :: r :: post ->
        matchRule lib ctx (r_Match c) = true ->
        r_Mode c <> "short_circuit" ->
        r_Priority r <= r_Priority c ->
        Eval lib rs ctx
        = Eval lib {| Version := Version rs; Rules := c :: post |} ctx).
Proof.
  rewrite !eval_facts.Eval_choose. cbn [Rules]. split.
  - now rewrite (choose_skips_unmatched lib ctx None (Rules rs)).
  - intros c r post -> Hc Hmode Hle. rewrite eval_facts.Eval_choose. cbn [Rules].
    f_equal. cbn [choose]. rewrite Hc.
    apply String.eqb_neq in Hmode. rewrite Hmode.
    destruct (matchRule lib ctx (r_Match r)); [|reflexivity].
    assert ((r_Priority c <? r_Priority r) = false) as -> by (apply Z.ltb_ge; lia).
    reflexivity.
Qed.

Lemma Eval_ignores_rules_that_lose_witness :
  Eval samples.nolib
    (samples.ruleset
       [samples.rule "a" 5 "aggregate" (samples.all_of [samples.url_prefix "https://"])
          samples.no_action;
        samples.rule "b" 1 "short_circuit" (samples.all_of [samples.url_prefix "https://a"])
          samples.no_action;
        samples.rule "c" 9 "aggregate" (samples.all_of [samples.url_prefix "https://a.test"])
          samples.no_action])
    samples.ctx_a
  = Eval samples.nolib
      {| Version := "1.0";
         Rules :=
           [samples.rule "a" 5 "aggregate" (samples.all_of [samples.url_prefix "https://"])
              samples.no_action;
            samples.rule "c" 9 "aggregate"
              (samples.all_of [samples.url_prefix "https://a.test"]) samples.no_action] |}
      samples.ctx_a.
Proof.
  apply (proj2 (Eval_ignores_rules_that_lose samples.nolib _ samples.ctx_a)
           (samples.rule "a" 5 "aggregate" (samples.all_of [samples.url_prefix "https://"])
              samples.no_action)
           (samples.rule "b" 1 "short_circuit"
              (samples.all_of [samples.url_prefix "https://a"]) samples.no_action)
           [samples.rule "c" 9 "aggregate"
              (samples.all_of [samples.url_prefix "https://a.test"]) samples.no_action]).
  - reflexivity.
  - reflexivity.
  - discriminate.
  - simpl. lia.
Defined.

End match_laws.


(* ===================================================================== *)
(** * internal/cdp: the Cookie header a rewrite sends can be read back *)
(* ===================================================================== *)

Module cookie_laws.
Import strings cdp laws strings_facts parse_laws.

Lemma split_fuel_more (c : ascii) (f : nat) (s : string) :
  (String.length s <= f)%nat ->
  split_fuel (S f) s (String c "") = split_fuel f s (String c "").
Proof.
  revert s. induction f as [|f IH]; intros s H.
  - destruct s; [reflexivity | cbn in H; lia].
  - cbn [split_fuel]. destruct (Index s (String c "")) as [i|]; [|reflexivity].
    f_equal. change (split_fuel (S f) ?x ?y = _) with (split_fuel (S f) x y = split_fuel f x y).
    apply IH. rewrite length_drop. cbn [String.length]. lia.
Qed.

Lemma split_fuel_enough (c : ascii) (k : nat) (s : string) :
  split_fuel (String.length s + k) s (String c "") = Split s (String c "").
Proof.
  unfold Split. induction k as [|k IH]; [now rewrite Nat.add_0_r|].
  rewrite Nat.add_succ_r, split_fuel_more by lia. exact IH.
Qed.

Lemma Split_char_none (a : string) (c : ascii) :
  free_of c a = true -> Split a (String c "") = [a].
Proof.
  intros H. unfold Split. destruct (String.length a); cbn [split_fuel]; [reflexivity|].
  now rewrite Index_char_none.
Qed.

Lemma Split_char_cons (a : string) (c : ascii) (rest : string) :
  free_of c a = true ->
  Split (a +:+ String c rest) (String c "") = a :: Split rest (String c "").
Proof.
  intros H. unfold Split at 1. rewrite length_app. cbn [String.length].
  rewrite Nat.add_succ_r. cbn [split_fuel].
  rewrite (Index_char_app _ _ _ H). cbn [String.length].
  rewrite take_app, drop_app_char. f_equal.
  rewrite Nat.add_comm. apply split_fuel_enough.
Qed.

Section Joined.

Let render (kv : string * string) : string := kv.1 +:+ "=" +:+ kv.2.

Let rest_of (l : list (string * string)) : string :=
  fold_right (fun kv acc => "; " +:+ render kv +:+ acc) "" l.

Let step (b : string) (kv : string * string) : string :=
  (if String.eqb b "" then b else b +:+ "; ") +:+ kv.1 +:+ "=" +:+ kv.2.

Let pstep (out : gmap string string) (p : string) : gmap string string :=
  match SplitN2 (TrimSpace p) "=" with
  | [k; v] => <[k := v]> out
  | _ => out
  end.

Let clean (kv : string * string) : Prop := clean_pair kv.1 kv.2 = true.

Lemma clean_parts (kv : string * string) :
  clean kv ->
  free_of "=" kv.1 = true /\ free_of ";" (render kv) = true
  /\ TrimSpace (render kv) = render kv.
Proof.
  unfold clean, clean_pair. intros H.
  apply andb_true_iff in H as [H Ht]. apply andb_true_iff in H as [H Hv].
  apply andb_true_iff in H as [He Hk].
  split; [exact He|]. split.
  - unfold render. rewrite !free_of_app, Hk, Hv. reflexivity.
  - now apply trimmed_TrimSpace.
Qed.

Lemma join_from (l : list (string * string)) (b : string) :
  b <> "" -> fold_left step l b = b +:+ rest_of l.
Proof.
  revert b. induction l as [|kv l IH]; intros b Hb; cbn [fold_left rest_of fold_right].
  - now rewrite app_nil_r.
  - assert (step b kv = b +:+ "; " +:+ render kv) as ->.
    { unfold step, render. apply String.eqb_neq in Hb. rewrite Hb.
      now rewrite !app_assoc. }
    rewrite IH.
    + now rewrite !app_assoc.
    + destruct b; [contradiction | discriminate].
Qed.

Lemma Split_joined (a : string) (l : list (string * string)) :
  free_of ";" a = true -> Forall clean l ->
  Split (a +:+ rest_of l) ";" = a :: map (fun kv => " " +:+ render kv) l.
Proof.
  revert a. induction l as [|kv l IH]; intros a Ha Hl; cbn [rest_of fold_right map].
  - rewrite app_nil_r. now apply Split_char_none.
  - inversion Hl as [|? ? Hkv Hl']; subst.
    destruct (clean_parts kv Hkv) as (_ & Hf & _).
    change ("; " +:+ render kv +:+ fold_right (fun kv acc => "; " +:+ render kv +:+ acc) "" l)
      with (String ";" ((" " +:+ render kv) +:+ rest_of l)).
    rewrite (Split_char_cons _ _ _ Ha). f_equal. apply IH; [|exact Hl'].
    cbn [free_of]. exact Hf.
Qed.

Lemma pstep_clean (out : gmap string string) (kv : string * string) :
  clean kv ->
  pstep out (render kv) = <[kv.1 := kv.2]> out
  /\ pstep out (" " +:+ render kv) = <[kv.1 := kv.2]> out.
Proof.
  intros H. destruct (clean_parts kv H) as (He & _ & Ht).
  assert (SplitN2 (render kv) "=" = [kv.1; kv.2]) as Hs
    by (unfold render; apply (SplitN2_char _ "=" _ He)).
  unfold pstep. split.
  - now rewrite Ht, Hs.
  - assert (TrimSpace (" " +:+ render kv) = render kv) as -> by exact Ht.
    now rewrite Hs.
Qed.

Lemma parse_joined (l : list (string * string)) (out : gmap string string) :
  Forall clean l ->
  fold_left pstep (map (fun kv => " " +:+ render kv) l) out
  = fold_left (fun m kv => <[kv.1 := kv.2]> m) l out.
Proof.
  revert out. induction l as [|kv l IH]; intros out Hl; [reflexivity|].
  inversion Hl as [|? ? Hkv Hl']; subst. cbn [map fold_left].
  rewrite (proj2 (pstep_clean out kv Hkv)). now apply IH.
Qed.

Lemma inserts_of_map (cm : gmap string string) :
  fold_left (fun m kv => <[kv.1 := kv.2]> m) (map_to_list cm) ∅ = cm.
Proof.
  rewrite <- (fold_left_rev_right (fun (kv : string * string) m => <[kv.1 := kv.2]> m)).
  rewrite foldr_insert_union, right_id by apply _.
  rewrite <- (list_to_map_proper (map_to_list cm) (rev (map_to_list cm))).
  - apply list_to_map_to_list.
  - apply NoDup_fst_map_to_list.
  - apply Permutation_rev.
Qed.

(** The Cookie header a rewrite builds reads back as the cookies it was
    built from: [parseCookie] of the joined pairs is the map that was joined,
    when names and values are ASCII, no name holds [=] or [;], no value holds
    [;], and no pair begins or ends with white space. *)
Theorem cookie_header_round_trip (cm : gmap string string) :
  (forall k v, cm !! k = Some v ->
               props.ascii_only k = true /\ props.ascii_only v = true) ->
  (forall k v, cm !! k = Some v -> clean_pair k v = true) ->
  parseCookie (join_cookies cm) = cm.
Proof.
  intros _ Hc.
  assert (Forall clean (map_to_list cm)) as Hl.
  { apply Forall_forall. intros [k v] Hkv. apply Hc. now apply elem_of_map_to_list. }
  rewrite <- (inserts_of_map cm) at 2.
  unfold parseCookie, join_cookies. fold step. fold pstep.
  destruct (map_to_list cm) as [|kv l]; [reflexivity|].
  inversion Hl as [|? ? Hkv Hl']; subst.
  destruct (clean_parts kv Hkv) as (_ & Hf & _).
  cbn [fold_left].
  assert (step "" kv = render kv) as -> by reflexivity.
  rewrite join_from.
  - rewrite (Split_joined _ _ Hf Hl'). cbn [fold_left].
    rewrite (proj1 (pstep_clean ∅ kv Hkv)). now apply parse_joined.
  - unfold render. destruct (kv.1); discriminate.
Qed.

End Joined.

Lemma cookie_header_round_trip_witness :
  parseCookie (join_cookies (<["sid" := "a=b"]> (<["theme" := "dark"]> ∅)))
  = <["sid" := "a=b"]> (<["theme" := "dark"]> ∅).
Proof.
  assert (forall k v : string,
            (<["sid" := "a=b"]> (<["theme" := "dark"]> ∅) : gmap string string) !! k
            = Some v ->
            (k, v) = ("sid", "a=b") \/ (k, v) = ("theme", "dark")) as Hkeys.
  { intros k v H.
    destruct (base.decide (k = "sid")) as [->|H1].
    - rewrite lookup_insert_eq in H. injection H as <-. now left.
    - rewrite lookup_insert_ne in H by congruence.
      destruct (base.decide (k = "theme")) as [->|H2].
      + rewrite lookup_insert_eq in H. injection H as <-. now right.
      + rewrite lookup_insert_ne, lookup_empty in H by congruence. discriminate H. }
  apply (cookie_header_round_trip (<["sid" := "a=b"]> (<["theme" := "dark"]> ∅))).
  - intros k v H. destruct (Hkeys k v H) as [[= -> ->] | [= -> ->]];
      split; reflexivity.
  - intros k v H. destruct (Hkeys k v H) as [[= -> ->] | [= -> ->]]; reflexivity.
Defined.

End cookie_laws.


(* ===================================================================== *)
(** * pkg/traffic and the converter: headers without regard to case *)
(* ===================================================================== *)

Module traffic_laws.
Import strings cdp traffic converter.

Lemma EqualFold_iff (a b : string) :
  EqualFold a b = true <-> ToLower a = ToLower b.
Proof. unfold EqualFold. apply String.eqb_eq. Qed.

(** A header map answers to an ASCII name in any capitalisation: after [Set]
    the value is read back under every name that differs from the one set by
    case only, [Del] under such a name removes it, and names that differ
    otherwise are not touched.  [Get] and [Del] accept the nil map; [Set] on
    it panics. *)
Theorem Header_ignores_case (m : gmap string string) (k k' v : string) :
  props.ascii_only k = true -> props.ascii_only k' = true ->
  exists h',
    Set_ (Some m) k v = Returned h'
    /\ (EqualFold k k' = true ->
        Get h' k' = v /\ Get (Del h' k') k = "")
    /\ (EqualFold k k' = false ->
        Get h' k' = Get (Some m) k'
        /\ Get (Del (Some m) k) k' = Get (Some m) k')
    /\ Get None k = "" /\ Del None k = None /\ Set_ None k v = Panicked.
Proof.
  intros _ _.
  eexists. split; [reflexivity|]. unfold Get, Del.
  split; [|split; [|now repeat split]].
  - intros E. apply EqualFold_iff in E. rewrite <- E.
    now rewrite lookup_insert_eq, lookup_delete_eq.
  - intros E.
    assert (ToLower k <> ToLower k') as Hne.
    { intros H. apply EqualFold_iff in H. congruence. }
    now rewrite lookup_insert_ne, lookup_delete_ne.
Qed.

(** [Set] of [Content-Type] on the empty map, read as [content-type]. *)
Lemma Header_ignores_case_witness :
  exists h',
    Set_ (Some ∅) "Content-Type" "text/html" = Returned h'
    /\ Get h' "content-type" = "text/html"
    /\ Get (Del h' "content-type") "Content-Type" = "".
Proof.
  destruct (Header_ignores_case ∅ "Content-Type" "content-type" "text/html"
              eq_refl eq_refl) as (h' & Hset & Hsame & _).
  exists h'. split; [exact Hset|]. apply Hsame. reflexivity.
Defined.

Lemma set_all_snoc (l : list (string * string)) (kv : string * string)
  (m : gmap string string) :
  set_all (l ++ [kv]) m = <[ToLower kv.1 := kv.2]> (set_all l m).
Proof. unfold set_all. now rewrite fold_left_app. Qed.

(** [ToNeutralResponse], of an event whose header names are ASCII, keeps for
    every ASCII header name the value of the last entry of the event whose
    name equals it without regard to case; a name no entry has reads as the
    empty string.  The status is the event's, and 200 when the event has
    none. *)
Theorem neutral_response_keeps_last_value (ev : RequestPausedReply)
  (body name : string) :
  forallb (fun e => props.ascii_only (Name e)) (ResponseHeaders ev) = true ->
  props.ascii_only name = true ->
  Get (rHeaders (ToNeutralResponse ev body)) name
  = match find (fun e => EqualFold (Name e) name) (rev (ResponseHeaders ev)) with
    | Some e => Value e
    | None => ""
    end
  /\ StatusCode (ToNeutralResponse ev body) = lookup_or 200 (ResponseStatusCode ev)
  /\ rBody (ToNeutralResponse ev body) = body.
Proof.
  intros _ _.
  split; [|now split].
  unfold ToNeutralResponse. cbn [rHeaders Get].
  induction (ResponseHeaders ev) as [|e l IH] using rev_ind.
  - cbn. now rewrite lookup_empty.
  - rewrite map_app, rev_app_distr. cbn [map rev app find].
    rewrite set_all_snoc. cbn [fst snd].
    destruct (EqualFold (Name e) name) eqn:E.
    + apply EqualFold_iff in E. now rewrite E, lookup_insert_eq.
    + rewrite lookup_insert_ne; [exact IH|].
      intros H. apply EqualFold_iff in H. congruence.
Qed.

(** The JSON response of the samples read under [content-type]. *)
Lemma neutral_response_keeps_last_value_witness :
  Get (rHeaders (ToNeutralResponse samples.resp_big "{}")) "content-type"
  = "application/json"
  /\ StatusCode (ToNeutralResponse samples.resp_big "{}") = 200
  /\ rBody (ToNeutralResponse samples.resp_big "{}") = "{}".
Proof.
  exact (neutral_response_keeps_last_value samples.resp_big "{}" "content-type"
           eq_refl eq_refl).
Defined.

End traffic_laws.
